(** * checkip: batch TCP reachability prober

    A shallow embedding of the three generations of the tool kept in the
    repository, and the properties of its specification checked against
    them:

    - [Part000]  (src/unnamed/part_000): the context/retry program with
      [Config], [CheckResult], a buffered result channel and a summary;
    - [Checkip3] (src/checkip3.go): the semaphore program whose dispatch
      loop acquires the slot and whose result channel is unbuffered;
    - [Part001]  (src/unnamed/part_001): the first program, one goroutine
      per record and no bound;
    - [APIPatternMatchingConfig] (the head of src/unnamed/part_000): the
      handlers of the rule editor, as functions on the list of patterns.

    Go values are modelled as follows.  [int], [time.Duration] and
    [time.Time] are [Z] (nanoseconds for the last two); the loop indices
    and the two counters of a run stay far below 2^63, so no wrap-around
    is written out.  An [error] is its message, [option error] is a
    possibly-nil error; a call that can panic returns an [outcome].  The
    network, the clock, the cancellation context and the file system are
    oracles passed explicitly, and every call a probe makes to them is
    recorded in a trace of events.  The goroutines of [main] are the
    threads of an interleaving transition system whose steps are the
    channel and wait-group operations of the source. *)

From Stdlib Require Import ZArith List String Ascii Bool Lia Arith.
From Stdlib Require Import Permutation DecimalString.
Import ListNotations.
Open Scope string_scope.

Set Implicit Arguments.

(* ================================================================= *)
(** ** Go library functions used by the programs *)

Definition error := string.

Inductive outcome (A : Type) : Type :=
| Returned (a : A)
| Panicked (msg : string).
Arguments Returned {A} a.
Arguments Panicked {A} msg.

Definition nil_dereference : string :=
  "runtime error: invalid memory address or nil pointer dereference".
Definition index_out_of_range : string :=
  "runtime error: index out of range [0] with length 0".

Module strings.

(** [strings.HasPrefix(s, prefix)] *)
Definition HasPrefix (s prefix : string) : bool := String.prefix prefix s.

(** [strings.Contains(s, substr)]: [substr] starts at some offset of [s]. *)
Fixpoint Contains (s substr : string) : bool :=
  HasPrefix s substr ||
  match s with
  | EmptyString => false
  | String _ rest => Contains rest substr
  end.

(** [strings.HasSuffix(s, suffix)] *)
Definition HasSuffix (s suffix : string) : bool :=
  let n := String.length s in
  let m := String.length suffix in
  (m <=? n)%nat && String.eqb (String.substring (n - m) m s) suffix.

(** The ASCII white space of [unicode.IsSpace]; bytes of multi-byte
    runes are never white space here. *)
Definition isSpace (c : ascii) : bool :=
  let n := nat_of_ascii c in
  ((9 <=? n) && (n <=? 13))%nat || (n =? 32)%nat.

Fixpoint TrimLeftFunc (f : ascii -> bool) (s : string) : string :=
  match s with
  | EmptyString => EmptyString
  | String c rest => if f c then TrimLeftFunc f rest else s
  end.

Fixpoint TrimRightFunc (f : ascii -> bool) (s : string) : string :=
  match s with
  | EmptyString => EmptyString
  | String c rest =>
      match TrimRightFunc f rest with
      | EmptyString => if f c then EmptyString else String c EmptyString
      | r => String c r
      end
  end.

(** [strings.TrimSpace(s)] *)
Definition TrimSpace (s : string) : string :=
  TrimRightFunc isSpace (TrimLeftFunc isSpace s).

Fixpoint inCutset (cutset : string) (c : ascii) : bool :=
  match cutset with
  | EmptyString => false
  | String d rest => Ascii.eqb c d || inCutset rest c
  end.

(** [strings.Trim(s, cutset)] *)
Definition Trim (s cutset : string) : string :=
  TrimRightFunc (inCutset cutset) (TrimLeftFunc (inCutset cutset) s).

(** [strings.SplitN(s, sep, 2)] for a one-byte separator: the text before
    the first [sep] and the text after it, or [s] alone. *)
Fixpoint cut (sep : ascii) (s : string) : option (string * string) :=
  match s with
  | EmptyString => None
  | String c rest =>
      if Ascii.eqb c sep then Some (EmptyString, rest)
      else match cut sep rest with
           | Some (a, b) => Some (String c a, b)
           | None => None
           end
  end.

Definition SplitN2 (s : string) (sep : ascii) : list string :=
  match cut sep s with
  | Some (a, b) => [a; b]
  | None => [s]
  end.

(** [strings.Split(s, sep)] for a one-byte separator: the texts between
    the separators, one more than there are separators. *)
Fixpoint Split (s : string) (sep : ascii) : list string :=
  match s with
  | EmptyString => [EmptyString]
  | String c rest =>
      if Ascii.eqb c sep then EmptyString :: Split rest sep
      else match Split rest sep with
           | a :: l => String c a :: l
           | [] => [String c EmptyString]
           end
  end.

End strings.

Module strconv.

(** [%d] of an [int] *)
Definition Itoa (z : Z) : string := NilZero.string_of_int (Z.to_int z).

Definition digit (c : ascii) : option Z :=
  let n := nat_of_ascii c in
  if ((48 <=? n) && (n <=? 57))%nat then Some (Z.of_nat (n - 48)) else None.

Fixpoint digits (acc : Z) (s : string) : option Z :=
  match s with
  | EmptyString => Some acc
  | String c rest =>
      match digit c with
      | Some d => digits (10 * acc + d) rest
      | None => None
      end
  end.

Definition quote : string := String (ascii_of_nat 34) EmptyString.

Definition syntaxError (s : string) : error :=
  "strconv.Atoi: parsing " ++ quote ++ s ++ quote ++ ": invalid syntax".
Definition rangeError (s : string) : error :=
  "strconv.Atoi: parsing " ++ quote ++ s ++ quote ++ ": value out of range".

Definition unsigned (s : string) : option Z :=
  match s with
  | EmptyString => None
  | _ => digits 0 s
  end.

(** [strconv.Atoi(s)] on a 64-bit platform: an optional sign, then at
    least one decimal digit, within the range of [int]. *)
Definition Atoi (s : string) : Z * option error :=
  let '(neg, body) :=
    match s with
    | String "-" rest => (true, rest)
    | String "+" rest => (false, rest)
    | _ => (false, s)
    end in
  match unsigned body with
  | None => (0, Some (syntaxError s))
  | Some n =>
      let v := if neg then - n else n in
      if (v <? - 2 ^ 63) then (- 2 ^ 63, Some (rangeError s))
      else if (2 ^ 63 - 1 <? v) then (2 ^ 63 - 1, Some (rangeError s))
      else (v, None)
  end%Z.

End strconv.

(* ================================================================= *)
(** ** Data shared by the three programs *)

(** [type ServerInfo struct] *)
Record ServerInfo : Type := mkServerInfo {
  AppName : string;
  ServerIP : string;
  ServerID : Z;
  ServerPort : Z
}.

(** [ServerInfo{}] *)
Definition zeroServerInfo : ServerInfo := mkServerInfo "" "" 0 0.

(** What a probe asks of its surroundings.  [net_LookupIP] and
    [net_DialTimeout] return the Go pairs [(ips, err)] and [(elapsed, err)],
    where [elapsed] is what [time.Since(start)] reads after the call; the
    dial and the cancellation signal may differ from one iteration of the
    retry loop to the next, so they take the loop index. *)
Record World : Type := mkWorld {
  time_Now : Z;
  net_LookupIP : string -> list string * option error;
  ctx_Done : nat -> bool;
  net_DialTimeout : nat -> string -> Z -> Z * option error
}.

Inductive Event : Type :=
| EvPrintln (line : string)
| EvLookupIP (host : string)
| EvSelect (delay : Z) (cancelled : bool)
| EvDialTimeout (address : string) (timeout : Z) (elapsed : Z) (err : option error)
| EvClose.

Definition isDial (e : Event) : bool :=
  match e with EvDialTimeout _ _ _ _ => true | _ => false end.
Definition isLookup (e : Event) : bool :=
  match e with EvLookupIP _ => true | _ => false end.
Definition isSelect (e : Event) : bool :=
  match e with EvSelect _ _ => true | _ => false end.

(** Number of connect attempts, and of DNS lookups, of a trace. *)
Definition dials (tr : list Event) : nat := List.length (filter isDial tr).
Definition lookups (tr : list Event) : nat := List.length (filter isLookup tr).

Definition isClose (e : Event) : bool :=
  match e with EvClose => true | _ => false end.
Definition isConnected (e : Event) : bool :=
  match e with EvDialTimeout _ _ _ None => true | _ => false end.

(** Number of waits, of closed connections and of connections that were
    established, of a trace. *)
Definition selects (tr : list Event) : nat := List.length (filter isSelect tr).
Definition closes (tr : list Event) : nat := List.length (filter isClose tr).
Definition connections (tr : list Event) : nat :=
  List.length (filter isConnected tr).

(** Elapsed time of the last connect attempt of a trace, if any. *)
Fixpoint lastDialElapsed (tr : list Event) : option Z :=
  match tr with
  | [] => None
  | e :: rest =>
      match lastDialElapsed rest with
      | Some d => Some d
      | None => match e with
                | EvDialTimeout _ _ d _ => Some d
                | _ => None
                end
      end
  end.

(** [fmt.Sprintf("%s:%d", ip, port)] *)
Definition hostPort (ip : string) (port : Z) : string :=
  ip ++ ":" ++ strconv.Itoa port.

(** [os.DirEntry], a file as a [bufio.Scanner] delivers it, and the
    file-system calls of the configuration loader (Go pairs again). *)
Record DirEntry : Type := mkDirEntry {
  Name : string;
  IsDir : bool
}.

Record File : Type := mkFile {
  Lines : list string;          (* successive values of [scanner.Text()] *)
  ScanErr : option error        (* [scanner.Err()] after the last line *)
}.

Record FileSystem : Type := mkFileSystem {
  os_ReadDir : string -> list DirEntry * option error;
  os_Open : string -> File * option error
}.

Definition newline : string := String (ascii_of_nat 10) EmptyString.

(* ================================================================= *)
(** ** src/unnamed/part_000 *)

Module Part000.

(** [type CheckResult struct] *)
Record CheckResult : Type := mkCheckResult {
  Info : ServerInfo;        (* field ServerInfo *)
  IsSuccess : bool;
  Error : string;
  CheckTime : Z;
  Duration : Z
}.

(** [type Config struct] *)
Record Config : Type := mkConfig {
  Timeout : Z;
  ConcurrentLimit : Z;
  RetryCount : Z;
  RetryDelay : Z
}.

Definition second : Z := 1000000000.

Definition DefaultConfig : Config :=
  {| Timeout := 5 * second;
     ConcurrentLimit := 10;
     RetryCount := 3;
     RetryDelay := second |}.

Definition setError (e : string) (r : CheckResult) : CheckResult :=
  mkCheckResult (Info r) (IsSuccess r) e (CheckTime r) (Duration r).
Definition setDuration (d : Z) (r : CheckResult) : CheckResult :=
  mkCheckResult (Info r) (IsSuccess r) (Error r) (CheckTime r) d.
Definition setIsSuccess (b : bool) (r : CheckResult) : CheckResult :=
  mkCheckResult (Info r) b (Error r) (CheckTime r) (Duration r).

Definition cancelledMsg : string := "操作被取消".
Definition dnsFailed (err : error) : string := "DNS解析失败: " ++ err.

(** The loop [for i := 0; i < config.RetryCount; i++] of
    [checkConnectivity], entered at index [i] with [n] iterations to go,
    followed by the two statements after it.  The test [i < RetryCount]
    holds for the first [Z.to_nat RetryCount] indices and no other, so the
    loop is entered with that many iterations to go; [lastErr] is nil
    until a dial has failed. *)
Fixpoint retryLoop (w : World) (info : ServerInfo) (config : Config)
    (ip : string) (n i : nat) (result : CheckResult)
    (lastErr : option error) : outcome CheckResult * list Event :=
  match n with
  | O =>
      match lastErr with
      | None => (Panicked nil_dereference, [])
      | Some e => (Returned (setError e result), [])
      end
  | S n' =>
      if (0 <? i)%nat && ctx_Done w i then
        (Returned (setError cancelledMsg result),
         [EvSelect (RetryDelay config) true])
      else
        let wait :=
          if (0 <? i)%nat then [EvSelect (RetryDelay config) false] else [] in
        let address := hostPort ip (ServerPort info) in
        let '(elapsed, err) := net_DialTimeout w i address (Timeout config) in
        let dial := EvDialTimeout address (Timeout config) elapsed err in
        let result := setDuration elapsed result in
        match err with
        | None =>
            (Returned (setIsSuccess true result), (wait ++ [dial; EvClose])%list)
        | Some e =>
            let '(o, tr) :=
              retryLoop w info config ip n' (S i) result (Some e) in
            (o, (wait ++ dial :: tr)%list)
        end
  end.

(** [func checkConnectivity(ctx, info, config) CheckResult] *)
Definition checkConnectivity (w : World) (info : ServerInfo)
    (config : Config) : outcome CheckResult * list Event :=
  let result := mkCheckResult info false "" (time_Now w) 0 in
  let loop ip :=
    retryLoop w info config ip (Z.to_nat (RetryCount config)) 0 result None in
  if negb (strings.Contains (ServerIP info) ".") then
    let '(ips, err) := net_LookupIP w (ServerIP info) in
    let lookup := EvLookupIP (ServerIP info) in
    match err with
    | Some e => (Returned (setError (dnsFailed e) result), [lookup])
    | None =>
        match ips with
        | [] => (Panicked index_out_of_range, [lookup])
        | ip :: _ =>
            let '(o, tr) := loop ip in (o, lookup :: tr)
        end
    end
  else loop (ServerIP info).

(** *** Configuration loader *)

(** One iteration of the scanner loop of [parseServerInfo]: the state is
    [(serverInfos, currentInfo)], and an error is the early [return]. *)
Definition parseLine (st : list ServerInfo * ServerInfo) (text : string)
    : list ServerInfo * ServerInfo + error :=
  let '(serverInfos, currentInfo) := st in
  let line := strings.TrimSpace text in
  if String.eqb line "" || strings.HasPrefix line "#" then inl st
  else
    match strings.SplitN2 line ":" with
    | [k; v] =>
        let key := strings.TrimSpace k in
        let value := strings.Trim (strings.TrimSpace v) strconv.quote in
        if String.eqb key "appName" then
          inl (serverInfos,
               mkServerInfo value (ServerIP currentInfo)
                 (ServerID currentInfo) (ServerPort currentInfo))
        else if String.eqb key "serverIP" then
          inl (serverInfos,
               mkServerInfo (AppName currentInfo) value
                 (ServerID currentInfo) (ServerPort currentInfo))
        else if String.eqb key "serverID" then
          match strconv.Atoi value with
          | (_, Some err) =>
              inr ("解析 serverID 失败 " ++ value ++ ": " ++ err)
          | (id, None) =>
              inl (serverInfos,
                   mkServerInfo (AppName currentInfo) (ServerIP currentInfo)
                     id (ServerPort currentInfo))
          end
        else if String.eqb key "serverPort" then
          match strconv.Atoi value with
          | (_, Some err) =>
              inr ("解析 serverPort 失败 " ++ value ++ ": " ++ err)
          | (port, None) =>
              let currentInfo :=
                mkServerInfo (AppName currentInfo) (ServerIP currentInfo)
                  (ServerID currentInfo) port in
              inl ((serverInfos ++ [currentInfo])%list, zeroServerInfo)
          end
        else inl st
    | _ => inl st
    end.

Fixpoint scanLoop (st : list ServerInfo * ServerInfo) (lines : list string)
    : list ServerInfo * ServerInfo + error :=
  match lines with
  | [] => inl st
  | text :: rest =>
      match parseLine st text with
      | inl st' => scanLoop st' rest
      | inr err => inr err
      end
  end.

(** [func parseServerInfo(filePath string) ([]ServerInfo, error)] *)
Definition parseServerInfo (fs : FileSystem) (filePath : string)
    : list ServerInfo * option error :=
  match os_Open fs filePath with
  | (_, Some err) =>
      ([], Some ("无法打开配置文件 " ++ filePath ++ ": " ++ err))
  | (file, None) =>
      match scanLoop ([], zeroServerInfo) (Lines file) with
      | inr err => ([], Some err)
      | inl (serverInfos, _) =>
          match ScanErr file with
          | Some err =>
              ([], Some ("读取配置文件出错 " ++ filePath ++ ": " ++ err))
          | None => (serverInfos, None)
          end
      end
  end.

Section Runtime.

(** Library functions left abstract: [filepath.Join], the
    [time.Time.Format] method and the [%v] of a [time.Duration]. *)
Variable filepath_Join : string -> string -> string.
Variable time_Format : Z -> string -> string.
Variable Duration_String : Z -> string.

Definition warning (filePath : string) (err : error) : string :=
  "警告: 解析文件 " ++ filePath ++ " 失败: " ++ err.

(** The loop [for _, entry := range entries] of [parseAllConfigFiles];
    the third component is what it prints. *)
Fixpoint entriesLoop (fs : FileSystem) (folderPath : string)
    (entries : list DirEntry) (allServerInfos : list ServerInfo)
    : list ServerInfo * list string :=
  match entries with
  | [] => (allServerInfos, [])
  | entry :: rest =>
      if IsDir entry || negb (strings.HasSuffix (Name entry) ".conf") then
        entriesLoop fs folderPath rest allServerInfos
      else
        let filePath := filepath_Join folderPath (Name entry) in
        match parseServerInfo fs filePath with
        | (_, Some err) =>
            let '(all, out) :=
              entriesLoop fs folderPath rest allServerInfos in
            (all, warning filePath err :: out)
        | (infos, None) =>
            entriesLoop fs folderPath rest (allServerInfos ++ infos)%list
        end
  end.

(** [func parseAllConfigFiles(folderPath string) ([]ServerInfo, error)],
    with the lines it prints. *)
Definition parseAllConfigFiles (fs : FileSystem) (folderPath : string)
    : list ServerInfo * option error * list string :=
  match os_ReadDir fs folderPath with
  | (_, Some err) =>
      ([], Some ("读取目录失败 " ++ folderPath ++ ": " ++ err), [])
  | (entries, None) =>
      let '(allServerInfos, out) := entriesLoop fs folderPath entries [] in
      if (List.length allServerInfos =? 0)%nat then
        ([], Some ("未在目录 " ++ folderPath ++ " 中找到有效的配置"), out)
      else (allServerInfos, None, out)
  end.

(** [func formatResult(result CheckResult) string] *)
Definition formatResult (result : CheckResult) : string :=
  let status :=
    if negb (IsSuccess result) then "失败 (" ++ Error result ++ ")"
    else "成功" in
  "[" ++ time_Format (CheckTime result) "2006-01-02 15:04:05"
  ++ "] 服务器ID: " ++ strconv.Itoa (ServerID (Info result))
  ++ ", 应用: " ++ AppName (Info result)
  ++ ", IP: " ++ ServerIP (Info result)
  ++ ", 端口: " ++ strconv.Itoa (ServerPort (Info result))
  ++ ", 耗时: " ++ Duration_String (Duration result)
  ++ ", 状态: " ++ status.

(** *** [func main()]

    What the process is given: its arguments, the file system, the
    outcome of [os.Create] and of each write to the log file, the clock
    readings, and what the probe of the [i]-th record meets. *)
Record Process : Type := mkProcess {
  os_Args : list string;
  files : FileSystem;
  os_Create : string -> option error;
  logFile_Write : nat -> string -> option error;
  clock : Z;
  time_Since : Z;
  probeWorld : nat -> World
}.

(** [context.WithCancel(context.Background())]: [cancel] is deferred to
    the return of [main], so [ctx.Done()] is never ready in a probe. *)
Definition background (w : World) : World :=
  mkWorld (time_Now w) (net_LookupIP w) (fun _ => false) (net_DialTimeout w).

(** The goroutine launched for one record, by its next statement. *)
Inductive GoPC : Type :=
| GAcquire                       (* [semaphore <- struct{}{}] *)
| GProbe                         (* [checkConnectivity(ctx, info, config)] *)
| GSend (result : CheckResult)   (* [results <- result] *)
| GRelease                       (* deferred [<-semaphore] *)
| GWgDone                        (* deferred [wg.Done()] *)
| GFinished.

Record Goroutine : Type := mkGoroutine {
  gid : nat;
  ginfo : ServerInfo;
  gpc : GoPC
}.

Inductive MainPC : Type :=
| MDispatch (rest : list ServerInfo)   (* [for _, info := range serverInfos] *)
| MDrain                               (* [for result := range results] *)
| MExit (status : Z)
| MPanic (msg : string).

(** The goroutine [wg.Wait(); close(results)]. *)
Inductive CloserPC : Type := CNotStarted | CWait | CClosed.

(** The variables of the drain loop and the two sinks; [seen] is a
    history variable, the results received so far. *)
Record Aggregator : Type := mkAggregator {
  successCount : Z;
  failCount : Z;
  console : list string;
  logFile : list string;
  writes : nat;
  seen : list CheckResult
}.

Record State : Type := mkState {
  mpc : MainPC;
  goroutines : list Goroutine;
  wg : nat;                       (* counter of the [sync.WaitGroup] *)
  semaphore : nat;                (* tokens held in [semaphore] *)
  results : list CheckResult;     (* buffer of [results] *)
  closer : CloserPC;
  agg : Aggregator
}.

Definition usage : string := "用法: ./program <配置文件夹路径>".

Definition logFileName (p : Process) : string :=
  "connectinfo_" ++ time_Format (clock p) "2006-01-02_150405" ++ ".log".

Definition parsed (p : Process) : list ServerInfo * option error * list string :=
  parseAllConfigFiles (files p) (nth 1 (os_Args p) "").

Definition serverInfos (p : Process) : list ServerInfo := fst (fst (parsed p)).

Definition startLine (n : nat) : string :=
  "开始检查 " ++ strconv.Itoa (Z.of_nat n) ++ " 个服务器的连通性...".

Definition summary (p : Process) (a : Aggregator) : string :=
  newline ++ "检查完成！" ++ newline
  ++ "总计: " ++ strconv.Itoa (Z.of_nat (List.length (serverInfos p))) ++ newline
  ++ "成功: " ++ strconv.Itoa (successCount a) ++ newline
  ++ "失败: " ++ strconv.Itoa (failCount a) ++ newline
  ++ "总耗时: " ++ Duration_String (time_Since p) ++ newline
  ++ "结果已保存至: " ++ logFileName p.

Definition parseFailed (err : error) : string := "解析配置文件失败: " ++ err.
Definition createFailed (err : error) : string := "创建日志文件失败: " ++ err.

Definition exited (out : list string) : State :=
  mkState (MExit 0) [] 0 0 [] CNotStarted (mkAggregator 0 0 out [] 0 []).

(** [main] up to the dispatch loop. *)
Definition start (p : Process) : State :=
  if (List.length (os_Args p) <? 2)%nat then exited [usage]
  else
    match parsed p with
    | (_, Some err, out) =>
        exited (out ++ [parseFailed err])%list
    | (infos, None, out) =>
        match os_Create p (logFileName p) with
        | Some err => exited (out ++ [createFailed err])%list
        | None =>
            mkState (MDispatch infos) [] 0 0 [] CNotStarted
              (mkAggregator 0 0
                 (out ++ [startLine (List.length infos)])%list [] 0 [])
        end
    end.

(** [fmt.Fprintln(logFile, line)] with its error dropped. *)
Definition logLine (p : Process) (a : Aggregator) (line : string)
    : list string :=
  match logFile_Write p (writes a) line with
  | None => (logFile a ++ [line])%list
  | Some _ => logFile a
  end.

(** Body of [for result := range results]. *)
Definition drainBody (p : Process) (a : Aggregator) (result : CheckResult)
    : Aggregator :=
  let resultStr := formatResult result in
  mkAggregator
    (if IsSuccess result then successCount a + 1 else successCount a)
    (if IsSuccess result then failCount a else failCount a + 1)
    (console a ++ [resultStr])%list
    (logLine p a resultStr)
    (S (writes a))
    (seen a ++ [result])%list.

(** The drain loop over the results in the order they are received. *)
Definition drain (p : Process) (a : Aggregator)
    (received : list CheckResult) : Aggregator :=
  fold_left (drainBody p) received a.

(** The statements after the drain loop. *)
Definition summarize (p : Process) (a : Aggregator) : Aggregator :=
  mkAggregator (successCount a) (failCount a)
    (console a ++ [summary p a])%list
    (logLine p a (summary p a))
    (S (writes a))
    (seen a).

Definition setPC (pc : GoPC) (g : Goroutine) : Goroutine :=
  mkGoroutine (gid g) (ginfo g) pc.

Definition alive (m : MainPC) : Prop :=
  match m with MDispatch _ | MDrain => True | _ => False end.

(** One atomic step of the process: [main], the closer or one of the
    probe goroutines moves.  [results] has capacity [len(serverInfos)]
    and [semaphore] capacity [config.ConcurrentLimit]. *)
Inductive step (p : Process) (config : Config) : State -> State -> Prop :=
(* [wg.Add(1); go func(info ServerInfo) {...}(info)] *)
| step_go info rest gs n sem res cl a :
    step p config
      (mkState (MDispatch (info :: rest)) gs n sem res cl a)
      (mkState (MDispatch rest)
         (gs ++ [mkGoroutine (List.length gs) info GAcquire])%list
         (S n) sem res cl a)
(* the loop is over: [go func() { wg.Wait(); close(results) }()] *)
| step_watch gs n sem res cl a :
    step p config
      (mkState (MDispatch []) gs n sem res cl a)
      (mkState MDrain gs n sem res CWait a)
(* [semaphore <- struct{}{}], possible while the channel is not full *)
| step_acquire m l1 g l2 n sem res cl a :
    alive m -> gpc g = GAcquire ->
    (Z.of_nat sem < ConcurrentLimit config)%Z ->
    step p config
      (mkState m (l1 ++ g :: l2)%list n sem res cl a)
      (mkState m (l1 ++ setPC GProbe g :: l2)%list n (S sem) res cl a)
(* [result := checkConnectivity(ctx, info, config)] *)
| step_probe m l1 g l2 n sem res cl a r tr :
    alive m -> gpc g = GProbe ->
    checkConnectivity (background (probeWorld p (gid g))) (ginfo g) config
      = (Returned r, tr) ->
    step p config
      (mkState m (l1 ++ g :: l2)%list n sem res cl a)
      (mkState m (l1 ++ setPC (GSend r) g :: l2)%list n sem res cl a)
(* the same call panics, and with it the process *)
| step_panic m l1 g l2 n sem res cl a msg tr :
    alive m -> gpc g = GProbe ->
    checkConnectivity (background (probeWorld p (gid g))) (ginfo g) config
      = (Panicked msg, tr) ->
    step p config
      (mkState m (l1 ++ g :: l2)%list n sem res cl a)
      (mkState (MPanic msg) (l1 ++ g :: l2)%list n sem res cl a)
(* [results <- result], possible while the buffer is not full *)
| step_send m l1 g l2 n sem res cl a r :
    alive m -> gpc g = GSend r ->
    (List.length res < List.length (serverInfos p))%nat ->
    step p config
      (mkState m (l1 ++ g :: l2)%list n sem res cl a)
      (mkState m (l1 ++ setPC GRelease g :: l2)%list n sem
         (res ++ [r])%list cl a)
(* deferred [<-semaphore] *)
| step_release m l1 g l2 n sem res cl a :
    alive m -> gpc g = GRelease ->
    step p config
      (mkState m (l1 ++ g :: l2)%list n (S sem) res cl a)
      (mkState m (l1 ++ setPC GWgDone g :: l2)%list n sem res cl a)
(* deferred [wg.Done()] *)
| step_done m l1 g l2 n sem res cl a :
    alive m -> gpc g = GWgDone ->
    step p config
      (mkState m (l1 ++ g :: l2)%list (S n) sem res cl a)
      (mkState m (l1 ++ setPC GFinished g :: l2)%list n sem res cl a)
(* [wg.Wait()] returns at counter zero, then [close(results)] *)
| step_close gs sem res a :
    step p config
      (mkState MDrain gs 0 sem res CWait a)
      (mkState MDrain gs 0 sem res CClosed a)
(* one iteration of [for result := range results] *)
| step_receive gs n sem r res cl a :
    step p config
      (mkState MDrain gs n sem (r :: res) cl a)
      (mkState MDrain gs n sem res cl (drainBody p a r))
(* the range ends on the closed, empty channel; summary; return *)
| step_summary gs n sem a :
    step p config
      (mkState MDrain gs n sem [] CClosed a)
      (mkState (MExit 0) gs n sem [] CClosed (summarize p a)).

(** States of a run of [main], which uses [DefaultConfig()]. *)
Inductive reachable (p : Process) : State -> Prop :=
| reach_start : reachable p (start p)
| reach_step s s' :
    reachable p s -> step p DefaultConfig s s' -> reachable p s'.

(** Runs of exactly [k] steps. *)
Inductive steps (p : Process) : nat -> State -> State -> Prop :=
| steps_O s : steps p O s s
| steps_S k s s' s'' :
    step p DefaultConfig s s' -> steps p k s' s'' -> steps p (S k) s s''.

(** *** Observations on a state *)

(** A goroutine holds a slot of [semaphore] from its acquire to its
    deferred release; its socket work lies inside, at [GProbe]. *)
Definition holdsSlot (pc : GoPC) : bool :=
  match pc with GProbe | GSend _ | GRelease => true | _ => false end.
Definition probing (pc : GoPC) : bool :=
  match pc with GProbe => true | _ => false end.
Definition unfinished (pc : GoPC) : bool :=
  match pc with GFinished => false | _ => true end.
Definition delivered (pc : GoPC) : bool :=
  match pc with GRelease | GWgDone | GFinished => true | _ => false end.

Fixpoint count (f : GoPC -> bool) (gs : list Goroutine) : nat :=
  match gs with
  | [] => 0
  | g :: rest => (if f (gpc g) then 1 else 0) + count f rest
  end.

(** What the probe of a goroutine comes to. *)
Definition outcomeOf (p : Process) (g : Goroutine) : outcome CheckResult :=
  fst (checkConnectivity (background (probeWorld p (gid g))) (ginfo g)
         DefaultConfig).

Definition deliveredBy (p : Process) (gs : list Goroutine)
    : list (outcome CheckResult) :=
  flat_map (fun g => if delivered (gpc g) then [outcomeOf p g] else []) gs.

(** The probes of a run: one per record, in input order. *)
Fixpoint probesFrom (p : Process) (i : nat) (infos : list ServerInfo)
    : list (outcome CheckResult) :=
  match infos with
  | [] => []
  | info :: rest =>
      fst (checkConnectivity (background (probeWorld p i)) info DefaultConfig)
      :: probesFrom p (S i) rest
  end.

Definition probes (p : Process) : list (outcome CheckResult) :=
  probesFrom p 0 (serverInfos p).

Definition todo (m : MainPC) : list ServerInfo :=
  match m with MDispatch rest => rest | _ => [] end.

Definition successes (l : list CheckResult) : nat :=
  List.length (filter IsSuccess l).
Definition failures (l : list CheckResult) : nat :=
  List.length (filter (fun r => negb (IsSuccess r)) l).

(** Steps a state is still away from the end of the process, at most. *)
Definition rank (pc : GoPC) : nat :=
  match pc with
  | GAcquire => 6
  | GProbe => 5
  | GSend _ => 4
  | GRelease => 2
  | GWgDone => 1
  | GFinished => 0
  end.

Fixpoint ranks (gs : list Goroutine) : nat :=
  match gs with
  | [] => 0
  | g :: rest => rank (gpc g) + ranks rest
  end.

Definition measure (s : State) : nat :=
  match mpc s with
  | MDispatch rest => 8 * List.length rest + 3
  | MDrain => 1
  | _ => 0
  end
  + ranks (goroutines s) + List.length (results s)
  + match closer s with CClosed => 0 | _ => 1 end.

Definition final (s : State) : Prop :=
  match mpc s with MExit _ | MPanic _ => True | _ => False end.

(** A goroutine that needs nothing but its turn to move on. *)
Definition active (pc : GoPC) : bool :=
  match pc with GProbe | GSend _ | GRelease | GWgDone => true | _ => false end.

(** What holds of every state of a run that entered the dispatch loop. *)
Record Inv (p : Process) (s : State) : Prop := mkInv {
  inv_infos :
    match mpc s with
    | MPanic _ => True
    | m => (map ginfo (goroutines s) ++ todo m)%list = serverInfos p
    end;
  inv_ids : map gid (goroutines s) = seq 0 (List.length (goroutines s));
  inv_wg : wg s = count unfinished (goroutines s);
  inv_sem : semaphore s = count holdsSlot (goroutines s);
  inv_bound : (Z.of_nat (semaphore s) <= ConcurrentLimit DefaultConfig)%Z;
  inv_sent :
    Permutation (map Returned (seen (agg s) ++ results s))
      (deliveredBy p (goroutines s));
  inv_send :
    Forall (fun g => forall r, gpc g = GSend r -> outcomeOf p g = Returned r)
      (goroutines s);
  inv_closer :
    match mpc s with
    | MDispatch _ => closer s = CNotStarted
    | MDrain => closer s <> CNotStarted
    | MExit _ => closer s = CClosed /\ results s = []
    | MPanic _ => True
    end;
  inv_closed :
    closer s = CClosed -> wg s = 0 /\ map ginfo (goroutines s) = serverInfos p;
  inv_success : successCount (agg s) = Z.of_nat (successes (seen (agg s)));
  inv_fail : failCount (agg s) = Z.of_nat (failures (seen (agg s)));
  inv_console :
    console (agg s) =
    (snd (parsed p)
     ++ startLine (List.length (serverInfos p))
     :: map formatResult (seen (agg s))
     ++ match mpc s with
        | MExit _ => [summary p (agg s)]
        | _ => []
        end)%list;
  inv_exit : forall status, mpc s = MExit status -> status = 0%Z
}.

End Runtime.

End Part000.

(* ================================================================= *)
(** ** src/unnamed/part_000, the rule editor *)

Module APIPatternMatchingConfig.

(** An entry of the state [patterns]: the values of the form, with [key]
    and [enabled]. *)
Record Pattern : Type := mkPattern {
  key : string;
  name : string;
  type : string;
  pattern : string;
  description : option string;
  enabled : bool
}.

(** What [form.validateFields()] resolves to; [key] may be missing. *)
Record Values : Type := mkValues {
  v_key : option string;
  v_name : string;
  v_type : string;
  v_pattern : string;
  v_description : option string
}.

(** [const patternTypes = [...]], as pairs of [value] and [label]. *)
Definition patternTypes : list (string * string) :=
  [("prefix", "前缀匹配"); ("suffix", "后缀匹配");
   ("contains", "包含匹配"); ("regex", "正则表达式")].

(** [render: (type) => patternTypes.find(t => t.value === type)?.label] *)
Definition renderType (type : string) : option string :=
  match find (fun t => String.eqb (fst t) type) patternTypes with
  | Some t => Some (snd t)
  | None => None
  end.

Definition setEnabled (b : bool) (p : Pattern) : Pattern :=
  mkPattern (key p) (name p) (type p) (pattern p) (description p) b.

(** [handleStatusChange(key, enabled)]: the new value of [patterns]. *)
Definition handleStatusChange (patterns : list Pattern) (k : string)
    (b : bool) : list Pattern :=
  map (fun p => if String.eqb (key p) k then setEnabled b p else p) patterns.

(** [handleDelete(key)]: the new value of [patterns]. *)
Definition handleDelete (patterns : list Pattern) (k : string)
    : list Pattern :=
  filter (fun p => negb (String.eqb (key p) k)) patterns.

(** [{...values, key: values.key || Date.now().toString(), enabled: true}],
    where [now] is [Date.now().toString()]. *)
Definition newPattern (values : Values) (now : string) : Pattern :=
  mkPattern
    (match v_key values with
     | Some k => if String.eqb k "" then now else k
     | None => now
     end)
    (v_name values) (v_type values) (v_pattern values)
    (v_description values) true.

(** [prev.findIndex(f)], [None] standing for -1. *)
Fixpoint findIndex (f : Pattern -> bool) (l : list Pattern) : option nat :=
  match l with
  | [] => None
  | p :: rest =>
      if f p then Some 0
      else match findIndex f rest with
           | Some i => Some (S i)
           | None => None
           end
  end.

(** [const updated = [...prev]; updated[index] = x], for an index of
    [prev]. *)
Fixpoint replaceAt (index : nat) (x : Pattern) (l : list Pattern)
    : list Pattern :=
  match l, index with
  | [], _ => []
  | _ :: rest, O => x :: rest
  | p :: rest, S i => p :: replaceAt i x rest
  end.

(** The function that [handleModalOk] passes to [setPatterns]. *)
Definition update (newPattern : Pattern) (prev : list Pattern)
    : list Pattern :=
  match findIndex (fun p => String.eqb (key p) (key newPattern)) prev with
  | Some index => replaceAt index newPattern prev
  | None => (prev ++ [newPattern])%list
  end.

(** [handleModalOk] on the values of the form: the new value of
    [patterns]. *)
Definition handleModalOk (patterns : list Pattern) (values : Values)
    (now : string) : list Pattern :=
  update (newPattern values now) patterns.

(** The pattern a key stands for: the first entry that has it. *)
Definition lookup (k : string) (patterns : list Pattern) : option Pattern :=
  find (fun p => String.eqb (key p) k) patterns.

End APIPatternMatchingConfig.

(* ================================================================= *)
(** ** src/checkip3.go *)

Module Checkip3.

Section Absent.

(** [parseServerInfo] and [checkConnectivity(info, timeout, results)]
    are called by this file and defined in none of the repository's
    sources for it; they are parameters here.  The probe is taken to
    deliver exactly one line on [results] before it returns, as the one
    of part_001 does on each of its paths; [probeLine i info] is that
    line for the [i]-th record. *)
Variable parseServerInfo : FileSystem -> string -> list ServerInfo * option error.
Variable probeLine : nat -> ServerInfo -> string.
Variable time_Format : Z -> string -> string.

(** The loop of [parseAllConfigFiles]: the first file that fails ends
    the whole function. *)
Fixpoint entriesLoop (fs : FileSystem) (folderPath : string)
    (entries : list DirEntry) (serverInfos : list ServerInfo)
    : list ServerInfo * option error :=
  match entries with
  | [] => (serverInfos, None)
  | entry :: rest =>
      if IsDir entry || negb (strings.HasSuffix (Name entry) ".conf") then
        entriesLoop fs folderPath rest serverInfos
      else
        let filePath := folderPath ++ "/" ++ Name entry in
        match parseServerInfo fs filePath with
        | (_, Some err) =>
            ([], Some ("error parsing file " ++ filePath ++ ": " ++ err))
        | (infos, None) =>
            entriesLoop fs folderPath rest (serverInfos ++ infos)%list
        end
  end.

(** [func parseAllConfigFiles(folderPath string) ([]ServerInfo, error)] *)
Definition parseAllConfigFiles (fs : FileSystem) (folderPath : string)
    : list ServerInfo * option error :=
  match os_ReadDir fs folderPath with
  | (_, Some err) => ([], Some ("failed to read directory: " ++ err))
  | (entries, None) => entriesLoop fs folderPath entries []
  end.

Record Process : Type := mkProcess {
  os_Args : list string;
  files : FileSystem;
  os_Create : string -> option error;
  logFile_Write : nat -> string -> option error;
  clock : Z
}.

(** The goroutine launched for one record; it is born holding the slot
    that the dispatch loop acquired for it. *)
Inductive GoPC : Type :=
| GProbe                    (* inside [checkConnectivity], before its send *)
| GSend (line : string)     (* blocked at [results <- line] *)
| GRelease                  (* deferred [<-semaphore] *)
| GWgDone                   (* deferred [wg.Done()] *)
| GFinished.

Record Goroutine : Type := mkGoroutine {
  gid : nat;
  ginfo : ServerInfo;
  gpc : GoPC
}.

Inductive MainPC : Type :=
| MAdd (rest : list ServerInfo)                       (* [wg.Add(1)] *)
| MAcquire (info : ServerInfo) (rest : list ServerInfo) (* [semaphore <- struct{}{}] *)
| MDrain                                              (* [for result := range results] *)
| MExit (status : Z).

Inductive CloserPC : Type := CNotStarted | CWait | CClosed.

Record Aggregator : Type := mkAggregator {
  console : list string;
  logFile : list string;
  writes : nat;
  seen : list string
}.

Record State : Type := mkState {
  mpc : MainPC;
  goroutines : list Goroutine;
  wg : nat;
  semaphore : nat;
  closer : CloserPC;
  agg : Aggregator
}.

Definition concurrentLimit : nat := 10.

Definition usage : string := "Usage: ./program <config-folder-path>".
Definition parseFailed (err : error) : string :=
  "Error parsing server info: " ++ err.
Definition createFailed (err : error) : string :=
  "Error creating log file: " ++ err.
Definition writeFailed (err : error) : string :=
  "Error writing to log file: " ++ err.

Definition logFileName (p : Process) : string :=
  "connectinfo_" ++ time_Format (clock p) "2006-01-02" ++ ".log".

Definition exited (out : list string) : State :=
  mkState (MExit 0) [] 0 0 CNotStarted (mkAggregator out [] 0 []).

(** [main] up to the dispatch loop. *)
Definition start (p : Process) : State :=
  if (List.length (os_Args p) <? 2)%nat then exited [usage]
  else
    match parseAllConfigFiles (files p) (nth 1 (os_Args p) "") with
    | (_, Some err) => exited [parseFailed err]
    | (infos, None) =>
        match os_Create p (logFileName p) with
        | Some err => exited [createFailed err]
        | None =>
            mkState (MAdd infos) [] 0 0 CNotStarted (mkAggregator [] [] 0 [])
        end
    end.

(** Body of [for result := range results]: the new aggregator, and
    whether the body executed its [return]. *)
Definition drainBody (p : Process) (a : Aggregator) (result : string)
    : Aggregator * bool :=
  match logFile_Write p (writes a) result with
  | Some err =>
      (mkAggregator (console a ++ [result; writeFailed err])%list
         (logFile a) (S (writes a)) (seen a ++ [result])%list, true)
  | None =>
      (mkAggregator (console a ++ [result])%list
         (logFile a ++ [result])%list (S (writes a))
         (seen a ++ [result])%list, false)
  end.

(** The drain loop over the lines in the order they are received. *)
Fixpoint drain (p : Process) (a : Aggregator) (received : list string)
    : Aggregator :=
  match received with
  | [] => a
  | result :: rest =>
      let '(a', returned) := drainBody p a result in
      if returned then a' else drain p a' rest
  end.

Definition setPC (pc : GoPC) (g : Goroutine) : Goroutine :=
  mkGoroutine (gid g) (ginfo g) pc.

Definition alive (m : MainPC) : Prop :=
  match m with MExit _ => False | _ => True end.

(** One atomic step of the process.  [results] is unbuffered: a send
    completes only together with a receive of the drain loop. *)
Inductive step (p : Process) : State -> State -> Prop :=
(* [wg.Add(1)] *)
| step_add info rest gs n sem cl a :
    step p
      (mkState (MAdd (info :: rest)) gs n sem cl a)
      (mkState (MAcquire info rest) gs (S n) sem cl a)
(* [semaphore <- struct{}{}], then [go func(info ServerInfo) {...}(info)] *)
| step_go info rest gs n sem cl a :
    (sem < concurrentLimit)%nat ->
    step p
      (mkState (MAcquire info rest) gs n sem cl a)
      (mkState (MAdd rest)
         (gs ++ [mkGoroutine (List.length gs) info GProbe])%list
         n (S sem) cl a)
(* the loop is over: [go func() { wg.Wait(); close(results) }()] *)
| step_watch gs n sem cl a :
    step p
      (mkState (MAdd []) gs n sem cl a)
      (mkState MDrain gs n sem CWait a)
(* [checkConnectivity(info, timeout, results)] up to its send *)
| step_probe m l1 g l2 n sem cl a :
    alive m -> gpc g = GProbe ->
    step p
      (mkState m (l1 ++ g :: l2)%list n sem cl a)
      (mkState m
         (l1 ++ setPC (GSend (probeLine (gid g) (ginfo g))) g :: l2)%list
         n sem cl a)
(* the send meets an iteration of [for result := range results] *)
| step_rendezvous l1 g l2 n sem cl a line :
    gpc g = GSend line ->
    step p
      (mkState MDrain (l1 ++ g :: l2)%list n sem cl a)
      (mkState
         (if snd (drainBody p a line) then MExit 0 else MDrain)
         (l1 ++ setPC GRelease g :: l2)%list n sem cl
         (fst (drainBody p a line)))
(* deferred [<-semaphore] *)
| step_release m l1 g l2 n sem cl a :
    alive m -> gpc g = GRelease ->
    step p
      (mkState m (l1 ++ g :: l2)%list n (S sem) cl a)
      (mkState m (l1 ++ setPC GWgDone g :: l2)%list n sem cl a)
(* deferred [wg.Done()] *)
| step_done m l1 g l2 n sem cl a :
    alive m -> gpc g = GWgDone ->
    step p
      (mkState m (l1 ++ g :: l2)%list (S n) sem cl a)
      (mkState m (l1 ++ setPC GFinished g :: l2)%list n sem cl a)
(* [wg.Wait()] returns at counter zero, then [close(results)] *)
| step_close gs sem a :
    step p
      (mkState MDrain gs 0 sem CWait a)
      (mkState MDrain gs 0 sem CClosed a)
(* the range ends on the closed channel; [main] returns *)
| step_end gs n sem a :
    step p
      (mkState MDrain gs n sem CClosed a)
      (mkState (MExit 0) gs n sem CClosed a).

Inductive reachable (p : Process) : State -> Prop :=
| reach_start : reachable p (start p)
| reach_step s s' : reachable p s -> step p s s' -> reachable p s'.

Inductive steps (p : Process) : nat -> State -> State -> Prop :=
| steps_O s : steps p O s s
| steps_S k s s' s'' :
    step p s s' -> steps p k s' s'' -> steps p (S k) s s''.

(** *** Observations on a state *)

Definition serverInfos (p : Process) : list ServerInfo :=
  fst (parseAllConfigFiles (files p) (nth 1 (os_Args p) "")).

Definition holdsSlot (pc : GoPC) : bool :=
  match pc with GProbe | GSend _ | GRelease => true | _ => false end.
Definition unfinished (pc : GoPC) : bool :=
  match pc with GFinished => false | _ => true end.
Definition delivered (pc : GoPC) : bool :=
  match pc with GRelease | GWgDone | GFinished => true | _ => false end.
Definition blocked (pc : GoPC) : bool :=
  match pc with GProbe | GSend _ => true | _ => false end.

Fixpoint count (f : GoPC -> bool) (gs : list Goroutine) : nat :=
  match gs with
  | [] => 0
  | g :: rest => (if f (gpc g) then 1 else 0) + count f rest
  end.

Definition lineOf (g : Goroutine) : string := probeLine (gid g) (ginfo g).

Definition deliveredBy (gs : list Goroutine) : list string :=
  flat_map (fun g => if delivered (gpc g) then [lineOf g] else []) gs.

(** The lines of a run: one per record, in input order. *)
Fixpoint linesFrom (i : nat) (infos : list ServerInfo) : list string :=
  match infos with
  | [] => []
  | info :: rest => probeLine i info :: linesFrom (S i) rest
  end.

Definition todo (m : MainPC) : list ServerInfo :=
  match m with
  | MAdd rest => rest
  | MAcquire info rest => info :: rest
  | _ => []
  end.

Definition rank (pc : GoPC) : nat :=
  match pc with
  | GProbe => 4
  | GSend _ => 3
  | GRelease => 2
  | GWgDone => 1
  | GFinished => 0
  end.

Fixpoint ranks (gs : list Goroutine) : nat :=
  match gs with
  | [] => 0
  | g :: rest => rank (gpc g) + ranks rest
  end.

Definition measure (s : State) : nat :=
  match mpc s with
  | MAdd rest => 6 * List.length rest + 3
  | MAcquire _ rest => 6 * List.length rest + 8
  | MDrain => 1
  | MExit _ => 0
  end
  + ranks (goroutines s)
  + match closer s with CClosed => 0 | _ => 1 end.

(** A goroutine that is past its send, or not yet at it. *)
Definition moving (pc : GoPC) : bool :=
  match pc with GProbe | GRelease | GWgDone => true | _ => false end.
Definition sending (pc : GoPC) : bool :=
  match pc with GSend _ => true | _ => false end.

(** What holds of every state of a run that entered the dispatch loop. *)
Record Inv3 (p : Process) (s : State) : Prop := mkInv3 {
  inv3_infos : (map ginfo (goroutines s) ++ todo (mpc s))%list = serverInfos p;
  inv3_ids : map gid (goroutines s) = seq 0 (List.length (goroutines s));
  inv3_wg :
    wg s = count unfinished (goroutines s)
           + match mpc s with MAcquire _ _ => 1 | _ => 0 end;
  inv3_sem : semaphore s = count holdsSlot (goroutines s);
  inv3_bound : semaphore s <= concurrentLimit;
  inv3_sent : Permutation (seen (agg s)) (deliveredBy (goroutines s));
  inv3_send :
    Forall (fun g => forall line, gpc g = GSend line -> line = lineOf g)
      (goroutines s);
  inv3_closer :
    match mpc s with
    | MAdd _ | MAcquire _ _ => closer s = CNotStarted
    | _ => closer s <> CNotStarted
    end;
  inv3_closed : closer s = CClosed -> wg s = 0;
  inv3_exit :
    forall status, mpc s = MExit status ->
      status = 0%Z
      /\ (closer s = CClosed
          \/ exists err, last (console (agg s)) "" = writeFailed err)
}.

End Absent.

End Checkip3.

(* ================================================================= *)
(** ** src/unnamed/part_001 *)

Module Part001.

Definition resolveFailed (info : ServerInfo) : string :=
  "Server ID: " ++ strconv.Itoa (ServerID info)
  ++ ", App Name: " ++ AppName info
  ++ ", IP: " ++ ServerIP info
  ++ ", Port: " ++ strconv.Itoa (ServerPort info)
  ++ ", get ip failed (Failed to resolve IP)".

Definition connectFailed (info : ServerInfo) (ip : string) (err : error)
    : string :=
  "Server ID: " ++ strconv.Itoa (ServerID info)
  ++ ", App Name: " ++ AppName info
  ++ ", IP: " ++ ip
  ++ ", Port: " ++ strconv.Itoa (ServerPort info)
  ++ ", get connected failed ! (Error: " ++ err ++ ")".

Definition connected (info : ServerInfo) (ip : string) : string :=
  "Server ID: " ++ strconv.Itoa (ServerID info)
  ++ ", App Name: " ++ AppName info
  ++ ", IP: " ++ ip
  ++ ", Port: " ++ strconv.Itoa (ServerPort info)
  ++ ", get connected success !".

(** The statements of [checkConnectivity] from the dial on. *)
Definition connect (w : World) (info : ServerInfo) (timeout : Z)
    (ip : string) : string * list Event :=
  let address := hostPort ip (ServerPort info) in
  let '(elapsed, err) := net_DialTimeout w 0 address timeout in
  let dial := EvDialTimeout address timeout elapsed err in
  match err with
  | Some e => (connectFailed info ip e, [dial])
  | None => (connected info ip, [dial; EvClose])
  end.

(** [func checkConnectivity(info, timeout, wg, results)]: the line it
    sends on [results] and the calls it makes, the first of which prints
    the host. *)
Definition checkConnectivity (w : World) (info : ServerInfo) (timeout : Z)
    : outcome string * list Event :=
  let print := EvPrintln ("ip的结果为: " ++ ServerIP info) in
  if strings.Contains (ServerIP info) "." then
    let '(line, tr) := connect w info timeout (ServerIP info) in
    (Returned line, print :: tr)
  else
    let '(ips, err) := net_LookupIP w (ServerIP info) in
    let lookup := EvLookupIP (ServerIP info) in
    match err with
    | Some _ => (Returned (resolveFailed info), [print; lookup])
    | None =>
        match ips with
        | [] => (Panicked index_out_of_range, [print; lookup])
        | ip :: _ =>
            let '(line, tr) := connect w info timeout ip in
            (Returned line, print :: lookup :: tr)
        end
    end.

(** One iteration of the loop of [main] over the lines of the command's
    output; the state is [(serverInfos, currentServerInfo)]. *)
Definition scanLine (st : list ServerInfo * ServerInfo) (line : string)
    : list ServerInfo * ServerInfo :=
  let '(serverInfos, currentServerInfo) := st in
  match strings.Split line ":" with
  | [f0; f1] =>
      let key := strings.TrimSpace f0 in
      let value := strings.TrimSpace f1 in
      if String.eqb key "appName" then
        (serverInfos,
         mkServerInfo value (ServerIP currentServerInfo)
           (ServerID currentServerInfo) (ServerPort currentServerInfo))
      else if String.eqb key "serverIP" then
        (serverInfos,
         mkServerInfo (AppName currentServerInfo) value
           (ServerID currentServerInfo) (ServerPort currentServerInfo))
      else if String.eqb key "serverID" then
        (serverInfos,
         mkServerInfo (AppName currentServerInfo) (ServerIP currentServerInfo)
           (fst (strconv.Atoi value)) (ServerPort currentServerInfo))
      else if String.eqb key "serverPort" then
        let currentServerInfo :=
          mkServerInfo (AppName currentServerInfo)
            (ServerIP currentServerInfo) (ServerID currentServerInfo)
            (fst (strconv.Atoi value)) in
        ((serverInfos ++ [currentServerInfo])%list, currentServerInfo)
      else st
  | _ => st
  end.

Definition scanLines (st : list ServerInfo * ServerInfo)
    (lines : list string) : list ServerInfo * ServerInfo :=
  fold_left scanLine lines st.

(** The records [main] reads from the output of its command. *)
Definition parseOutput (output : string) : list ServerInfo :=
  fst (scanLines ([], zeroServerInfo)
         (strings.Split output (ascii_of_nat 10))).

Record Process : Type := mkProcess {
  cmd_Output : string * option error;
  os_Create : string -> option error;
  logFile_Write : nat -> string -> option error;
  probeWorld : nat -> World
}.

(** [timeout := 5 * time.Second] *)
Definition timeout : Z := 5 * 1000000000.

Inductive GoPC : Type :=
| GPrint                    (* before [fmt.Println("ip的结果为:", ip)] *)
| GProbe                    (* before the lookup and the dial *)
| GSend (line : string)     (* blocked at [results <- line] *)
| GWgDone                   (* deferred [wg.Done()] *)
| GFinished.

Record Goroutine : Type := mkGoroutine {
  gid : nat;
  ginfo : ServerInfo;
  gpc : GoPC
}.

Inductive MainPC : Type :=
| MGo (rest : list ServerInfo)    (* [wg.Add(1); go checkConnectivity(...)] *)
| MCreate                         (* [os.Create("connectinfo.log")] *)
| MDrain                          (* [for result := range results] *)
| MExit (status : Z)
| MPanic (msg : string).

Inductive CloserPC : Type := CNotStarted | CWait | CClosed.

Record Aggregator : Type := mkAggregator {
  console : list string;
  logFile : list string;
  writes : nat;
  seen : list string
}.

Record State : Type := mkState {
  mpc : MainPC;
  goroutines : list Goroutine;
  wg : nat;
  closer : CloserPC;
  agg : Aggregator
}.

Definition commandFailed (err : error) : string :=
  "Error running command: " ++ err.
Definition createFailed (err : error) : string :=
  "Error creating log file: " ++ err.
Definition writeFailed (err : error) : string :=
  "Error writing to log file: " ++ err.
Definition printed (info : ServerInfo) : string :=
  "ip的结果为: " ++ ServerIP info.

(** [main] up to the loop that launches the goroutines. *)
Definition start (p : Process) : State :=
  match cmd_Output p with
  | (_, Some err) =>
      mkState (MExit 0) [] 0 CNotStarted
        (mkAggregator [commandFailed err] [] 0 [])
  | (output, None) =>
      mkState (MGo (parseOutput output)) [] 0 CNotStarted
        (mkAggregator [] [] 0 [])
  end.

Definition say (line : string) (a : Aggregator) : Aggregator :=
  mkAggregator (console a ++ [line])%list (logFile a) (writes a) (seen a).

(** Body of [for result := range results]: the new aggregator, and
    whether the body executed its [return]. *)
Definition drainBody (p : Process) (a : Aggregator) (result : string)
    : Aggregator * bool :=
  match logFile_Write p (writes a) result with
  | Some err =>
      (mkAggregator (console a ++ [result; writeFailed err])%list
         (logFile a) (S (writes a)) (seen a ++ [result])%list, true)
  | None =>
      (mkAggregator (console a ++ [result])%list
         (logFile a ++ [result])%list (S (writes a))
         (seen a ++ [result])%list, false)
  end.

Definition setPC (pc : GoPC) (g : Goroutine) : Goroutine :=
  mkGoroutine (gid g) (ginfo g) pc.

Definition alive (m : MainPC) : Prop :=
  match m with MExit _ | MPanic _ => False | _ => True end.

(** What the goroutine of the [i]-th record computes. *)
Definition probe (p : Process) (g : Goroutine) : outcome string :=
  fst (checkConnectivity (probeWorld p (gid g)) (ginfo g) timeout).

(** One atomic step of the process.  [results] is unbuffered: a send
    completes only together with a receive of the drain loop. *)
Inductive step (p : Process) : State -> State -> Prop :=
(* [wg.Add(1)], then [go checkConnectivity(info, timeout, &wg, results)] *)
| step_go info rest gs n cl a :
    step p
      (mkState (MGo (info :: rest)) gs n cl a)
      (mkState (MGo rest)
         (gs ++ [mkGoroutine (List.length gs) info GPrint])%list
         (S n) cl a)
(* the loop is over: [go func() { wg.Wait(); close(results) }()] *)
| step_watch gs n cl a :
    step p
      (mkState (MGo []) gs n cl a)
      (mkState MCreate gs n CWait a)
(* [os.Create("connectinfo.log")] *)
| step_create gs n cl a :
    step p
      (mkState MCreate gs n cl a)
      (match os_Create p "connectinfo.log" with
       | Some err => mkState (MExit 0) gs n cl (say (createFailed err) a)
       | None => mkState MDrain gs n cl a
       end)
(* [fmt.Println("ip的结果为:", ip)] of a goroutine *)
| step_print m l1 g l2 n cl a :
    alive m -> gpc g = GPrint ->
    step p
      (mkState m (l1 ++ g :: l2)%list n cl a)
      (mkState m (l1 ++ setPC GProbe g :: l2)%list n cl
         (say (printed (ginfo g)) a))
(* the rest of [checkConnectivity] up to its send *)
| step_probe m l1 g l2 n cl a line :
    alive m -> gpc g = GProbe -> probe p g = Returned line ->
    step p
      (mkState m (l1 ++ g :: l2)%list n cl a)
      (mkState m (l1 ++ setPC (GSend line) g :: l2)%list n cl a)
(* the same statements panic, and with them the process *)
| step_panic m l1 g l2 n cl a msg :
    alive m -> gpc g = GProbe -> probe p g = Panicked msg ->
    step p
      (mkState m (l1 ++ g :: l2)%list n cl a)
      (mkState (MPanic msg) (l1 ++ g :: l2)%list n cl a)
(* the send meets an iteration of [for result := range results] *)
| step_rendezvous l1 g l2 n cl a line :
    gpc g = GSend line ->
    step p
      (mkState MDrain (l1 ++ g :: l2)%list n cl a)
      (mkState
         (if snd (drainBody p a line) then MExit 0 else MDrain)
         (l1 ++ setPC GWgDone g :: l2)%list n cl
         (fst (drainBody p a line)))
(* deferred [wg.Done()] *)
| step_done m l1 g l2 n cl a :
    alive m -> gpc g = GWgDone ->
    step p
      (mkState m (l1 ++ g :: l2)%list (S n) cl a)
      (mkState m (l1 ++ setPC GFinished g :: l2)%list n cl a)
(* [wg.Wait()] returns at counter zero, then [close(results)] *)
| step_close m gs a :
    alive m ->
    step p
      (mkState m gs 0 CWait a)
      (mkState m gs 0 CClosed a)
(* the range ends on the closed channel; [main] returns *)
| step_end gs n a :
    step p
      (mkState MDrain gs n CClosed a)
      (mkState (MExit 0) gs n CClosed a).

Inductive reachable (p : Process) : State -> Prop :=
| reach_start : reachable p (start p)
| reach_step s s' : reachable p s -> step p s s' -> reachable p s'.

Inductive steps (p : Process) : nat -> State -> State -> Prop :=
| steps_O s : steps p O s s
| steps_S k s s' s'' :
    step p s s' -> steps p k s' s'' -> steps p (S k) s s''.

(** *** Observations on a state *)

Definition serverInfos (p : Process) : list ServerInfo :=
  parseOutput (fst (cmd_Output p)).

Definition unfinished (pc : GoPC) : bool :=
  match pc with GFinished => false | _ => true end.
Definition delivered (pc : GoPC) : bool :=
  match pc with GWgDone | GFinished => true | _ => false end.
Definition probing (pc : GoPC) : bool :=
  match pc with GProbe => true | _ => false end.

Fixpoint count (f : GoPC -> bool) (gs : list Goroutine) : nat :=
  match gs with
  | [] => 0
  | g :: rest => (if f (gpc g) then 1 else 0) + count f rest
  end.

Definition lineOf (p : Process) (g : Goroutine) : string :=
  match probe p g with
  | Returned line => line
  | Panicked msg => msg
  end.

Definition deliveredBy (p : Process) (gs : list Goroutine) : list string :=
  flat_map (fun g => if delivered (gpc g) then [lineOf p g] else []) gs.

(** The lines of a run: one per record, in input order. *)
Fixpoint linesFrom (p : Process) (i : nat) (infos : list ServerInfo)
    : list string :=
  match infos with
  | [] => []
  | info :: rest =>
      lineOf p (mkGoroutine i info GProbe) :: linesFrom p (S i) rest
  end.

Definition todo (m : MainPC) : list ServerInfo :=
  match m with MGo rest => rest | _ => [] end.

Definition rank (pc : GoPC) : nat :=
  match pc with
  | GPrint => 4
  | GProbe => 3
  | GSend _ => 2
  | GWgDone => 1
  | GFinished => 0
  end.

Fixpoint ranks (gs : list Goroutine) : nat :=
  match gs with
  | [] => 0
  | g :: rest => rank (gpc g) + ranks rest
  end.

Definition measure (s : State) : nat :=
  match mpc s with
  | MGo rest => 5 * List.length rest + 4
  | MCreate => 2
  | MDrain => 1
  | MExit _ | MPanic _ => 0
  end
  + ranks (goroutines s)
  + match closer s with CClosed => 0 | _ => 1 end.

Definition final (s : State) : Prop :=
  match mpc s with MExit _ | MPanic _ => True | _ => False end.

(** What holds of every state of a run whose command succeeded. *)
Record Inv1 (p : Process) (s : State) : Prop := mkInv1 {
  inv1_infos :
    match mpc s with
    | MPanic _ => True
    | m => (map ginfo (goroutines s) ++ todo m)%list = serverInfos p
    end;
  inv1_ids : map gid (goroutines s) = seq 0 (List.length (goroutines s));
  inv1_wg : wg s = count unfinished (goroutines s);
  inv1_sent : Permutation (seen (agg s)) (deliveredBy p (goroutines s));
  inv1_log :
    (forall n line, logFile_Write p n line = None) ->
    logFile (agg s) = seen (agg s);
  inv1_send :
    Forall (fun g => forall line, gpc g = GSend line -> line = lineOf p g)
      (goroutines s);
  inv1_waiting :
    match mpc s with
    | MGo _ | MCreate => count delivered (goroutines s) = 0
    | _ => True
    end;
  inv1_closer :
    match mpc s with
    | MGo _ => closer s = CNotStarted
    | MPanic _ => True
    | _ => closer s <> CNotStarted
    end;
  inv1_closed : closer s = CClosed -> wg s = 0;
  inv1_exit :
    forall status, mpc s = MExit status ->
      status = 0%Z
      /\ (closer s = CClosed
          \/ (exists n line err,
                logFile_Write p n line = Some err
                /\ last (console (agg s)) "" = writeFailed err)
          \/ (exists err,
                os_Create p "connectinfo.log" = Some err
                /\ last (console (agg s)) "" = createFailed err))
}.

(** The goroutines as the launch loop leaves them, and as they are once
    each has printed its host. *)
Fixpoint launched (i : nat) (infos : list ServerInfo) : list Goroutine :=
  match infos with
  | [] => []
  | info :: rest => mkGoroutine i info GPrint :: launched (S i) rest
  end.

End Part001.

(* ================================================================= *)
(** ** Observations on a probe *)

Section ProbeObservations.

Import Part000.

Variable w : World.
Variable info : ServerInfo.
Variable config : Config.

(** The address the retry loop dials, when resolution does not fail. *)
Definition resolvedIP : option string :=
  if strings.Contains (ServerIP info) "." then Some (ServerIP info)
  else match net_LookupIP w (ServerIP info) with
       | (ip :: _, None) => Some ip
       | _ => None
       end.

(** The calls of iteration [i] of the retry loop when its dial fails, and
    of [n] failing iterations from [i] on. *)
Definition attempt (address : string) (i : nat) : list Event :=
  ((if (0 <? i)%nat then [EvSelect (RetryDelay config) false] else [])
   ++ [EvDialTimeout address (Timeout config)
         (fst (net_DialTimeout w i address (Timeout config)))
         (snd (net_DialTimeout w i address (Timeout config)))])%list.

Definition attempts (address : string) (i n : nat) : list Event :=
  flat_map (attempt address) (seq i n).

Definition dialAddresses (tr : list Event) : list string :=
  flat_map (fun e => match e with
                     | EvDialTimeout a _ _ _ => [a]
                     | _ => []
                     end) tr.

(** The calls before the retry loop. *)
Definition lookupOf : list Event :=
  if strings.Contains (ServerIP info) "." then []
  else [EvLookupIP (ServerIP info)].

End ProbeObservations.

(* ================================================================= *)
(** ** Observations on configuration lines *)

(** The key and the value of a config line of part_000, when it has
    them: the line is no comment, not blank, and holds a colon. *)
Definition fieldOf (text : string) : option (string * string) :=
  let line := strings.TrimSpace text in
  if String.eqb line "" || strings.HasPrefix line "#" then None
  else match strings.cut ":" line with
       | Some (k, v) =>
           Some (strings.TrimSpace k,
                 strings.Trim (strings.TrimSpace v) strconv.quote)
       | None => None
       end.

Definition hasKey (key : string) (text : string) : bool :=
  match fieldOf text with
  | Some (k, _) => String.eqb k key
  | None => false
  end.

(** Number of lines of a file that carry the key. *)
Definition keyLines (key : string) (lines : list string) : nat :=
  List.length (filter (hasKey key) lines).

Fixpoint occurrences (sep : ascii) (s : string) : nat :=
  match s with
  | EmptyString => 0
  | String c rest => (if Ascii.eqb c sep then 1 else 0) + occurrences sep rest
  end.

(** The key of a line that the loop of part_001 does not skip. *)
Definition keyOf (line : string) : option string :=
  match strings.Split line ":" with
  | [f0; _] => Some (strings.TrimSpace f0)
  | _ => None
  end.

Definition isKey (k : string) (line : string) : bool :=
  match keyOf line with
  | Some key => String.eqb key k
  | None => false
  end.

(** Two records agree on the field that the key [k] sets. *)
Definition sameField (k : string) (a b : ServerInfo) : Prop :=
  (k = "appName" -> AppName a = AppName b)
  /\ (k = "serverIP" -> ServerIP a = ServerIP b)
  /\ (k = "serverID" -> ServerID a = ServerID b)
  /\ (k = "serverPort" -> ServerPort a = ServerPort b).

(* ================================================================= *)
(** ** Sample surroundings *)

Module Sample.

(** A network where every lookup fails and every connection is refused
    after a millisecond. *)
Definition refusing : World :=
  mkWorld 1700000000%Z
    (fun _ => ([], Some "lookup: no such host"))
    (fun _ => false)
    (fun _ _ _ => (1000000%Z, Some "connect: connection refused")).

(** A network where lookups give two addresses and the third dial of a
    probe is the first to succeed. *)
Definition flaky : World :=
  mkWorld 1700000000%Z
    (fun _ => (["10.0.0.7"; "10.0.0.8"], None))
    (fun _ => false)
    (fun i _ _ => if (i <? 2)%nat
                  then ((Z.of_nat (S i) * 1000000)%Z, Some "i/o timeout")
                  else (250000%Z, None)).

(** A network where lookups give an address and every connection is
    refused. *)
Definition unreachable : World :=
  mkWorld 1700000000%Z
    (fun _ => (["10.0.0.7"], None))
    (fun _ => false)
    (fun _ _ _ => (1000000%Z, Some "connect: connection refused")).

Definition loopback : ServerInfo := mkServerInfo "web" "127.0.0.1" 1%Z 9%Z.
Definition dotted : ServerInfo := mkServerInfo "web" "example.com" 2%Z 80%Z.
Definition bare : ServerInfo := mkServerInfo "db" "db-primary" 3%Z 5432%Z.

Definition noRetries : Part000.Config :=
  Part000.mkConfig (5 * Part000.second)%Z 10%Z 0%Z Part000.second.


Definition join (dir name : string) : string := dir ++ "/" ++ name.
Definition stamp (t : Z) (layout : string) : string := strconv.Itoa t.
Definition nanos (d : Z) : string := strconv.Itoa d ++ "ns".

Definition noSuchFile (path : string) : error :=
  "open " ++ path ++ ": no such file or directory".

(** A disk with a directory conf, one of whose two config files is
    malformed, and a directory pair with one file of two records. *)
Definition disk : FileSystem :=
  mkFileSystem
    (fun dir =>
       if String.eqb dir "conf" then
         ([mkDirEntry "web.conf" false; mkDirEntry "notes.txt" false;
           mkDirEntry "bad.conf" false; mkDirEntry "old.conf" true], None)
       else if String.eqb dir "pair" then
         ([mkDirEntry "pair.conf" false], None)
       else ([], Some (noSuchFile dir)))
    (fun path =>
       if String.eqb path "conf/web.conf" then
         (mkFile ["# front end"; "appName: web"; "serverIP: 127.0.0.1";
                  "serverID: 1"; "serverPort: 9"] None, None)
       else if String.eqb path "conf/bad.conf" then
         (mkFile ["appName: db"; "serverID: one"] None, None)
       else if String.eqb path "pair/pair.conf" then
         (mkFile ["appName: web"; "serverIP: 127.0.0.1"; "serverID: 1";
                  "serverPort: 9"; "appName: db"; "serverIP: db-primary";
                  "serverID: 3"; "serverPort: 5432"] None, None)
       else (mkFile [] None, Some (noSuchFile path))).

Definition process : Part000.Process :=
  Part000.mkProcess ["checkip"; "conf"] disk (fun _ => None)
    (fun _ _ => None) 1700000000 3000000000 (fun _ => refusing).

Definition diskFull : Part000.Process :=
  Part000.mkProcess ["checkip"; "conf"] disk (fun _ => None)
    (fun _ _ => Some "no space left on device") 1700000000 3000000000
    (fun _ => refusing).


(** The line of part_001's probe, standing for the one of checkip3.go. *)
Definition line001 (i : nat) (info : ServerInfo) : string :=
  match fst (Part001.checkConnectivity refusing info 5000000000) with
  | Returned line => line
  | Panicked msg => msg
  end.

Definition process3 : Checkip3.Process :=
  Checkip3.mkProcess ["checkip"; "pair"] disk (fun _ => None)
    (fun _ _ => Some "no space left on device") 1700000000.

Definition malformed3 : Checkip3.Process :=
  Checkip3.mkProcess ["checkip"; "conf"] disk (fun _ => None)
    (fun _ _ => None) 1700000000.




Definition refusal : Part000.CheckResult :=
  Part000.mkCheckResult loopback false "connect: connection refused"
    1700000000 1000000.

(** The state in which [main] of part_000 returns on [process]. *)
Definition finished : Part000.State :=
  Part000.mkState (Part000.MExit 0)
    [Part000.mkGoroutine 0 loopback Part000.GFinished] 0 0 []
    Part000.CClosed
    (Part000.summarize join stamp nanos process
       (Part000.drainBody stamp nanos process
          (Part000.agg (Part000.start join stamp process)) refusal)).

(** The state in which [main] of checkip3.go returns on [process3],
    at the first line it receives. *)
Definition stopped3 : Checkip3.State :=
  Checkip3.mkState (Checkip3.MExit 0)
    [Checkip3.mkGoroutine 0 loopback Checkip3.GRelease;
     Checkip3.mkGoroutine 1 bare Checkip3.GProbe] 2 2
    Checkip3.CWait
    (fst (Checkip3.drainBody process3 (Checkip3.mkAggregator [] [] 0 [])
            (line001 0 loopback))).

(** A network whose context is cancelled from the start and where every
    connection is refused. *)
Definition impatient : World :=
  mkWorld 1700000000%Z
    (fun _ => ([], Some "lookup: no such host"))
    (fun _ => true)
    (fun _ _ _ => (1000000%Z, Some "connect: connection refused")).

(** What the probe of [bare] returns on [flaky], and the calls it makes. *)
Definition answer : Part000.CheckResult :=
  Part000.mkCheckResult bare true "" 1700000000 250000.
Definition answerTrace : list Event :=
  [EvLookupIP "db-primary";
   EvDialTimeout "10.0.0.7:5432" 5000000000 1000000 (Some "i/o timeout");
   EvSelect 1000000000 false;
   EvDialTimeout "10.0.0.7:5432" 5000000000 2000000 (Some "i/o timeout");
   EvSelect 1000000000 false;
   EvDialTimeout "10.0.0.7:5432" 5000000000 250000 None;
   EvClose].

(** [disk] with a readable notes.txt. *)
Definition annotated : FileSystem :=
  mkFileSystem (os_ReadDir disk)
    (fun path =>
       if String.eqb path "conf/notes.txt" then
         (mkFile ["appName: scratch"; "serverPort: 1"] None, None)
       else os_Open disk path).

(** A directory whose one file holds eleven records. *)
Definition crowded : FileSystem :=
  mkFileSystem (fun _ => ([mkDirEntry "all.conf" false], None))
    (fun _ => (mkFile (repeat "serverPort: 80" 11) None, None)).

Definition http : ServerInfo := mkServerInfo "" "" 0%Z 80%Z.

Definition process11 : Checkip3.Process :=
  Checkip3.mkProcess ["checkip"; "all"] crowded (fun _ => None)
    (fun _ _ => None) 1700000000.

(** The state in which the dispatch loop of checkip3.go waits for the
    eleventh slot. *)
Definition waiting11 : Checkip3.State :=
  Checkip3.mkState (Checkip3.MAcquire http [])
    (map (fun i => Checkip3.mkGoroutine i http Checkip3.GProbe) (seq 0 10))
    11 10 Checkip3.CNotStarted (Checkip3.mkAggregator [] [] 0 []).

(** The state of part_000 on [process] in which the one goroutine is
    about to send its result. *)
Definition aboutToSend : Part000.State :=
  Part000.mkState Part000.MDrain
    [Part000.mkGoroutine 0 loopback (Part000.GSend refusal)] 1 1 []
    Part000.CWait (Part000.agg (Part000.start join stamp process)).

(** The output of the command of part_001 for one record, and processes
    that read it: one whose log file can be written, one that cannot
    create it. *)
Definition output1 : string :=
  "appName:web" ++ newline ++ "serverIP:127.0.0.1" ++ newline
  ++ "serverID:1" ++ newline ++ "serverPort:9" ++ newline.

Definition process1 : Part001.Process :=
  Part001.mkProcess (output1, None) (fun _ => None) (fun _ _ => None)
    (fun _ => refusing).

Definition readOnly1 : Part001.Process :=
  Part001.mkProcess (output1, None) (fun _ => Some "permission denied")
    (fun _ _ => None) (fun _ => refusing).

Definition line1 : string :=
  Part001.connectFailed loopback "127.0.0.1" "connect: connection refused".

(** The state in which [main] of part_001 returns on [process1]. *)
Definition finished1 : Part001.State :=
  Part001.mkState (Part001.MExit 0)
    [Part001.mkGoroutine 0 loopback Part001.GFinished] 0 Part001.CClosed
    (Part001.mkAggregator [Part001.printed loopback; line1] [line1] 1 [line1]).

(** The state in which [main] of part_001 returns on [readOnly1]. *)
Definition refused1 : Part001.State :=
  Part001.mkState (Part001.MExit 0)
    [Part001.mkGoroutine 0 loopback Part001.GPrint] 1 Part001.CWait
    (Part001.mkAggregator [Part001.createFailed "permission denied"] [] 0 []).

(** Two rules of the editor. *)
Definition rules : list APIPatternMatchingConfig.Pattern :=
  [APIPatternMatchingConfig.mkPattern "1" "users" "prefix" "/api/v1/*"
     None true;
   APIPatternMatchingConfig.mkPattern "2" "json" "suffix" "*.json"
     (Some "every JSON document") false].

End Sample.

(* ================================================================= *)
(** ** The words of the specification *)

Module Spec.

(** A dotted numeric IP: four decimal fields of at most 255. *)
Fixpoint fields (s : string) (n : nat) : list string :=
  match n with
  | O => [s]
  | S n' =>
      match strings.cut "." s with
      | Some (a, b) => a :: fields b n'
      | None => [s]
      end
  end.

Definition octet (s : string) : bool :=
  match strconv.unsigned s with
  | Some v => (v <=? 255)%Z
  | None => false
  end.

Definition isNumericIP (host : string) : bool :=
  let fs := fields host (String.length host) in
  (List.length fs =? 4)%nat && forallb octet fs.

(** The files a loader reads: the entries that are no directory and
    whose name ends in .conf. *)
Definition isConf (e : DirEntry) : bool :=
  negb (IsDir e) && strings.HasSuffix (Name e) ".conf".

(** The paths of the config files of a directory, in directory order,
    as part_000 joins them and as checkip3.go does. *)
Definition confPaths (join : string -> string -> string)
    (folderPath : string) (entries : list DirEntry) : list string :=
  map (fun e => join folderPath (Name e)) (filter isConf entries).

Definition confPaths3 (folderPath : string) (entries : list DirEntry)
    : list string :=
  map (fun e => folderPath ++ "/" ++ Name e) (filter isConf entries).

Section Loader.

Variable parse : string -> list ServerInfo * option error.

(** "The union of all successfully parsed records", the warnings for
    the files that fail, and the first file that fails. *)
Definition validRecords (paths : list string) : list ServerInfo :=
  flat_map (fun path => match parse path with
                        | (infos, None) => infos
                        | (_, Some _) => []
                        end) paths.

Definition failedFiles (paths : list string) : list (string * error) :=
  flat_map (fun path => match parse path with
                        | (_, Some err) => [(path, err)]
                        | (_, None) => []
                        end) paths.

(** "Skip the file, continue with the others": every valid record is
    returned, without error, whenever there is one. *)
Definition skips_failing_files (paths : list string)
    (result : list ServerInfo * option error) : Prop :=
  validRecords paths <> [] ->
  result = (validRecords paths, None).

End Loader.

(** "The error is surfaced as a console message": some printed line
    carries it. *)
Definition surfaced (console : list string) (err : error) : bool :=
  existsb (fun line => strings.Contains line err) console.

(** "Host resolution is performed anew on every retry attempt": as many
    lookups as the retry policy has attempts. *)
Definition resolves_on_every_attempt (w : World) (info : ServerInfo)
    (config : Part000.Config) : Prop :=
  lookups (snd (Part000.checkConnectivity w info config)) =
  Z.to_nat (Part000.RetryCount config).

(** "A forward DNS lookup if and only if the host is not already a
    numeric IP literal". *)
Definition lookup_iff_not_numeric (w : World) (info : ServerInfo)
    (config : Part000.Config) : Prop :=
  lookups (snd (Part000.checkConnectivity w info config)) =
  if isNumericIP (ServerIP info) then 0 else 1.

(** "The drain-until-closed loop terminates having seen all results". *)
Definition drain_sees_all
    (parseServerInfo : FileSystem -> string -> list ServerInfo * option error)
    (probeLine : nat -> ServerInfo -> string)
    (time_Format : Z -> string -> string) (p : Checkip3.Process) : Prop :=
  forall s,
    Checkip3.reachable parseServerInfo probeLine time_Format p s ->
    forall status,
      Checkip3.mpc s = Checkip3.MExit status ->
      List.length (Checkip3.seen (Checkip3.agg s)) =
      List.length (Checkip3.serverInfos parseServerInfo p).


End Spec.

(* ================================================================= *)
(** * Properties *)

(** ** The probe of part_000 *)

Section Probe.

Import Part000.

Variable w : World.
Variable info : ServerInfo.
Variable config : Config.

Lemma lastDialElapsed_app (a b : list Event) :
  lastDialElapsed (a ++ b) =
  match lastDialElapsed b with
  | Some d => Some d
  | None => lastDialElapsed a
  end.
Proof.
  induction a as [|e a IH]; simpl.
  - destruct (lastDialElapsed b); reflexivity.
  - rewrite IH. destruct (lastDialElapsed b); reflexivity.
Qed.

Lemma dials_app (a b : list Event) : dials (a ++ b) = dials a + dials b.
Proof. unfold dials. rewrite filter_app, length_app. reflexivity. Qed.

Lemma lookups_app (a b : list Event) :
  lookups (a ++ b) = lookups a + lookups b.
Proof. unfold lookups. rewrite filter_app, length_app. reflexivity. Qed.

Lemma dialAddresses_app (a b : list Event) :
  dialAddresses (a ++ b) = (dialAddresses a ++ dialAddresses b)%list.
Proof. unfold dialAddresses. apply flat_map_app. Qed.

(** The retry loop never looks a host up, and dials one address only. *)
Lemma retryLoop_trace ip n : forall i result lastErr,
  let tr := snd (retryLoop w info config ip n i result lastErr) in
  lookups tr = 0
  /\ Forall (eq (hostPort ip (ServerPort info))) (dialAddresses tr)
  /\ dials tr <= n.
Proof.
  induction n as [|n IH]; intros i result lastErr; simpl.
  - destruct lastErr; simpl; repeat split; auto.
  - destruct ((0 <? i)%nat && ctx_Done w i) eqn:Hc; simpl.
    + repeat split; auto. unfold dials; simpl; lia.
    + destruct (net_DialTimeout w i (hostPort ip (ServerPort info))
                  (Timeout config)) as [elapsed err].
      destruct err as [e|].
      * specialize (IH (S i) (setDuration elapsed result) (Some e)).
        destruct (retryLoop w info config ip n (S i)
                    (setDuration elapsed result) (Some e)) as [o tr].
        simpl in *. destruct IH as (IH1 & IH2 & IH3).
        rewrite lookups_app, dialAddresses_app, dials_app.
        destruct (0 <? i)%nat; simpl; unfold lookups, dials in *; simpl;
          repeat split; auto; try lia.
      * simpl. rewrite lookups_app, dialAddresses_app, dials_app.
        destruct (0 <? i)%nat; simpl; unfold lookups, dials; simpl;
          repeat split; auto; lia.
Qed.

(** [Duration] after the loop is the time of its last dial, or what it
    was on entry when the loop dialled nothing. *)
Lemma retryLoop_duration ip n : forall i result lastErr r tr,
  retryLoop w info config ip n i result lastErr = (Returned r, tr) ->
  Duration r = match lastDialElapsed tr with
               | Some d => d
               | None => Duration result
               end.
Proof.
  induction n as [|n IH]; intros i result lastErr r tr; simpl.
  - destruct lastErr; intros H; inversion H; subst; reflexivity.
  - destruct ((0 <? i)%nat && ctx_Done w i).
    + intros H; inversion H; subst; reflexivity.
    + destruct (net_DialTimeout w i (hostPort ip (ServerPort info))
                  (Timeout config)) as [elapsed err].
      destruct err as [e|].
      * destruct (retryLoop w info config ip n (S i)
                    (setDuration elapsed result) (Some e)) as [o tr'] eqn:E.
        intros H; inversion H; subst. apply IH in E. rewrite E.
        rewrite lastDialElapsed_app. simpl.
        destruct (lastDialElapsed tr'); reflexivity.
      * intros H; inversion H; subst.
        rewrite lastDialElapsed_app. reflexivity.
Qed.

(** With an error already recorded, or an iteration still to run, the
    loop returns a result. *)
Lemma retryLoop_returns ip n : forall i result lastErr,
  (0 < n \/ lastErr <> None) ->
  exists r, fst (retryLoop w info config ip n i result lastErr) = Returned r.
Proof.
  induction n as [|n IH]; intros i result lastErr H; simpl.
  - destruct lastErr; simpl; [eauto | destruct H; [lia | congruence]].
  - destruct ((0 <? i)%nat && ctx_Done w i); [simpl; eauto|].
    destruct (net_DialTimeout w i (hostPort ip (ServerPort info))
                (Timeout config)) as [elapsed [e|]]; [|simpl; eauto].
    destruct (IH (S i) (setDuration elapsed result) (Some e)) as [r Hr].
    { right; congruence. }
    destruct (retryLoop w info config ip n (S i)
                (setDuration elapsed result) (Some e)); simpl in *; eauto.
Qed.

(** When no dial succeeds and nothing cancels, [S m] iterations from [i]
    make [S m] dials, each after the first iteration preceded by a wait,
    and return the error and the time of the last one. *)
Lemma retryLoop_exhausted ip :
  (forall k, ctx_Done w k = false) ->
  (forall k, snd (net_DialTimeout w k (hostPort ip (ServerPort info))
                    (Timeout config)) <> None) ->
  forall m i result lastErr,
  exists e,
    snd (net_DialTimeout w (i + m) (hostPort ip (ServerPort info))
           (Timeout config)) = Some e
    /\ retryLoop w info config ip (S m) i result lastErr =
       (Returned (setError e
          (setDuration
             (fst (net_DialTimeout w (i + m) (hostPort ip (ServerPort info))
                     (Timeout config))) result)),
        attempts w config (hostPort ip (ServerPort info)) i (S m)).
Proof.
  intros Hctx Hdial. induction m as [|m IH]; intros i result lastErr.
  - specialize (Hdial i). rewrite Nat.add_0_r.
    cbn [retryLoop]. rewrite Hctx, andb_false_r.
    unfold attempts, attempt. cbn [seq flat_map].
    destruct (net_DialTimeout w i (hostPort ip (ServerPort info))
                (Timeout config)) as [elapsed [e|]]; [|simpl in Hdial; congruence].
    exists e. simpl. rewrite !app_nil_r. split; reflexivity.
  - pose proof (Hdial i) as Hi.
    change (retryLoop w info config ip (S (S m)) i result lastErr)
      with (if (0 <? i)%nat && ctx_Done w i
            then (Returned (setError cancelledMsg result),
                  [EvSelect (RetryDelay config) true])
            else
              let wait := if (0 <? i)%nat
                          then [EvSelect (RetryDelay config) false] else [] in
              let address := hostPort ip (ServerPort info) in
              let '(elapsed, err) :=
                net_DialTimeout w i address (Timeout config) in
              let dial := EvDialTimeout address (Timeout config) elapsed err in
              let result := setDuration elapsed result in
              match err with
              | None => (Returned (setIsSuccess true result),
                         (wait ++ [dial; EvClose])%list)
              | Some e =>
                  let '(o, tr) :=
                    retryLoop w info config ip (S m) (S i) result (Some e) in
                  (o, (wait ++ dial :: tr)%list)
              end).
    rewrite Hctx, andb_false_r. cbv zeta.
    unfold attempts. cbn [seq flat_map]. fold (attempts w config (hostPort ip (ServerPort info)) (S i) (S m)).
    unfold attempt at 1.
    destruct (net_DialTimeout w i (hostPort ip (ServerPort info))
                (Timeout config)) as [elapsed [e0|]]; [|simpl in Hi; congruence].
    destruct (IH (S i) (setDuration elapsed result) (Some e0)) as [e [He Hloop]].
    rewrite Hloop. exists e.
    replace (i + S m) with (S i + m) by lia. split; [exact He|].
    simpl. rewrite <- app_assoc. reflexivity.
Qed.

(** [checkConnectivity] is the retry loop on the resolved address, after
    at most one lookup. *)
Lemma checkConnectivity_resolved ip :
  resolvedIP w info = Some ip ->
  checkConnectivity w info config =
  (fst (retryLoop w info config ip (Z.to_nat (RetryCount config)) 0
          (mkCheckResult info false "" (time_Now w) 0) None),
   ((if strings.Contains (ServerIP info) "." then []
     else [EvLookupIP (ServerIP info)])
    ++ snd (retryLoop w info config ip (Z.to_nat (RetryCount config)) 0
              (mkCheckResult info false "" (time_Now w) 0) None))%list).
Proof.
  unfold resolvedIP, checkConnectivity.
  destruct (strings.Contains (ServerIP info) "."); simpl.
  - intros H; inversion H; subst.
    destruct (retryLoop _ _ _ _ _ _ _ _); reflexivity.
  - destruct (net_LookupIP w (ServerIP info)) as [[|ip0 rest] [e|]];
      intros H; inversion H; subst.
    destruct (retryLoop _ _ _ _ _ _ _ _); reflexivity.
Qed.

End Probe.

Section ProbeClaims.

Import Part000.

Variable w : World.
Variable info : ServerInfo.
Variable config : Config.

Lemma dials_attempts address : forall n i,
  dials (attempts w config address i n) = n.
Proof.
  unfold attempts. induction n as [|n IH]; intros i; [reflexivity|].
  cbn [seq flat_map]. rewrite dials_app, IH.
  unfold attempt. destruct (0 <? i)%nat; reflexivity.
Qed.

(** An unreachable target and a positive [RetryCount]: exactly
    [RetryCount] dials, a wait of [RetryDelay] before each but the first,
    and a failure carrying the error of the last dial. *)
Lemma checkConnectivity_exhausts_retries ip :
  (0 < RetryCount config)%Z ->
  resolvedIP w info = Some ip ->
  (forall k, ctx_Done w k = false) ->
  (forall k, snd (net_DialTimeout w k (hostPort ip (ServerPort info))
                    (Timeout config)) <> None) ->
  exists r tr,
    checkConnectivity w info config = (Returned r, tr)
    /\ IsSuccess r = false
    /\ Some (Error r) =
       snd (net_DialTimeout w (Z.to_nat (RetryCount config) - 1)
              (hostPort ip (ServerPort info)) (Timeout config))
    /\ dials tr = Z.to_nat (RetryCount config)
    /\ filter (fun e => negb (isLookup e)) tr =
       attempts w config (hostPort ip (ServerPort info)) 0
         (Z.to_nat (RetryCount config)).
Proof.
  intros Hpos Hres Hctx Hdial.
  rewrite (checkConnectivity_resolved w info config Hres).
  destruct (Z.to_nat (RetryCount config)) as [|m] eqn:Hn; [lia|].
  destruct (retryLoop_exhausted w info config ip Hctx Hdial m 0
              (mkCheckResult info false "" (time_Now w) 0) None)
    as [e [He Hloop]].
  rewrite Hloop. cbn [fst snd]. do 2 eexists. split; [reflexivity|].
  simpl in He. replace (S m - 1) with m by lia.
  repeat split.
  - simpl. symmetry. exact He.
  - rewrite dials_app, dials_attempts.
    destruct (strings.Contains (ServerIP info) "."); reflexivity.
  - rewrite filter_app.
    assert (Hf : forall n i,
               filter (fun e => negb (isLookup e))
                 (attempts w config (hostPort ip (ServerPort info)) i n)
               = attempts w config (hostPort ip (ServerPort info)) i n).
    { unfold attempts. induction n as [|n IH]; intros i; [reflexivity|].
      cbn [seq flat_map]. rewrite filter_app, IH.
      unfold attempt. destruct (0 <? i)%nat; reflexivity. }
    rewrite Hf. destruct (strings.Contains (ServerIP info) "."); reflexivity.
Qed.

(** C6: with [RetryCount <= 0] and a host that resolves, the loop body
    never runs, [lastErr] is still nil at [lastErr.Error()], and the call
    panics with a nil dereference after zero connect attempts instead of
    returning a [CheckResult]. *)
Theorem checkConnectivity_panics_without_retries :
  (RetryCount config <= 0)%Z ->
  resolvedIP w info <> None ->
  fst (checkConnectivity w info config) = Panicked nil_dereference
  /\ dials (snd (checkConnectivity w info config)) = 0.
Proof.
  intros Hle Hres.
  destruct (resolvedIP w info) as [ip|] eqn:Hip; [|congruence].
  rewrite (checkConnectivity_resolved w info config Hip).
  replace (Z.to_nat (RetryCount config)) with 0 by lia.
  cbn [retryLoop fst snd]. split; [reflexivity|].
  rewrite app_nil_r.
  destruct (strings.Contains (ServerIP info) "."); reflexivity.
Qed.

(** C10: the [Duration] of a returned [CheckResult] is the time of the
    last connect attempt alone (zero when none was made): neither waits
    nor earlier attempts are added; and a failed DNS lookup returns a
    result with [Duration] zero and no connect attempt. *)
Theorem duration_is_last_attempt r tr :
  checkConnectivity w info config = (Returned r, tr) ->
  Duration r = match lastDialElapsed tr with Some d => d | None => 0%Z end
  /\ (strings.Contains (ServerIP info) "." = false ->
      snd (net_LookupIP w (ServerIP info)) <> None ->
      Duration r = 0%Z /\ dials tr = 0).
Proof.
  unfold checkConnectivity.
  destruct (strings.Contains (ServerIP info) ".") eqn:Hdot; cbn [negb].
  - intros H. split; [|discriminate].
    apply retryLoop_duration in H. exact H.
  - destruct (net_LookupIP w (ServerIP info)) as [ips [e|]] eqn:Hl.
    + intros H; inversion H; subst. simpl. auto.
    + destruct ips as [|ip rest]; [discriminate|].
      destruct (retryLoop w info config ip (Z.to_nat (RetryCount config)) 0
                  (mkCheckResult info false "" (time_Now w) 0) None)
        as [o tr'] eqn:E.
      intros H; inversion H; subst. split; [|simpl; congruence].
      apply retryLoop_duration in E. rewrite E.
      change (EvLookupIP (ServerIP info) :: tr')
        with ([EvLookupIP (ServerIP info)] ++ tr')%list.
      rewrite lastDialElapsed_app. simpl.
      destruct (lastDialElapsed tr'); reflexivity.
Qed.

(** The number of lookups of a probe of part_000. *)
Lemma part000_lookups :
  lookups (snd (checkConnectivity w info config)) =
  (if strings.Contains (ServerIP info) "." then 0 else 1).
Proof.
  unfold checkConnectivity.
  destruct (strings.Contains (ServerIP info) ".") eqn:Hdot; cbn [negb].
  - apply (retryLoop_trace w info config).
  - destruct (net_LookupIP w (ServerIP info)) as [ips [e|]] eqn:Hl;
      [reflexivity|].
    destruct ips as [|ip rest]; [reflexivity|].
    pose proof (retryLoop_trace w info config ip
                  (Z.to_nat (RetryCount config)) 0
                  (mkCheckResult info false "" (time_Now w) 0) None) as H.
    destruct (retryLoop _ _ _ _ _ _ _ _) as [o tr]. simpl in *.
    destruct H as [H _]. unfold lookups in *. simpl. lia.
Qed.

(** C4 (as the code has it): the host is looked up at most once, before
    the retry loop (once exactly when it holds no dot); a failed lookup
    ends the probe at once with the DNS failure as its result, no wait
    and no connect attempt. *)
Theorem resolution_is_done_once :
  lookups (snd (checkConnectivity w info config)) =
    (if strings.Contains (ServerIP info) "." then 0 else 1)
  /\ forall e,
       strings.Contains (ServerIP info) "." = false ->
       snd (net_LookupIP w (ServerIP info)) = Some e ->
       checkConnectivity w info config =
       (Returned (mkCheckResult info false (dnsFailed e) (time_Now w) 0),
        [EvLookupIP (ServerIP info)]).
Proof.
  split; [exact part000_lookups|].
  intros e Hdot He. unfold checkConnectivity. rewrite Hdot. cbn [negb].
  destruct (net_LookupIP w (ServerIP info)) as [ips err]. simpl in He.
  subst err. reflexivity.
Qed.

(** The same resolver in part_001. *)
Lemma part001_resolver (timeout : Z) :
  let tr := snd (Part001.checkConnectivity w info timeout) in
  lookups tr = (if strings.Contains (ServerIP info) "." then 0 else 1)
  /\ forall ip, resolvedIP w info = Some ip ->
                dialAddresses tr = [hostPort ip (ServerPort info)].
Proof.
  unfold Part001.checkConnectivity, resolvedIP, Part001.connect.
  destruct (strings.Contains (ServerIP info) ".") eqn:Hdot.
  - destruct (net_DialTimeout w 0 (hostPort (ServerIP info) (ServerPort info))
                timeout) as [el [e|]]; simpl; split; auto;
      intros ip H; inversion H; reflexivity.
  - destruct (net_LookupIP w (ServerIP info)) as [[|ip0 rest] [e|]]; simpl;
      try (split; [reflexivity | discriminate]).
    destruct (net_DialTimeout w 0 (hostPort ip0 (ServerPort info)) timeout)
      as [el [e|]]; simpl; split; auto; intros ip H; inversion H; reflexivity.
Qed.

(** C3 (as the code has it): in part_000 and in part_001 alike, the host
    is looked up if and only if its text holds no dot; a host with a dot,
    numeric or a name such as example.com, is dialled unchanged without
    any lookup, and a host without one is dialled at the first address
    the lookup returned. *)
Theorem lookup_iff_no_dot (timeout : Z) :
  lookups (snd (checkConnectivity w info config)) =
    (if strings.Contains (ServerIP info) "." then 0 else 1)
  /\ lookups (snd (Part001.checkConnectivity w info timeout)) =
    (if strings.Contains (ServerIP info) "." then 0 else 1)
  /\ forall ip,
       resolvedIP w info = Some ip ->
       Forall (eq (hostPort ip (ServerPort info)))
         (dialAddresses (snd (checkConnectivity w info config)))
       /\ dialAddresses (snd (Part001.checkConnectivity w info timeout)) =
          [hostPort ip (ServerPort info)].
Proof.
  split; [exact part000_lookups|].
  split; [apply part001_resolver|].
  intros ip Hip. split; [|apply part001_resolver; exact Hip].
  rewrite (checkConnectivity_resolved w info config Hip). cbn [snd].
  rewrite dialAddresses_app.
  apply Forall_app. split.
  - destruct (strings.Contains (ServerIP info) "."); constructor.
  - apply (retryLoop_trace w info config).
Qed.

End ProbeClaims.

(** ** The run of part_000 *)

Section Run000.

Import Part000.

Variable filepath_Join : string -> string -> string.
Variable time_Format : Z -> string -> string.
Variable Duration_String : Z -> string.
Variable p : Process.

Local Abbreviation step := (Part000.step filepath_Join time_Format Duration_String p DefaultConfig).
Local Abbreviation reachable := (Part000.reachable filepath_Join time_Format Duration_String p).
Local Abbreviation steps := (Part000.steps filepath_Join time_Format Duration_String p).
Local Abbreviation infos := (serverInfos filepath_Join p).
Local Abbreviation start := (Part000.start filepath_Join time_Format p).
Local Abbreviation formatResult := (Part000.formatResult time_Format Duration_String).
Local Abbreviation probes := (Part000.probes filepath_Join p).
Local Abbreviation Inv :=
  (Part000.Inv filepath_Join time_Format Duration_String p).
Local Abbreviation summary := (Part000.summary filepath_Join time_Format Duration_String p).

Lemma count_app f (a b : list Goroutine) :
  count f (a ++ b) = count f a + count f b.
Proof. induction a as [|g a IH]; simpl; [reflexivity | rewrite IH; lia]. Qed.

Lemma ranks_app (a b : list Goroutine) : ranks (a ++ b) = ranks a + ranks b.
Proof. induction a as [|g a IH]; simpl; [reflexivity | rewrite IH; lia]. Qed.

Lemma deliveredBy_app (a b : list Goroutine) :
  deliveredBy p (a ++ b) = (deliveredBy p a ++ deliveredBy p b)%list.
Proof. apply flat_map_app. Qed.

Lemma count_le_length f (gs : list Goroutine) : count f gs <= List.length gs.
Proof. induction gs as [|g gs IH]; simpl; [lia | destruct (f (gpc g)); lia]. Qed.

Lemma deliveredBy_length (gs : list Goroutine) :
  List.length (deliveredBy p gs) = count delivered gs.
Proof.
  induction gs as [|g gs IH]; simpl; [reflexivity|].
  rewrite length_app, IH. destruct (delivered (gpc g)); reflexivity.
Qed.

Lemma start_running rest :
  mpc start = MDispatch rest ->
  start = mkState (MDispatch infos) [] 0 0 [] CNotStarted
            (mkAggregator 0 0
               (snd (parsed filepath_Join p)
                ++ [startLine (List.length infos)]) [] 0 []).
Proof.
  unfold Part000.start, serverInfos.
  destruct (List.length (os_Args p) <? 2)%nat; [discriminate|].
  destruct (parsed filepath_Join p) as [[l [e|]] out]; [discriminate|].
  destruct (os_Create p _); [discriminate|]. reflexivity.
Qed.

Lemma inv_start rest : mpc start = MDispatch rest -> Inv start.
Proof.
  intros H. rewrite (start_running H).
  constructor; simpl; auto; try lia; try discriminate.
Qed.

Ltac surgery :=
  repeat rewrite ?map_app, ?count_app, ?ranks_app, ?deliveredBy_app,
                 ?length_app in *;
  simpl in *.

Lemma successes_snoc l r :
  Z.of_nat (successes (l ++ [r])) =
  (if IsSuccess r then Z.of_nat (successes l) + 1 else Z.of_nat (successes l))%Z.
Proof.
  unfold successes. rewrite filter_app, length_app. simpl.
  destruct (IsSuccess r); simpl; lia.
Qed.

Lemma failures_snoc l r :
  Z.of_nat (failures (l ++ [r])) =
  (if IsSuccess r then Z.of_nat (failures l) else Z.of_nat (failures l) + 1)%Z.
Proof.
  unfold failures. rewrite filter_app, length_app. simpl.
  destruct (IsSuccess r); simpl; lia.
Qed.

Lemma sent_step (X : list (outcome CheckResult)) Y r g pc D1 D2 :
  Permutation (X ++ Y) (D1 ++ D2) ->
  outcomeOf p g = Returned r ->
  Permutation (X ++ Y ++ [Returned r])
    (D1 ++ outcomeOf p (setPC pc g) :: D2).
Proof.
  intros HP Ho. change (outcomeOf p (setPC pc g)) with (outcomeOf p g).
  rewrite Ho, app_assoc.
  apply Permutation_trans with (Returned r :: (X ++ Y))%list.
  - apply Permutation_sym, Permutation_cons_append.
  - apply Permutation_cons_app. exact HP.
Qed.

Ltac forall_surgery :=
  match goal with
  | H : Forall _ (_ ++ _ :: _) |- Forall _ (_ ++ _ :: _) =>
      apply Forall_app in H; destruct H as [? H];
      inversion H; subst; clear H;
      apply Forall_app; split; [assumption|];
      constructor; [|assumption]
  end.

Lemma inv_step s s' : Inv s -> step s s' -> Inv s'.
Proof.
  intros [Hi Hid Hwg Hsem Hb Hsent Hsend Hcl Hcd Hsu Hfa Hco Hex] Hstep.
  inversion Hstep; subst; simpl in *.
  all: try match goal with
           | H : alive ?m |- _ => destruct m; simpl in H; try contradiction
           end.
  all: constructor; simpl.
  all: surgery.
  all: try match goal with H : gpc _ = _ |- _ => rewrite H in * end.
  all: simpl in *.
  all: try lia.
  all: try assumption.
  all: try discriminate.
  all: try (intro; discriminate).
  all: try (intros Hc; destruct (Hcd Hc); split; congruence).
  all: try (intros _; split; [reflexivity|]; rewrite app_nil_r in Hi; exact Hi).
  all: try (rewrite <- app_assoc; assumption).
  all: try (rewrite app_nil_r; assumption).
  all: try (forall_surgery; simpl; intros; try discriminate).
  all: try (rewrite successes_snoc, Hsu; reflexivity).
  all: try (rewrite failures_snoc, Hfa; reflexivity).
  all: try (split; reflexivity).
  all: try (rewrite Hco, map_app, app_nil_r, <- !app_assoc; reflexivity).
  all: try (intros ? Hs; inversion Hs; reflexivity).
  all: try (rewrite Hco, app_nil_r; reflexivity).
  - rewrite Nat.add_1_r, seq_S, Hid. reflexivity.
  - apply Forall_app. split; [assumption|].
    constructor; [|constructor]. simpl. discriminate.
  - match goal with H : GSend _ = GSend _ |- _ => inversion H; subst end.
    unfold outcomeOf. simpl.
    match goal with H : checkConnectivity _ _ _ = _ |- _ => rewrite H end.
    reflexivity.
  - match goal with H : GSend _ = GSend _ |- _ => inversion H; subst end.
    unfold outcomeOf. simpl.
    match goal with H : checkConnectivity _ _ _ = _ |- _ => rewrite H end.
    reflexivity.
  - apply sent_step; [assumption|].
    apply Forall_app in Hsend. destruct Hsend as [_ Hs].
    inversion Hs; subst. auto.
  - apply sent_step; [assumption|].
    apply Forall_app in Hsend. destruct Hsend as [_ Hs].
    inversion Hs; subst. auto.
  - rewrite Hco, !app_nil_r, <- app_assoc. reflexivity.
  - rewrite Hco, !app_nil_r, <- app_assoc. reflexivity.
Qed.

Lemma inv_reachable rest s :
  mpc start = MDispatch rest -> reachable s -> Inv s.
Proof.
  intros H Hr. induction Hr; [exact (inv_start H) | eauto using inv_step].
Qed.

(** **** Termination *)

Lemma step_measure s s' : step s s' -> Part000.measure s' < Part000.measure s.
Proof.
  intros Hstep. inversion Hstep; subst; unfold Part000.measure; simpl.
  all: try match goal with
           | H : alive ?m |- _ => destruct m; simpl in H; try contradiction
           end.
  all: surgery.
  all: try match goal with H : gpc _ = _ |- _ => rewrite H in * end.
  all: simpl; try lia.
  all: destruct cl; lia.
Qed.

Lemma steps_measure k s s' :
  steps k s s' -> k + Part000.measure s' <= Part000.measure s.
Proof.
  induction 1 as [|k s s1 s2 Hs _ IH]; [lia|].
  apply step_measure in Hs. lia.
Qed.

Lemma steps_reachable k s s' : reachable s -> steps k s s' -> reachable s'.
Proof.
  intros Hr Hs. induction Hs; [assumption|].
  apply IHHs. econstructor; eassumption.
Qed.

(** **** Absence of deadlock *)

Lemma count_pick f (gs : list Goroutine) :
  0 < count f gs ->
  exists l1 g l2, gs = (l1 ++ g :: l2)%list /\ f (gpc g) = true.
Proof.
  induction gs as [|g gs IH]; simpl; [lia|].
  destruct (f (gpc g)) eqn:E.
  - intros _. exists [], g, gs. auto.
  - intros H. destruct IH as (l1 & g' & l2 & -> & Hf); [lia|].
    exists (g :: l1), g', l2. auto.
Qed.

Lemma count_unfinished (gs : list Goroutine) :
  count unfinished gs = count active gs + count (fun pc => match pc with GAcquire => true | _ => false end) gs.
Proof.
  induction gs as [|g gs IH]; simpl; [reflexivity|].
  rewrite IH. destruct (gpc g); simpl; lia.
Qed.

Lemma count_holds_active (gs : list Goroutine) :
  count holdsSlot gs <= count active gs.
Proof.
  induction gs as [|g gs IH]; simpl; [lia|]. destruct (gpc g); simpl; lia.
Qed.

Lemma progress s : Inv s -> final s \/ exists s', step s s'.
Proof.
  intros [Hi Hid Hwg Hsem Hb Hsent Hsend Hcl Hcd Hsu Hfa Hco Hex].
  destruct s as [m gs n sem res cl a]; simpl in *.
  destruct m as [[|info rest]| | |]; unfold final; simpl; auto.
  - right. eexists. apply step_watch.
  - right. eexists. apply step_go.
  - right. destruct res as [|r res]; [|eexists; apply step_receive].
    destruct cl; [congruence| |eexists; apply step_summary].
    destruct n as [|n]; [eexists; apply step_close|].
    rewrite count_unfinished in Hwg.
    destruct (count active gs) as [|k] eqn:Hact.
    + destruct (@count_pick (fun pc => match pc with GAcquire => true | _ => false end) gs)
        as (l1 & g & l2 & -> & Hg); [lia|].
      destruct (gpc g) eqn:Hpc; try discriminate.
      eexists. eapply step_acquire; simpl; auto.
      pose proof (count_holds_active (l1 ++ g :: l2)). simpl. lia.
    + destruct (@count_pick active gs) as (l1 & g & l2 & -> & Hg); [lia|].
      destruct (gpc g) eqn:Hpc; try discriminate.
      * destruct (checkConnectivity (background (probeWorld p (gid g)))
                    (ginfo g) DefaultConfig) as [[r|msg] tr] eqn:E.
        -- eexists. eapply step_probe; simpl; eauto.
        -- eexists. eapply step_panic; simpl; eauto.
      * eexists. eapply step_send; simpl; eauto.
        rewrite <- Hi, length_app, length_map, length_app. simpl. lia.
      * rewrite count_app in Hsem. simpl in Hsem. rewrite Hpc in Hsem.
        simpl in Hsem. destruct sem as [|sem]; [lia|].
        eexists. eapply step_release; simpl; eauto.
      * eexists. eapply step_done; simpl; eauto.
Qed.

(** **** The state in which [main] returns *)

Lemma outcomes_probes (gs : list Goroutine) : forall i,
  map gid gs = seq i (List.length gs) ->
  map (outcomeOf p) gs = probesFrom p i (map ginfo gs).
Proof.
  induction gs as [|g gs IH]; intros i H; simpl in *; [reflexivity|].
  injection H as Hg Hrest. rewrite (IH (S i) Hrest).
  unfold outcomeOf. rewrite Hg. reflexivity.
Qed.

Lemma all_delivered (gs : list Goroutine) :
  count unfinished gs = 0 ->
  deliveredBy p gs = map (outcomeOf p) gs
  /\ Forall (fun g => gpc g = GFinished) gs.
Proof.
  induction gs as [|g gs IH]; simpl; [auto|].
  destruct (gpc g) eqn:E; simpl; try lia.
  intros H. destruct (IH H) as [H1 H2]. rewrite H1. auto.
Qed.

Lemma closed_all_finished s :
  Inv s -> closer s = CClosed ->
  map ginfo (goroutines s) = infos
  /\ Forall (fun g => gpc g = GFinished) (goroutines s)
  /\ Permutation (map Returned (seen (agg s) ++ results s)) probes.
Proof.
  intros [Hi Hid Hwg Hsem Hb Hsent Hsend Hcl Hcd Hsu Hfa Hco Hex] Hc.
  destruct (Hcd Hc) as [Hz Hinfos]. rewrite Hz in Hwg. symmetry in Hwg.
  destruct (@all_delivered _ Hwg) as [Hd Hf].
  repeat split; auto.
  rewrite Hd, (@outcomes_probes _ _ Hid), Hinfos in Hsent. exact Hsent.
Qed.

Lemma probesFrom_length l : forall i, List.length (probesFrom p i l) = List.length l.
Proof. induction l as [|x l IH]; intros i; simpl; [|rewrite IH]; reflexivity. Qed.

Lemma successes_failures l : successes l + failures l = List.length l.
Proof.
  unfold successes, failures. induction l as [|r l IH]; simpl; [reflexivity|].
  destruct (IsSuccess r); simpl; lia.
Qed.

Lemma measure_start rest :
  mpc start = MDispatch rest ->
  Part000.measure start = 8 * List.length infos + 4.
Proof.
  intros H. rewrite (start_running H). unfold Part000.measure. simpl. lia.
Qed.

(** With the three attempts of [DefaultConfig()], a probe panics only if
    a lookup returns no address and no error. *)
Lemma probe_returns :
  (forall i host, net_LookupIP (probeWorld p i) host <> ([], None)) ->
  forall g, exists r, outcomeOf p g = Returned r.
Proof.
  intros Hl g. unfold outcomeOf, checkConnectivity.
  set (w := background (probeWorld p (gid g))).
  assert (Hloop : forall ip,
             exists r,
               fst (retryLoop w (ginfo g) DefaultConfig ip
                      (Z.to_nat (RetryCount DefaultConfig)) 0
                      (mkCheckResult (ginfo g) false "" (time_Now w) 0) None)
               = Returned r).
  { intros ip. apply retryLoop_returns. left. simpl. lia. }
  destruct (strings.Contains (ServerIP (ginfo g)) "."); cbn [negb].
  - apply Hloop.
  - specialize (Hl (gid g) (ServerIP (ginfo g))).
    change (net_LookupIP w) with (net_LookupIP (probeWorld p (gid g))).
    destruct (net_LookupIP (probeWorld p (gid g)) (ServerIP (ginfo g)))
      as [[|ip ips] [e|]]; try (eexists; reflexivity); [congruence|].
    destruct (Hloop ip) as [r Hr].
    destruct (retryLoop _ _ _ _ _ _ _ _) as [o tr]. cbn [fst] in *. eauto.
Qed.

Lemma never_panics rest :
  mpc start = MDispatch rest ->
  (forall i host, net_LookupIP (probeWorld p i) host <> ([], None)) ->
  forall s, reachable s -> forall msg, mpc s <> MPanic msg.
Proof.
  intros H Hl s Hr. induction Hr as [|s s' Hr IH Hstep].
  - rewrite (start_running H). discriminate.
  - inversion Hstep; subst; simpl in *; try discriminate;
      try (intros msg0; apply (IH msg0)).
    destruct (probe_returns Hl g) as [r Hg]. unfold outcomeOf in Hg.
    match goal with
    | E : checkConnectivity _ _ _ = _ |- _ => rewrite E in Hg
    end. discriminate.
Qed.

(** The summary that [main] prints, with its counters written out. *)
Lemma summary_text s :
  Inv s ->
  summary (agg s) =
  newline ++ "检查完成！" ++ newline
  ++ "总计: " ++ strconv.Itoa (Z.of_nat (List.length infos)) ++ newline
  ++ "成功: "
  ++ strconv.Itoa (Z.of_nat (successes (seen (agg s)))) ++ newline
  ++ "失败: "
  ++ strconv.Itoa (Z.of_nat (failures (seen (agg s)))) ++ newline
  ++ "总耗时: " ++ Duration_String (time_Since p) ++ newline
  ++ "结果已保存至: " ++ logFileName time_Format p.
Proof.
  intros HI. unfold Part000.summary.
  rewrite (inv_success HI), (inv_fail HI). reflexivity.
Qed.

(** A run that entered the dispatch loop, in a network whose lookups
    never come back empty without an error, is finite and can always take
    another step until [main] returns with status 0. *)
Lemma part000_completes rest :
  mpc start = MDispatch rest ->
  (forall i host, net_LookupIP (probeWorld p i) host <> ([], None)) ->
  forall k s, steps k start s ->
    k <= 8 * List.length infos + 4
    /\ ((exists s', step s s') \/ mpc s = MExit 0).
Proof.
  intros H Hl k s Hs.
  assert (Hr : reachable s) by (eapply steps_reachable; [constructor|eassumption]).
  pose proof (inv_reachable H Hr) as HI. split.
  - apply steps_measure in Hs. rewrite (measure_start H) in Hs. lia.
  - destruct (progress HI) as [Hf|Hp]; [|left; exact Hp].
    right. unfold final in Hf. destruct (mpc s) eqn:Em; try contradiction.
    + rewrite (inv_exit HI Em). reflexivity.
    + exfalso. eapply never_panics; eauto.
Qed.

(** The last line that such a run has printed when [main] returns is the
    summary. *)
Lemma part000_summary_last rest s status :
  mpc start = MDispatch rest -> reachable s -> mpc s = MExit status ->
  last (console (agg s)) "" = summary (agg s).
Proof.
  intros H Hr Em. pose proof (inv_reachable H Hr) as HI.
  rewrite (inv_console HI), Em.
  change (startLine (List.length infos) :: map formatResult (seen (agg s)) ++ [summary (agg s)])%list
    with ((startLine (List.length infos) :: map formatResult (seen (agg s))) ++ [summary (agg s)])%list.
  rewrite app_assoc. apply last_last.
Qed.

(** C1: a run of [main] that entered the dispatch loop, in a network
    whose lookups never come back empty without an error, takes finitely
    many steps, can always take another one until [main] returns, and
    returns with status 0 after the drain loop has received exactly the
    results of the probes of the input records, one each.  The last line
    it has printed is then the summary, whose total is the number of
    records and whose two counters are the numbers of successes and of
    failures among the results received, which add up to that total. *)
Theorem one_result_per_record rest :
  mpc start = MDispatch rest ->
  (forall i host, net_LookupIP (probeWorld p i) host <> ([], None)) ->
  forall k s, steps k start s ->
    k <= 8 * List.length infos + 4
    /\ ((exists s', step s s') \/ mpc s = MExit 0)
    /\ (mpc s = MExit 0 ->
        Permutation (map Returned (seen (agg s))) probes
        /\ List.length (seen (agg s)) = List.length infos
        /\ successCount (agg s) = Z.of_nat (successes (seen (agg s)))
        /\ failCount (agg s) = Z.of_nat (failures (seen (agg s)))
        /\ (successCount (agg s) + failCount (agg s))%Z
           = Z.of_nat (List.length infos)
        /\ successes (seen (agg s)) + failures (seen (agg s))
           = List.length infos
        /\ last (console (agg s)) "" =
           newline ++ "检查完成！" ++ newline
           ++ "总计: " ++ strconv.Itoa (Z.of_nat (List.length infos)) ++ newline
           ++ "成功: "
           ++ strconv.Itoa (Z.of_nat (successes (seen (agg s)))) ++ newline
           ++ "失败: "
           ++ strconv.Itoa (Z.of_nat (failures (seen (agg s)))) ++ newline
           ++ "总耗时: " ++ Duration_String (time_Since p) ++ newline
           ++ "结果已保存至: " ++ logFileName time_Format p).
Proof.
  intros H Hl k s Hs.
  assert (Hr : reachable s) by (eapply steps_reachable; [constructor|eassumption]).
  pose proof (inv_reachable H Hr) as HI.
  destruct (part000_completes H Hl Hs) as [Hk Hp].
  split; [exact Hk|]. split; [exact Hp|].
  intros Em. pose proof (inv_closer HI) as Hc. rewrite Em in Hc.
  destruct Hc as [Hc Hres].
  destruct (closed_all_finished HI Hc) as (_ & _ & HP).
  rewrite Hres, app_nil_r in HP.
  assert (Hlen : List.length (seen (agg s)) = List.length infos).
  { apply Permutation_length in HP. rewrite length_map in HP.
    rewrite HP. apply probesFrom_length. }
  split; [exact HP|]. split; [exact Hlen|].
  split; [exact (inv_success HI)|]. split; [exact (inv_fail HI)|].
  split; [|split].
  - rewrite (inv_success HI), (inv_fail HI), <- Hlen, <- successes_failures.
    lia.
  - rewrite <- Hlen. apply successes_failures.
  - rewrite (part000_summary_last H Hr Em). apply summary_text. exact HI.
Qed.

(** In every state of a run of part_000, the goroutines between their
    acquire and their release, and so those with a probe in flight, are
    at most [ConcurrentLimit]; [results] is closed only once every record
    has its goroutine and every goroutine has finished; and the run is
    finite and never stuck, and when the drain loop ends on the closed
    channel it has received the result of every probe. *)
Lemma part000_slots_and_close rest :
  mpc start = MDispatch rest ->
  forall k s, steps k start s ->
    (count probing (goroutines s) <= count holdsSlot (goroutines s)
     /\ (Z.of_nat (count holdsSlot (goroutines s))
         <= ConcurrentLimit DefaultConfig)%Z)
    /\ (closer s = CClosed ->
        map ginfo (goroutines s) = infos
        /\ Forall (fun g => gpc g = GFinished) (goroutines s))
    /\ k <= 8 * List.length infos + 4
    /\ (final s \/ exists s', step s s')
    /\ (forall status, mpc s = MExit status ->
        closer s = CClosed /\ results s = []
        /\ Permutation (map Returned (seen (agg s))) probes).
Proof.
  intros H k s Hs.
  assert (Hr : reachable s) by (eapply steps_reachable; [constructor|eassumption]).
  pose proof (inv_reachable H Hr) as HI.
  split; [|split; [|split; [|split]]].
  - split.
    + clear. induction (goroutines s) as [|g gs IH]; simpl; [lia|].
      destruct (gpc g); simpl; lia.
    + rewrite <- (inv_sem HI). apply (inv_bound HI).
  - intros Hc. destruct (closed_all_finished HI Hc) as (H1 & H2 & _). auto.
  - apply steps_measure in Hs. rewrite (measure_start H) in Hs. lia.
  - apply (progress HI).
  - intros status Em. pose proof (inv_closer HI) as Hc. rewrite Em in Hc.
    destruct Hc as [Hc Hres]. repeat split; auto.
    destruct (closed_all_finished HI Hc) as (_ & _ & HP).
    rewrite Hres, app_nil_r in HP. exact HP.
Qed.

End Run000.

(** ** The run of checkip3.go *)

Section Run3.

Import Checkip3.

Variable parseServerInfo : FileSystem -> string -> list ServerInfo * option error.
Variable probeLine : nat -> ServerInfo -> string.
Variable time_Format : Z -> string -> string.
Variable p : Process.

Local Abbreviation step := (Checkip3.step probeLine p).
Local Abbreviation reachable := (Checkip3.reachable parseServerInfo probeLine time_Format p).
Local Abbreviation steps := (Checkip3.steps probeLine p).
Local Abbreviation infos := (Checkip3.serverInfos parseServerInfo p).
Local Abbreviation start := (Checkip3.start parseServerInfo time_Format p).
Local Abbreviation lines := (linesFrom probeLine 0 infos).
Local Abbreviation deliveredBy := (Checkip3.deliveredBy probeLine).
Local Abbreviation lineOf := (Checkip3.lineOf probeLine).
Local Abbreviation Inv3 := (Checkip3.Inv3 parseServerInfo probeLine p).

Lemma count3_app f (a b : list Goroutine) :
  count f (a ++ b) = count f a + count f b.
Proof. induction a as [|g a IH]; simpl; [reflexivity | rewrite IH; lia]. Qed.

Lemma ranks3_app (a b : list Goroutine) : ranks (a ++ b) = ranks a + ranks b.
Proof. induction a as [|g a IH]; simpl; [reflexivity | rewrite IH; lia]. Qed.

Lemma deliveredBy3_app (a b : list Goroutine) :
  deliveredBy (a ++ b) = (deliveredBy a ++ deliveredBy b)%list.
Proof. apply flat_map_app. Qed.

Lemma start3_running rest :
  mpc start = MAdd rest ->
  start = mkState (MAdd infos) [] 0 0 CNotStarted (mkAggregator [] [] 0 []).
Proof.
  unfold Checkip3.start, serverInfos.
  destruct (List.length (os_Args p) <? 2)%nat; [discriminate|].
  destruct (parseAllConfigFiles parseServerInfo (files p) (nth 1 (os_Args p) ""))
    as [l [e|]]; [discriminate|].
  destruct (os_Create p _); [discriminate|]. reflexivity.
Qed.

Lemma inv3_start rest : mpc start = MAdd rest -> Inv3 start.
Proof.
  intros H. rewrite (start3_running H).
  constructor; simpl; auto; try lia; try discriminate.
Qed.

Ltac surgery3 :=
  repeat rewrite ?map_app, ?count3_app, ?ranks3_app, ?deliveredBy3_app,
                 ?length_app in *;
  simpl in *.

Lemma sent3_step (X : list string) line g pc D1 D2 :
  Permutation X (D1 ++ D2) ->
  line = lineOf g ->
  Permutation (X ++ [line]) (D1 ++ lineOf (setPC pc g) :: D2).
Proof.
  intros HP ->. change (lineOf (setPC pc g)) with (lineOf g).
  apply Permutation_trans with (lineOf g :: X)%list.
  - apply Permutation_sym, Permutation_cons_append.
  - apply Permutation_cons_app. exact HP.
Qed.

Ltac forall_surgery3 :=
  match goal with
  | H : Forall _ (_ ++ _ :: _) |- Forall _ (_ ++ _ :: _) =>
      apply Forall_app in H; destruct H as [? H];
      inversion H; subst; clear H;
      apply Forall_app; split; [assumption|];
      constructor; [|assumption]
  end.

Lemma inv3_step s s' : Inv3 s -> step s s' -> Inv3 s'.
Proof.
  intros [Hi Hid Hwg Hsem Hb Hsent Hsend Hcl Hcd Hex] Hstep.
  inversion Hstep; subst; simpl in *.
  all: try match goal with
           | H : alive ?m |- _ => destruct m; simpl in H; try contradiction
           end.
  all: try (unfold drainBody in *;
            match goal with
            | |- context [logFile_Write ?q ?n ?l] =>
                destruct (logFile_Write q n l)
            end).
  all: constructor; simpl.
  all: surgery3.
  all: try match goal with H : gpc _ = _ |- _ => rewrite H in * end.
  all: simpl in *.
  all: try lia.
  all: try assumption.
  all: try discriminate.
  all: try (intro; discriminate).
  all: try (intros Hc; specialize (Hcd Hc); congruence).
  all: try (rewrite <- app_assoc; assumption).
  all: try (rewrite app_nil_r; assumption).
  all: try (forall_surgery3; simpl; intros; try discriminate).
  all: try (intros ? Hs; inversion Hs; split; [reflexivity|]; left; reflexivity).
  all: try (rewrite app_nil_r in *; assumption).
  all: try (inversion H; subst; reflexivity).
  all: try match goal with
           | |- Permutation (_ ++ [_]) (_ ++ _ :: _) =>
               apply sent3_step; [assumption|];
               apply Forall_app in Hsend; destruct Hsend as [_ Hs];
               inversion Hs; subst; auto
           end.
  - rewrite Nat.add_1_r, seq_S, Hid. reflexivity.
  - apply Forall_app. split; [assumption|].
    constructor; [|constructor]. simpl. discriminate.
  - match goal with H : GSend _ = GSend _ |- _ => inversion H; subst end.
    reflexivity.
  - match goal with H : GSend _ = GSend _ |- _ => inversion H; subst end.
    reflexivity.
  - match goal with H : GSend _ = GSend _ |- _ => inversion H; subst end.
    reflexivity.
  - intros status Hs. inversion Hs. split; [reflexivity|]. right.
    eexists.
    change (console a ++ [line; writeFailed e])%list
      with (console a ++ [line] ++ [writeFailed e])%list.
    rewrite app_assoc. apply last_last.
Qed.

Lemma inv3_reachable rest s :
  mpc start = MAdd rest -> reachable s -> Inv3 s.
Proof.
  intros H Hr. induction Hr; [exact (inv3_start H) | eauto using inv3_step].
Qed.

Lemma step3_measure s s' : step s s' -> Checkip3.measure s' < Checkip3.measure s.
Proof.
  intros Hstep. inversion Hstep; subst; unfold Checkip3.measure; simpl.
  all: try match goal with
           | H : alive ?m |- _ => destruct m; simpl in H; try contradiction
           end.
  all: surgery3.
  all: try match goal with H : gpc _ = _ |- _ => rewrite H in * end.
  all: simpl; try lia.
  all: try (destruct cl; lia).
  all: destruct (snd (drainBody p a line)); destruct cl; simpl; lia.
Qed.

Lemma steps3_measure k s s' :
  steps k s s' -> k + Checkip3.measure s' <= Checkip3.measure s.
Proof.
  induction 1 as [|k s s1 s2 Hs _ IH]; [lia|].
  apply step3_measure in Hs. lia.
Qed.

Lemma steps3_reachable k s s' : reachable s -> steps k s s' -> reachable s'.
Proof.
  intros Hr Hs. induction Hs; [assumption|].
  apply IHHs. econstructor; eassumption.
Qed.

Lemma lines_of (gs : list Goroutine) : forall i,
  map gid gs = seq i (List.length gs) ->
  map lineOf gs = linesFrom probeLine i (map ginfo gs).
Proof.
  induction gs as [|g gs IH]; intros i H; simpl in *; [reflexivity|].
  injection H as Hg Hrest. rewrite (IH (S i) Hrest).
  unfold Checkip3.lineOf. rewrite Hg. reflexivity.
Qed.

Lemma all_delivered3 (gs : list Goroutine) :
  count unfinished gs = 0 ->
  deliveredBy gs = map lineOf gs
  /\ Forall (fun g => gpc g = GFinished) gs.
Proof.
  induction gs as [|g gs IH]; simpl; [auto|].
  destruct (gpc g) eqn:E; simpl; try lia.
  intros H. destruct (IH H) as [H1 H2]. rewrite H1. auto.
Qed.

(** In checkip3.go too the slots are bounded and [results] is closed
    only after every goroutine has finished, at which point the drain
    loop has received every line. *)
Lemma checkip3_slots_and_close rest s :
  mpc start = MAdd rest -> reachable s ->
  count holdsSlot (goroutines s) <= concurrentLimit
  /\ (closer s = CClosed ->
      map ginfo (goroutines s) = infos
      /\ Forall (fun g => gpc g = GFinished) (goroutines s)
      /\ Permutation (seen (agg s)) lines)
  /\ (forall status, mpc s = MExit status ->
      status = 0%Z
      /\ (closer s = CClosed
          \/ exists err, last (console (agg s)) "" = writeFailed err)).
Proof.
  intros H Hr. pose proof (inv3_reachable H Hr) as HI.
  destruct HI as [Hi Hid Hwg Hsem Hb Hsent Hsend Hcl Hcd Hex].
  split; [rewrite <- Hsem; exact Hb|]. split; [|exact Hex].
  intros Hc. specialize (Hcd Hc). rewrite Hcd in Hwg.
  assert (Hm : todo (mpc s) = []).
  { destruct (mpc s); simpl in *; try congruence; lia. }
  rewrite Hm, app_nil_r in Hi.
  destruct (@all_delivered3 (goroutines s)) as [Hd Hf]; [lia|].
  repeat split; auto.
  rewrite Hd, (@lines_of _ _ Hid), Hi in Hsent. exact Hsent.
Qed.

(** With more records than slots the dispatch loop of checkip3.go never
    ends: the first ten goroutines keep their slots while they wait for
    a receiver on the unbuffered [results], and the only receiver is the
    drain loop that follows the dispatch loop. *)
Lemma checkip3_dispatch_blocks rest :
  mpc start = MAdd rest ->
  concurrentLimit < List.length infos ->
  forall s, reachable s ->
    match mpc s with MAdd (_ :: _) | MAcquire _ _ => True | _ => False end
    /\ count blocked (goroutines s) = List.length (goroutines s)
    /\ seen (agg s) = [].
Proof.
  intros H Hn s Hr.
  assert (Hlen : List.length (goroutines s) + List.length (todo (mpc s))
                 = List.length infos).
  { rewrite <- (inv3_infos (inv3_reachable H Hr)), length_app, length_map.
    reflexivity. }
  pose proof (inv3_sem (inv3_reachable H Hr)) as Hsem.
  pose proof (inv3_bound (inv3_reachable H Hr)) as Hb.
  revert Hlen Hsem Hb.
  induction Hr as [|s s' Hr IH Hstep]; intros Hlen Hsem Hb.
  - rewrite (start3_running H) in *. simpl in *.
    destruct infos; simpl in *; [lia|auto].
  - pose proof (inv3_reachable H Hr) as HI.
    assert (Hlen0 : List.length (goroutines s) + List.length (todo (mpc s))
                    = List.length infos).
    { rewrite <- (inv3_infos HI), length_app, length_map. reflexivity. }
    specialize (IH Hlen0 (inv3_sem HI) (inv3_bound HI)).
    destruct IH as (Hm & Hbl & Hseen).
    assert (Hhb : forall gs, count holdsSlot gs <= List.length gs).
    { induction gs as [|g0 gs IHgs]; simpl; [lia|].
      destruct (holdsSlot (gpc g0)); lia. }
    assert (Hbh : forall gs, count blocked gs = List.length gs ->
                             count holdsSlot gs = List.length gs).
    { induction gs as [|g0 gs IHgs]; simpl; [lia|].
      assert (count blocked gs <= List.length gs).
      { clear. induction gs as [|g1 gs IH1]; simpl; [lia|].
        destruct (blocked (gpc g1)); lia. }
      destruct (gpc g0); simpl; intros; try lia; rewrite IHgs; lia. }
    inversion Hstep; subst; simpl in *; try contradiction.
    all: surgery3.
    all: try match goal with H : gpc _ = _ |- _ => rewrite H in * end.
    all: simpl in *.
    all: try (repeat split; auto; lia).
    repeat split; auto; try lia.
    destruct rest0; [|exact I].
    simpl in *. specialize (Hbh _ Hbl). unfold concurrentLimit in *. lia.
Qed.

(** Such a run is finite, so it ends blocked in the dispatch loop. *)
Lemma checkip3_dispatch_never_ends rest k s :
  mpc start = MAdd rest ->
  concurrentLimit < List.length infos ->
  steps k start s ->
  k <= 6 * List.length infos + 4
  /\ mpc s <> MDrain
  /\ (forall status, mpc s <> MExit status)
  /\ seen (agg s) = [].
Proof.
  intros H Hn Hs.
  assert (Hr : reachable s)
    by (eapply steps3_reachable; [constructor|eassumption]).
  destruct (checkip3_dispatch_blocks H Hn Hr) as (Hm & _ & Hseen).
  apply steps3_measure in Hs. rewrite (start3_running H) in Hs.
  unfold Checkip3.measure in Hs. simpl in Hs.
  repeat split; try assumption; try lia.
  - intros E. rewrite E in Hm. exact Hm.
  - intros status E. rewrite E in Hm. exact Hm.
Qed.

End Run3.

(** ** The configuration loaders *)

Section Loaders.

Variable filepath_Join : string -> string -> string.
Variable parseServerInfo3 : FileSystem -> string -> list ServerInfo * option error.
Variable fs : FileSystem.
Variable folderPath : string.

Local Abbreviation confPaths := (Spec.confPaths filepath_Join folderPath).
Local Abbreviation confPaths3 := (Spec.confPaths3 folderPath).

Lemma isConf_skip e :
  IsDir e || negb (strings.HasSuffix (Name e) ".conf") = negb (Spec.isConf e).
Proof.
  unfold Spec.isConf. destruct (IsDir e), (strings.HasSuffix (Name e) ".conf");
    reflexivity.
Qed.

Lemma entriesLoop_spec entries : forall acc,
  Part000.entriesLoop filepath_Join fs folderPath entries acc =
  ((acc ++ Spec.validRecords (Part000.parseServerInfo fs) (confPaths entries))%list,
   map (fun pe => Part000.warning (fst pe) (snd pe))
     (Spec.failedFiles (Part000.parseServerInfo fs) (confPaths entries))).
Proof.
  unfold Spec.confPaths.
  induction entries as [|e entries IH]; intros acc; simpl.
  - rewrite app_nil_r. reflexivity.
  - rewrite isConf_skip. destruct (Spec.isConf e); simpl; [|apply IH].
    destruct (Part000.parseServerInfo fs (filepath_Join folderPath (Name e)))
      as [infos [err|]]; simpl.
    + rewrite IH. reflexivity.
    + rewrite IH, <- app_assoc. reflexivity.
Qed.

(** What part_000's loader returns and prints. *)
Lemma part000_loader :
  Part000.parseAllConfigFiles filepath_Join fs folderPath =
  match os_ReadDir fs folderPath with
  | (_, Some err) =>
      ([], Some ("读取目录失败 " ++ folderPath ++ ": " ++ err), [])
  | (entries, None) =>
      let valid :=
        Spec.validRecords (Part000.parseServerInfo fs) (confPaths entries) in
      let failed :=
        Spec.failedFiles (Part000.parseServerInfo fs) (confPaths entries) in
      (valid,
       match valid with
       | [] => Some ("未在目录 " ++ folderPath ++ " 中找到有效的配置")
       | _ => None
       end,
       map (fun pe => Part000.warning (fst pe) (snd pe)) failed)
  end.
Proof.
  unfold Part000.parseAllConfigFiles.
  destruct (os_ReadDir fs folderPath) as [entries [err|]]; [reflexivity|].
  rewrite entriesLoop_spec. simpl.
  destruct (Spec.validRecords _ _); reflexivity.
Qed.

Lemma entriesLoop3_spec entries : forall acc,
  Checkip3.entriesLoop parseServerInfo3 fs folderPath entries acc =
  match Spec.failedFiles (parseServerInfo3 fs) (confPaths3 entries) with
  | (path, err) :: _ =>
      ([], Some ("error parsing file " ++ path ++ ": " ++ err))
  | [] =>
      ((acc ++ Spec.validRecords (parseServerInfo3 fs) (confPaths3 entries))%list,
       None)
  end.
Proof.
  unfold Spec.confPaths3.
  induction entries as [|e entries IH]; intros acc; simpl.
  - rewrite app_nil_r. reflexivity.
  - rewrite isConf_skip. destruct (Spec.isConf e); simpl; [|apply IH].
    destruct (parseServerInfo3 fs _) as [infos [err|]]; simpl; [reflexivity|].
    rewrite IH.
    destruct (Spec.failedFiles _ _) as [|[path err] rest]; [|reflexivity].
    rewrite <- app_assoc. reflexivity.
Qed.

(** What checkip3.go's loader returns. *)
Lemma checkip3_loader :
  Checkip3.parseAllConfigFiles parseServerInfo3 fs folderPath =
  match os_ReadDir fs folderPath with
  | (_, Some err) => ([], Some ("failed to read directory: " ++ err))
  | (entries, None) =>
      match Spec.failedFiles (parseServerInfo3 fs) (confPaths3 entries) with
      | (path, err) :: _ =>
          ([], Some ("error parsing file " ++ path ++ ": " ++ err))
      | [] =>
          (Spec.validRecords (parseServerInfo3 fs) (confPaths3 entries), None)
      end
  end.
Proof.
  unfold Checkip3.parseAllConfigFiles.
  destruct (os_ReadDir fs folderPath) as [entries [err|]]; [reflexivity|].
  apply entriesLoop3_spec.
Qed.

(** C8 (as the code has it): the loader of part_000 skips every config
    file that fails to parse, printing one warning for it, returns the
    records of all the files that parse, in directory order, and fails
    only when the directory cannot be read or no valid record is found;
    the loader of checkip3.go returns the error of the first config file
    that fails, with no record, and returns an empty list without error
    when the files hold no record. *)
Theorem loaders_on_failing_files :
  (forall entries,
     os_ReadDir fs folderPath = (entries, None) ->
     let valid :=
       Spec.validRecords (Part000.parseServerInfo fs) (confPaths entries) in
     let result := Part000.parseAllConfigFiles filepath_Join fs folderPath in
     fst (fst result) = valid
     /\ (snd (fst result) = None <-> valid <> [])
     /\ snd result =
        map (fun pe => Part000.warning (fst pe) (snd pe))
          (Spec.failedFiles (Part000.parseServerInfo fs) (confPaths entries)))
  /\ (forall err,
        snd (os_ReadDir fs folderPath) = Some err ->
        snd (fst (Part000.parseAllConfigFiles filepath_Join fs folderPath))
          <> None
        /\ snd (Checkip3.parseAllConfigFiles parseServerInfo3 fs folderPath)
          <> None)
  /\ (forall entries,
        os_ReadDir fs folderPath = (entries, None) ->
        Checkip3.parseAllConfigFiles parseServerInfo3 fs folderPath =
        match Spec.failedFiles (parseServerInfo3 fs) (confPaths3 entries) with
        | (path, err) :: _ =>
            ([], Some ("error parsing file " ++ path ++ ": " ++ err))
        | [] =>
            (Spec.validRecords (parseServerInfo3 fs) (confPaths3 entries),
             None)
        end).
Proof.
  split; [|split].
  - intros entries H. rewrite part000_loader, H. simpl.
    split; [reflexivity|]. split; [|reflexivity].
    destruct (Spec.validRecords _ _); split; intros; try discriminate;
      try reflexivity; try (exfalso; auto; fail).
  - intros err H. rewrite part000_loader, checkip3_loader.
    destruct (os_ReadDir fs folderPath) as [entries [e|]]; simpl in *;
      [split; discriminate | discriminate].
  - intros entries H. rewrite checkip3_loader, H. reflexivity.
Qed.

End Loaders.

(** ** The sinks *)

Section Sinks.

Variable time_Format : Z -> string -> string.
Variable Duration_String : Z -> string.

Local Abbreviation formatResult := (Part000.formatResult time_Format Duration_String).
Local Abbreviation drain := (Part000.drain time_Format Duration_String).
Local Abbreviation drainBody := (Part000.drainBody time_Format Duration_String).

(** The drain loop of part_000 prints and counts every result it
    receives, whatever the writes to the log file return. *)
Lemma part000_drain (p : Part000.Process) received : forall a,
  Part000.console (drain p a received)
    = (Part000.console a ++ map formatResult received)%list
  /\ Part000.seen (drain p a received) = (Part000.seen a ++ received)%list
  /\ Part000.successCount (drain p a received)
     = (Part000.successCount a + Z.of_nat (Part000.successes received))%Z
  /\ Part000.failCount (drain p a received)
     = (Part000.failCount a + Z.of_nat (Part000.failures received))%Z
  /\ Part000.writes (drain p a received)
     = Part000.writes a + List.length received.
Proof.
  induction received as [|r received IH]; intros a.
  - unfold Part000.drain, Part000.successes, Part000.failures. simpl.
    rewrite !app_nil_r. repeat split; lia.
  - unfold Part000.drain in *. cbn [fold_left].
    destruct (IH (drainBody p a r)) as (H1 & H2 & H3 & H4 & H5).
    rewrite H1, H2, H3, H4, H5. unfold Part000.successes, Part000.failures.
    simpl. rewrite <- !app_assoc. simpl.
    repeat split; try lia; destruct (Part000.IsSuccess r); simpl; lia.
Qed.

(** The log file of part_000 receives the lines whose write succeeds. *)
Lemma part000_drain_log (p : Part000.Process) received : forall a,
  (forall i, i < List.length received ->
     Part000.logFile_Write p (Part000.writes a + i)
       (formatResult (nth i received (Part000.mkCheckResult zeroServerInfo false "" 0 0)))
     = None) ->
  Part000.logFile (drain p a received)
    = (Part000.logFile a ++ map formatResult received)%list.
Proof.
  induction received as [|r received IH]; intros a H.
  - unfold Part000.drain. simpl. rewrite app_nil_r. reflexivity.
  - unfold Part000.drain in *. cbn [fold_left]. rewrite IH.
    + simpl. unfold Part000.logLine.
      specialize (H 0). simpl in H. rewrite Nat.add_0_r in H.
      rewrite H by lia. rewrite <- app_assoc. reflexivity.
    + intros i Hi. simpl. specialize (H (S i)). simpl in H.
      rewrite Nat.add_succ_r in H. apply H. lia.
Qed.

(** The drain loop of checkip3.go while the writes succeed. *)
Lemma checkip3_drain_ok (p : Checkip3.Process) received : forall a,
  (forall i, i < List.length received ->
     Checkip3.logFile_Write p (Checkip3.writes a + i) (nth i received "")
     = None) ->
  Checkip3.drain p a received =
  Checkip3.mkAggregator (Checkip3.console a ++ received)
    (Checkip3.logFile a ++ received)
    (Checkip3.writes a + List.length received)
    (Checkip3.seen a ++ received).
Proof.
  induction received as [|r received IH]; intros a H.
  - simpl. rewrite !app_nil_r, Nat.add_0_r. destruct a; reflexivity.
  - cbn [Checkip3.drain]. unfold Checkip3.drainBody.
    pose proof (H 0) as H0. simpl in H0. rewrite Nat.add_0_r in H0.
    rewrite H0 by lia. rewrite IH.
    + simpl. rewrite <- !app_assoc. simpl. f_equal. lia.
    + intros i Hi. simpl. specialize (H (S i)). simpl in H.
      rewrite Nat.add_succ_r in H. apply H. lia.
Qed.

(** The drain loop of checkip3.go at the first write that fails: the
    line and the error are printed, and the loop returns without the
    lines that follow. *)
Lemma checkip3_drain_fails (p : Checkip3.Process) before line after a err :
  (forall i, i < List.length before ->
     Checkip3.logFile_Write p (Checkip3.writes a + i) (nth i before "")
     = None) ->
  Checkip3.logFile_Write p (Checkip3.writes a + List.length before) line
    = Some err ->
  Checkip3.drain p a (before ++ line :: after) =
  Checkip3.mkAggregator
    (Checkip3.console a ++ before ++ [line; Checkip3.writeFailed err])
    (Checkip3.logFile a ++ before)
    (S (Checkip3.writes a + List.length before))
    (Checkip3.seen a ++ before ++ [line]).
Proof.
  revert a. induction before as [|r before IH]; intros a H He.
  - simpl in *. rewrite Nat.add_0_r in *. unfold Checkip3.drainBody.
    rewrite He. rewrite app_nil_r. reflexivity.
  - cbn [app Checkip3.drain]. unfold Checkip3.drainBody.
    pose proof (H 0) as H0. simpl in H0. rewrite Nat.add_0_r in H0.
    rewrite H0 by lia. rewrite IH.
    + simpl. rewrite <- !app_assoc. simpl. f_equal. lia.
    + intros i Hi. simpl. specialize (H (S i)). simpl in H.
      rewrite Nat.add_succ_r in H. apply H. lia.
    + simpl. simpl in He. rewrite Nat.add_succ_r in He. exact He.
Qed.

(** In a run of part_000 the aggregator is the drain loop applied to the
    results received so far, followed at the exit by the summary. *)
Lemma part000_run_drains filepath_Join (p : Part000.Process) rest s :
  Part000.mpc (Part000.start filepath_Join time_Format p)
    = Part000.MDispatch rest ->
  Part000.reachable filepath_Join time_Format Duration_String p s ->
  Part000.agg s =
  (match Part000.mpc s with
   | Part000.MExit _ =>
       Part000.summarize filepath_Join time_Format Duration_String p
   | _ => fun a => a
   end)
    (drain p (Part000.agg (Part000.start filepath_Join time_Format p))
       (Part000.seen (Part000.agg s))).
Proof.
  intros H Hr. induction Hr as [|s s' Hr IH Hstep].
  - rewrite (start_running _ _ _ H). reflexivity.
  - inversion Hstep; subst; simpl in *;
      try match goal with
          | Ha : Part000.alive ?m |- _ =>
              destruct m; simpl in Ha; try contradiction
          end; try exact IH.
    + unfold Part000.drain in *. rewrite fold_left_app. simpl.
      rewrite <- IH. reflexivity.
    + rewrite <- IH. reflexivity.
Qed.

(** C7 (as the code has it): when a write to the log file fails, the
    drain loop of part_000 drops the error, prints nothing about it and
    goes on to print and count every result it receives; the drain loop
    of checkip3.go prints the line and the error and returns from [main]
    at once, so that the lines after it are neither printed nor logged. *)
Theorem write_failure_handling (p : Part000.Process) (p3 : Checkip3.Process) :
  (forall received a,
     Part000.console (drain p a received)
       = (Part000.console a ++ map formatResult received)%list
     /\ Part000.seen (drain p a received) = (Part000.seen a ++ received)%list
     /\ Part000.successCount (drain p a received)
        = (Part000.successCount a + Z.of_nat (Part000.successes received))%Z
     /\ Part000.failCount (drain p a received)
        = (Part000.failCount a + Z.of_nat (Part000.failures received))%Z)
  /\ (forall before line after a err,
        (forall i, i < List.length before ->
           Checkip3.logFile_Write p3 (Checkip3.writes a + i) (nth i before "")
           = None) ->
        Checkip3.logFile_Write p3 (Checkip3.writes a + List.length before) line
          = Some err ->
        Checkip3.console (Checkip3.drain p3 a (before ++ line :: after))
          = (Checkip3.console a ++ before
             ++ [line; Checkip3.writeFailed err])%list
        /\ Checkip3.seen (Checkip3.drain p3 a (before ++ line :: after))
          = (Checkip3.seen a ++ before ++ [line])%list
        /\ Checkip3.logFile (Checkip3.drain p3 a (before ++ line :: after))
          = (Checkip3.logFile a ++ before)%list).
Proof.
  split.
  - intros received a.
    destruct (@part000_drain p received a) as (H1 & H2 & H3 & H4 & _). auto.
  - intros before line after a err H He.
    rewrite (@checkip3_drain_fails p3 before line after a err H He). auto.
Qed.

End Sinks.

(** ** More on the probe of part_000 *)

Section ProbePaths.

Import Part000.

Variable w : World.
Variable info : ServerInfo.
Variable config : Config.

Lemma selects_app (a b : list Event) : selects (a ++ b) = selects a + selects b.
Proof. unfold selects. rewrite filter_app, length_app. reflexivity. Qed.

Lemma closes_app (a b : list Event) : closes (a ++ b) = closes a + closes b.
Proof. unfold closes. rewrite filter_app, length_app. reflexivity. Qed.

Lemma connections_app (a b : list Event) :
  connections (a ++ b) = connections a + connections b.
Proof. unfold connections. rewrite filter_app, length_app. reflexivity. Qed.

Ltac loop_step IH i result :=
  cbn [retryLoop];
  destruct ((0 <? i)%nat && ctx_Done w i) eqn:Hc;
  [ apply andb_prop in Hc; destruct Hc as [Hi _]
  | destruct (net_DialTimeout w i (hostPort _ (ServerPort info))
                (Timeout config)) as [elapsed [e|]];
    [ specialize (IH (S i) (setDuration elapsed result) (Some e));
      destruct (retryLoop w info config _ _ (S i)
                  (setDuration elapsed result) (Some e)) as [o' tr'];
      cbn [fst snd] in *
    | cbn [fst snd] ] ].

(** Every connection the retry loop establishes is closed, and it
    establishes at most one. *)
Lemma retryLoop_closes ip n : forall i result lastErr,
  let tr := snd (retryLoop w info config ip n i result lastErr) in
  connections tr = closes tr /\ closes tr <= 1.
Proof.
  induction n as [|n IH]; intros i result lastErr.
  - simpl. destruct lastErr; simpl; auto.
  - loop_step IH i result.
    + simpl. auto.
    + rewrite connections_app, closes_app.
      destruct (0 <? i)%nat; unfold connections, closes in *; simpl in *; lia.
    + rewrite connections_app, closes_app.
      destruct (0 <? i)%nat; unfold connections, closes; simpl; lia.
Qed.

(** The retry loop waits only between two iterations: entered at index 0
    it waits at most as often as it dials. *)
Lemma retryLoop_waits ip n : forall i result lastErr,
  let tr := snd (retryLoop w info config ip n i result lastErr) in
  selects tr <= dials tr + (if (0 <? i)%nat then 1 else 0).
Proof.
  induction n as [|n IH]; intros i result lastErr.
  - simpl. destruct lastErr; simpl; unfold selects, dials; simpl; lia.
  - loop_step IH i result.
    + rewrite Hi. unfold selects, dials; simpl; lia.
    + rewrite selects_app, dials_app. change (0 <? S i)%nat with true in IH.
      destruct (0 <? i)%nat; unfold selects, dials in *; simpl in *; lia.
    + rewrite selects_app, dials_app.
      destruct (0 <? i)%nat; unfold selects, dials; simpl; lia.
Qed.

(** A result the retry loop returns is the one it was given but for
    [Duration], [Error] and [IsSuccess]; it is a success exactly when a
    connection was closed, and then it carries the error text it had. *)
Lemma retryLoop_result ip n : forall i result lastErr r tr,
  retryLoop w info config ip n i result lastErr = (Returned r, tr) ->
  IsSuccess result = false ->
  Info r = Info result /\ CheckTime r = CheckTime result
  /\ closes tr = (if IsSuccess r then 1 else 0)
  /\ (IsSuccess r = true -> Error r = Error result).
Proof.
  induction n as [|n IH]; intros i result lastErr r tr H Hs.
  - simpl in H. destruct lastErr; inversion H; subst; simpl.
    rewrite Hs. repeat split. discriminate.
  - revert H. loop_step IH i result; intros H; inversion H; subst; clear H.
    + simpl. rewrite Hs. repeat split. discriminate.
    + destruct (IH r tr' eq_refl Hs) as (H1 & H2 & H3 & H4).
      rewrite closes_app. repeat split; auto.
      destruct (0 <? i)%nat; unfold closes in *; simpl in *; lia.
    + rewrite closes_app. simpl.
      destruct (0 <? i)%nat; unfold closes; simpl; repeat split.
Qed.

(** [k] failing iterations from index [i] on, none of them cancelled:
    the loop goes on at index [i + k] with the time and the error of the
    last of them. *)
Lemma retryLoop_prefix ip k : forall n i result lastErr,
  (forall j, i <= j < i + k ->
     (0 <? j)%nat && ctx_Done w j = false
     /\ snd (net_DialTimeout w j (hostPort ip (ServerPort info))
               (Timeout config)) <> None) ->
  exists d lastErr',
    retryLoop w info config ip (k + n) i result lastErr =
    (fst (retryLoop w info config ip n (i + k)
            (setDuration d result) lastErr'),
     (attempts w config (hostPort ip (ServerPort info)) i k
      ++ snd (retryLoop w info config ip n (i + k)
                (setDuration d result) lastErr'))%list)
    /\ (k = 0 -> d = Duration result /\ lastErr' = lastErr)
    /\ (0 < k ->
        d = fst (net_DialTimeout w (i + k - 1)
                   (hostPort ip (ServerPort info)) (Timeout config))
        /\ lastErr' = snd (net_DialTimeout w (i + k - 1)
                             (hostPort ip (ServerPort info)) (Timeout config))).
Proof.
  induction k as [|k IH]; intros n i result lastErr H.
  - exists (Duration result), lastErr. rewrite Nat.add_0_r. simpl.
    replace (setDuration (Duration result) result) with result
      by (destruct result; reflexivity).
    split; [apply surjective_pairing|]. split; [auto|lia].
  - destruct (H i) as [Hctx Hdial]; [lia|].
    cbn [Nat.add retryLoop]. rewrite Hctx.
    unfold attempts. cbn [seq flat_map].
    fold (attempts w config (hostPort ip (ServerPort info)) (S i) k).
    unfold attempt at 1.
    destruct (net_DialTimeout w i (hostPort ip (ServerPort info))
                (Timeout config)) as [elapsed [e|]] eqn:Ed;
      [|simpl in Hdial; congruence].
    destruct (IH n (S i) (setDuration elapsed result) (Some e))
      as (d & lastErr' & Hloop & H0 & Hk).
    { intros j Hj. apply H. lia. }
    rewrite Hloop. exists d, lastErr'.
    replace (setDuration d (setDuration elapsed result))
      with (setDuration d result) by reflexivity.
    replace (i + S k) with (S i + k) by lia.
    split; [|split; [lia|]].
    + simpl. f_equal. rewrite <- !app_assoc. reflexivity.
    + intros _. destruct k as [|k].
      * destruct (H0 eq_refl) as [-> ->].
        replace (S i + 0 - 1) with i by lia. rewrite Ed. auto.
      * destruct Hk as [-> ->]; [lia|]. auto.
Qed.

(** X1: a probe makes at most [RetryCount] connect attempts, and it waits
    only between two attempts: never before the first one, never more
    often than it dials. *)
Theorem attempts_within_retry_count :
  dials (snd (checkConnectivity w info config)) <= Z.to_nat (RetryCount config)
  /\ selects (snd (checkConnectivity w info config))
     <= dials (snd (checkConnectivity w info config)).
Proof.
  unfold checkConnectivity.
  set (result := mkCheckResult info false "" (time_Now w) 0).
  assert (Hloop : forall ip,
             let tr := snd (retryLoop w info config ip
                              (Z.to_nat (RetryCount config)) 0 result None) in
             dials tr <= Z.to_nat (RetryCount config) /\ selects tr <= dials tr).
  { intros ip tr. split.
    - apply (retryLoop_trace w info config).
    - pose proof (retryLoop_waits ip (Z.to_nat (RetryCount config)) 0 result None)
        as H. simpl in H. subst tr. lia. }
  destruct (strings.Contains (ServerIP info) "."); cbn [negb].
  - apply Hloop.
  - destruct (net_LookupIP w (ServerIP info)) as [[|ip ips] [e|]];
      try (unfold dials, selects; simpl; lia).
    specialize (Hloop ip).
    destruct (retryLoop w info config ip (Z.to_nat (RetryCount config)) 0
                result None) as [o tr].
    cbn [snd] in *. unfold dials, selects in *. simpl. exact Hloop.
Qed.

(** X2: a probe closes every connection it establishes, and establishes
    at most one; its result is a success exactly when it closed one, and a
    success carries no error text. *)
Theorem success_iff_connection_closed r tr :
  checkConnectivity w info config = (Returned r, tr) ->
  connections tr = closes tr
  /\ closes tr = (if IsSuccess r then 1 else 0)
  /\ (IsSuccess r = true -> Error r = "").
Proof.
  unfold checkConnectivity.
  set (result := mkCheckResult info false "" (time_Now w) 0).
  assert (Hloop : forall ip r tr,
             retryLoop w info config ip (Z.to_nat (RetryCount config)) 0
               result None = (Returned r, tr) ->
             connections tr = closes tr
             /\ closes tr = (if IsSuccess r then 1 else 0)
             /\ (IsSuccess r = true -> Error r = "")).
  { intros ip r0 tr0 H.
    pose proof (retryLoop_closes ip (Z.to_nat (RetryCount config)) 0 result None)
      as Hc. rewrite H in Hc. cbn [snd] in Hc.
    destruct (retryLoop_result _ _ _ _ _ H eq_refl) as (_ & _ & H3 & H4).
    split; [apply Hc|]. split; [exact H3|exact H4]. }
  destruct (strings.Contains (ServerIP info) "."); cbn [negb].
  - apply Hloop.
  - destruct (net_LookupIP w (ServerIP info)) as [[|ip ips] [e|]];
      try (intros H; inversion H; subst; simpl; repeat split; discriminate).
    destruct (retryLoop w info config ip (Z.to_nat (RetryCount config)) 0
                result None) as [o tr'] eqn:E.
    intros H; inversion H; subst.
    destruct (Hloop _ _ _ E) as (H1 & H2 & H3).
    unfold connections, closes in *. simpl. auto.
Qed.

(** X3: the result of a probe names the record it was asked about,
    unchanged, and the time at which the probe began. *)
Theorem result_names_its_record r tr :
  checkConnectivity w info config = (Returned r, tr) ->
  Info r = info /\ CheckTime r = time_Now w.
Proof.
  unfold checkConnectivity.
  set (result := mkCheckResult info false "" (time_Now w) 0).
  assert (Hloop : forall ip r tr,
             retryLoop w info config ip (Z.to_nat (RetryCount config)) 0
               result None = (Returned r, tr) ->
             Info r = info /\ CheckTime r = time_Now w).
  { intros ip r0 tr0 H.
    destruct (retryLoop_result _ _ _ _ _ H eq_refl) as (H1 & H2 & _). auto. }
  destruct (strings.Contains (ServerIP info) "."); cbn [negb].
  - apply Hloop.
  - destruct (net_LookupIP w (ServerIP info)) as [[|ip ips] [e|]];
      try (intros H; inversion H; subst; simpl; auto; fail).
    destruct (retryLoop w info config ip (Z.to_nat (RetryCount config)) 0
                result None) as [o tr'] eqn:E.
    intros H; inversion H; subst. eapply Hloop; eassumption.
Qed.

(** X4: the first connect attempt that succeeds ends the probe: when the
    attempts before index [k] fail, no wait before index [k] or at it is
    cancelled, and attempt [k] connects, the result is a success with the
    time of attempt [k], after [k + 1] dials and one close.  The context
    is not consulted before the first attempt. *)
Theorem first_success_ends_probe ip k :
  resolvedIP w info = Some ip ->
  k < Z.to_nat (RetryCount config) ->
  (forall j, j <= k -> (0 <? j)%nat && ctx_Done w j = false) ->
  (forall j, j < k ->
     snd (net_DialTimeout w j (hostPort ip (ServerPort info)) (Timeout config))
     <> None) ->
  snd (net_DialTimeout w k (hostPort ip (ServerPort info)) (Timeout config))
    = None ->
  checkConnectivity w info config =
  (Returned (mkCheckResult info true "" (time_Now w)
               (fst (net_DialTimeout w k (hostPort ip (ServerPort info))
                       (Timeout config)))),
   (lookupOf info
    ++ attempts w config (hostPort ip (ServerPort info)) 0 (S k)
    ++ [EvClose])%list).
Proof.
  intros Hres Hk Hctx Hfail Hok.
  rewrite (checkConnectivity_resolved w info config Hres).
  replace (Z.to_nat (RetryCount config))
    with (k + S (Z.to_nat (RetryCount config) - S k)) by lia.
  destruct (@retryLoop_prefix ip k (S (Z.to_nat (RetryCount config) - S k)) 0
              (mkCheckResult info false "" (time_Now w) 0) None)
    as (d & lastErr' & Hloop & _ & _).
  { intros j Hj. split; [apply Hctx; lia | apply Hfail; lia]. }
  rewrite Hloop. cbn [fst snd Nat.add retryLoop].
  rewrite (Hctx k (le_n k)).
  destruct (net_DialTimeout w k (hostPort ip (ServerPort info))
              (Timeout config)) as [elapsed err] eqn:Ed.
  simpl in Hok. subst err. cbn [fst snd]. unfold lookupOf. f_equal.
  f_equal. replace (S k) with (k + 1) by lia.
  unfold attempts. rewrite seq_app, flat_map_app. cbn [seq flat_map Nat.add].
  replace (attempt w config (hostPort ip (ServerPort info)) k)
    with ((if (0 <? k)%nat then [EvSelect (RetryDelay config) false] else [])
          ++ [EvDialTimeout (hostPort ip (ServerPort info)) (Timeout config)
                elapsed None])%list
    by (unfold attempt; rewrite Ed; reflexivity).
  rewrite app_nil_r, <- !app_assoc. reflexivity.
Qed.

(** X5: a cancellation seen at the wait before attempt [k] (the first [k]
    attempts having failed) ends the probe at once: the result is a
    failure that says so and keeps the time of attempt [k - 1], and no
    further dial is made. *)
Theorem cancellation_ends_probe ip k :
  resolvedIP w info = Some ip ->
  0 < k < Z.to_nat (RetryCount config) ->
  (forall j, j < k -> (0 <? j)%nat && ctx_Done w j = false) ->
  (forall j, j < k ->
     snd (net_DialTimeout w j (hostPort ip (ServerPort info)) (Timeout config))
     <> None) ->
  ctx_Done w k = true ->
  checkConnectivity w info config =
  (Returned (mkCheckResult info false cancelledMsg (time_Now w)
               (fst (net_DialTimeout w (k - 1)
                       (hostPort ip (ServerPort info)) (Timeout config)))),
   (lookupOf info
    ++ attempts w config (hostPort ip (ServerPort info)) 0 k
    ++ [EvSelect (RetryDelay config) true])%list).
Proof.
  intros Hres Hk Hctx Hfail Hdone.
  rewrite (checkConnectivity_resolved w info config Hres).
  replace (Z.to_nat (RetryCount config))
    with (k + S (Z.to_nat (RetryCount config) - S k)) by lia.
  destruct (@retryLoop_prefix ip k (S (Z.to_nat (RetryCount config) - S k)) 0
              (mkCheckResult info false "" (time_Now w) 0) None)
    as (d & lastErr' & Hloop & _ & Hd).
  { intros j Hj. split; [apply Hctx; lia | apply Hfail; lia]. }
  rewrite Hloop. cbn [fst snd Nat.add retryLoop].
  rewrite Hdone. destruct k as [|k]; [lia|]. cbn [Nat.ltb Nat.leb andb].
  destruct Hd as [-> _]; [lia|]. cbn [fst snd]. unfold lookupOf.
  replace (0 + S k - 1) with (S k - 1) by lia. reflexivity.
Qed.

End ProbePaths.

(** ** More on the loader of part_000 *)

Section Parser.

Import Part000.

Lemma parseLine_other acc cur text :
  hasKey "serverID" text = false -> hasKey "serverPort" text = false ->
  exists cur', parseLine (acc, cur) text = inl (acc, cur')
    /\ (hasKey "appName" text = false -> AppName cur' = AppName cur).
Proof.
  unfold hasKey, fieldOf, parseLine, strings.SplitN2.
  destruct (String.eqb (strings.TrimSpace text) "" ||
            strings.HasPrefix (strings.TrimSpace text) "#"); [eauto|].
  destruct (strings.cut ":" (strings.TrimSpace text)) as [[k v]|]; [|eauto].
  intros Hid Hport. rewrite Hid, Hport.
  destruct (String.eqb (strings.TrimSpace k) "appName").
  - eexists. split; [reflexivity|discriminate].
  - destruct (String.eqb (strings.TrimSpace k) "serverIP");
      eexists; split; reflexivity || auto.
Qed.

Lemma parseLine_id acc cur text :
  hasKey "serverID" text = true ->
  forall st', parseLine (acc, cur) text = inl st' ->
    fst st' = acc /\ AppName (snd st') = AppName cur.
Proof.
  unfold hasKey, fieldOf, parseLine, strings.SplitN2.
  destruct (String.eqb (strings.TrimSpace text) "" ||
            strings.HasPrefix (strings.TrimSpace text) "#"); [discriminate|].
  destruct (strings.cut ":" (strings.TrimSpace text)) as [[k v]|];
    [|discriminate].
  intros Hid. rewrite Hid.
  apply String.eqb_eq in Hid. rewrite Hid. simpl.
  destruct (strconv.Atoi _) as [id [e|]]; intros st' H; inversion H; auto.
Qed.

Lemma parseLine_port acc cur text :
  hasKey "serverPort" text = true ->
  forall st', parseLine (acc, cur) text = inl st' ->
    exists port,
      st' = ((acc ++ [mkServerInfo (AppName cur) (ServerIP cur) (ServerID cur)
                        port])%list, zeroServerInfo).
Proof.
  unfold hasKey, fieldOf, parseLine, strings.SplitN2.
  destruct (String.eqb (strings.TrimSpace text) "" ||
            strings.HasPrefix (strings.TrimSpace text) "#"); [discriminate|].
  destruct (strings.cut ":" (strings.TrimSpace text)) as [[k v]|];
    [|discriminate].
  intros Hp. rewrite Hp.
  apply String.eqb_eq in Hp. rewrite Hp. simpl.
  destruct (strconv.Atoi _) as [port [e|]]; intros st' H; inversion H; eauto.
Qed.

Lemma hasKey_exclusive text :
  hasKey "serverID" text = true -> hasKey "serverPort" text = false.
Proof.
  unfold hasKey. destruct (fieldOf text) as [[k v]|]; [|discriminate].
  intros H. apply String.eqb_eq in H. subst. reflexivity.
Qed.

(** One line adds a record exactly when its key is serverPort. *)
Lemma parseLine_count acc cur text st' :
  parseLine (acc, cur) text = inl st' ->
  List.length (fst st') =
  List.length acc + (if hasKey "serverPort" text then 1 else 0).
Proof.
  intros H.
  destruct (hasKey "serverPort" text) eqn:Hp.
  - destruct (parseLine_port acc cur text Hp H) as [port ->].
    simpl. rewrite length_app. reflexivity.
  - destruct (hasKey "serverID" text) eqn:Hid.
    + destruct (parseLine_id acc cur text Hid H) as [-> _]. lia.
    + destruct (parseLine_other acc cur text Hid Hp) as (cur' & E & _).
      rewrite E in H. inversion H. simpl. lia.
Qed.

Lemma scanLoop_count lines : forall acc cur st',
  scanLoop (acc, cur) lines = inl st' ->
  List.length (fst st') = List.length acc + keyLines "serverPort" lines.
Proof.
  unfold keyLines.
  induction lines as [|text lines IH]; intros acc cur st' H;
    cbn [scanLoop filter] in *.
  - inversion H. simpl. lia.
  - destruct (parseLine (acc, cur) text) as [[acc1 cur1]|e] eqn:E;
      [|discriminate].
    apply parseLine_count in E. apply IH in H. cbn [fst] in *.
    destruct (hasKey "serverPort" text); simpl; lia.
Qed.

(** X6: when a config file parses, it yields exactly one record for each
    of its serverPort lines, whatever other lines it holds; when it does
    not, it yields no record at all. *)
Theorem parseServerInfo_one_record_per_port (fs : FileSystem) (filePath : string) :
  (snd (parseServerInfo fs filePath) = None ->
   snd (os_Open fs filePath) = None
   /\ List.length (fst (parseServerInfo fs filePath)) =
      keyLines "serverPort" (Lines (fst (os_Open fs filePath))))
  /\ (snd (parseServerInfo fs filePath) <> None ->
      fst (parseServerInfo fs filePath) = []).
Proof.
  unfold parseServerInfo.
  destruct (os_Open fs filePath) as [file [e|]]; simpl.
  - split; [discriminate|reflexivity].
  - destruct (scanLoop ([], zeroServerInfo) (Lines file)) as [[infos cur]|e]
      eqn:E; simpl; [|split; [discriminate|reflexivity]].
    destruct (ScanErr file); simpl; [split; [discriminate|reflexivity]|].
    split; [|congruence]. intros _. split; [reflexivity|].
    apply scanLoop_count in E. exact E.
Qed.

Lemma parseLine_acc acc cur text :
  parseLine (acc, cur) text =
  match parseLine ([], cur) text with
  | inl (r, c) => inl ((acc ++ r)%list, c)
  | inr e => inr e
  end.
Proof.
  unfold parseLine.
  destruct (String.eqb (strings.TrimSpace text) "" ||
            strings.HasPrefix (strings.TrimSpace text) "#");
    [rewrite app_nil_r; reflexivity|].
  destruct (strings.SplitN2 (strings.TrimSpace text) ":") as [|k [|v [|x l]]];
    try (rewrite app_nil_r; reflexivity).
  repeat match goal with
         | |- context [if ?b then _ else _] => destruct b
         | |- context [strconv.Atoi ?v] => destruct (strconv.Atoi v) as [? [?|]]
         end; rewrite ?app_nil_r; reflexivity.
Qed.

Lemma scanLoop_acc lines : forall acc cur,
  scanLoop (acc, cur) lines =
  match scanLoop ([], cur) lines with
  | inl (r, c) => inl ((acc ++ r)%list, c)
  | inr e => inr e
  end.
Proof.
  induction lines as [|text lines IH]; intros acc cur; cbn [scanLoop].
  - rewrite app_nil_r. reflexivity.
  - rewrite (parseLine_acc acc).
    destruct (parseLine ([], cur) text) as [[r c]|e]; [|reflexivity].
    rewrite (IH (acc ++ r)%list), (IH r).
    destruct (scanLoop ([], c) lines) as [[r' c']|e]; [|reflexivity].
    rewrite app_assoc. reflexivity.
Qed.

Lemma scanLoop_app l1 : forall l2 st,
  scanLoop st (l1 ++ l2) =
  match scanLoop st l1 with
  | inl st' => scanLoop st' l2
  | inr e => inr e
  end.
Proof.
  induction l1 as [|text l1 IH]; intros l2 st; cbn [app scanLoop];
    [reflexivity|].
  destruct (parseLine st text); [apply IH|reflexivity].
Qed.

(** X7: lines that end on a complete block, that is with nothing pending
    after their last serverPort line, parse independently of what follows:
    the records of the lines after them are those the lines would give on
    their own, appended to the first ones. *)
Theorem complete_blocks_parse_independently l1 l2 r1 :
  scanLoop ([], zeroServerInfo) l1 = inl (r1, zeroServerInfo) ->
  scanLoop ([], zeroServerInfo) (l1 ++ l2) =
  match scanLoop ([], zeroServerInfo) l2 with
  | inl (r2, c) => inl ((r1 ++ r2)%list, c)
  | inr e => inr e
  end.
Proof.
  intros H. rewrite scanLoop_app, H. apply scanLoop_acc.
Qed.

(** X8: a block that gives no appName does not inherit the one of the
    block before it: among the records of lines without an appName line,
    only the first can carry the name pending on entry, and all the
    others have the empty name. *)
Theorem appName_is_not_inherited lines : forall acc cur acc' cur',
  keyLines "appName" lines = 0 ->
  scanLoop (acc, cur) lines = inl (acc', cur') ->
  exists new,
    acc' = (acc ++ new)%list
    /\ match new with
       | [] => AppName cur' = AppName cur
       | r :: rest =>
           AppName r = AppName cur
           /\ Forall (fun r' => AppName r' = "") rest
           /\ AppName cur' = ""
       end.
Proof.
  unfold keyLines.
  induction lines as [|text lines IH]; intros acc cur acc' cur' Hk H;
    cbn [scanLoop filter] in *.
  - inversion H; subst. exists []. rewrite app_nil_r. auto.
  - destruct (hasKey "appName" text) eqn:Ha; [discriminate|].
    destruct (parseLine (acc, cur) text) as [[acc1 cur1]|e] eqn:E;
      [|discriminate].
    destruct (hasKey "serverPort" text) eqn:Hp.
    + destruct (parseLine_port acc cur text Hp E) as [port Est].
      inversion Est; subst.
      destruct (IH _ _ _ _ Hk H) as (new & -> & Hnew).
      exists (mkServerInfo (AppName cur) (ServerIP cur) (ServerID cur) port
              :: new).
      rewrite <- app_assoc. split; [reflexivity|]. simpl.
      destruct new as [|r rest]; simpl in Hnew.
      * auto.
      * destruct Hnew as (H1 & H2 & H3). auto.
    + assert (Hcur : acc1 = acc /\ AppName cur1 = AppName cur).
      { destruct (hasKey "serverID" text) eqn:Hid.
        - exact (parseLine_id acc cur text Hid E).
        - destruct (parseLine_other acc cur text Hid Hp) as (c & Ec & Hc).
          rewrite Ec in E. inversion E; subst. auto. }
      destruct Hcur as [-> Hcur].
      destruct (IH _ _ _ _ Hk H) as (new & -> & Hnew).
      exists new. split; [reflexivity|].
      destruct new; rewrite <- Hcur; exact Hnew.
Qed.

End Parser.

Section LoaderReads.

Variable filepath_Join : string -> string -> string.

Lemma parseServerInfo_ext (fs fs' : FileSystem) path :
  os_Open fs path = os_Open fs' path ->
  Part000.parseServerInfo fs path = Part000.parseServerInfo fs' path.
Proof. unfold Part000.parseServerInfo. intros ->. reflexivity. Qed.

(** X9: the loader of part_000 opens the .conf files of the directory
    and nothing else: two file systems that list the same entries and
    agree on the content of every entry that is no directory and is named
    *.conf give the same records, the same error and the same warnings. *)
Theorem only_conf_files_are_read (fs fs' : FileSystem) folderPath entries :
  os_ReadDir fs folderPath = (entries, None) ->
  os_ReadDir fs' folderPath = (entries, None) ->
  (forall e, In e entries -> IsDir e = false ->
     strings.HasSuffix (Name e) ".conf" = true ->
     os_Open fs (filepath_Join folderPath (Name e))
     = os_Open fs' (filepath_Join folderPath (Name e))) ->
  Part000.parseAllConfigFiles filepath_Join fs folderPath =
  Part000.parseAllConfigFiles filepath_Join fs' folderPath.
Proof.
  intros H H' Hopen. rewrite !part000_loader, H, H'.
  assert (Hv : forall paths,
             Forall (fun path => os_Open fs path = os_Open fs' path) paths ->
             Spec.validRecords (Part000.parseServerInfo fs) paths
             = Spec.validRecords (Part000.parseServerInfo fs') paths
             /\ Spec.failedFiles (Part000.parseServerInfo fs) paths
             = Spec.failedFiles (Part000.parseServerInfo fs') paths).
  { induction 1 as [|path paths Hp _ [IH1 IH2]]; [split; reflexivity|].
    unfold Spec.validRecords, Spec.failedFiles in *. cbn [flat_map].
    rewrite (parseServerInfo_ext fs fs' path Hp), IH1, IH2. auto. }
  destruct (Hv (Spec.confPaths filepath_Join folderPath entries)) as [E1 E2].
  { unfold Spec.confPaths. apply Forall_forall. intros path Hin.
    apply in_map_iff in Hin. destruct Hin as (e & <- & He).
    apply filter_In in He. destruct He as [He Hc].
    unfold Spec.isConf in Hc. apply andb_prop in Hc. destruct Hc as [Hd Hs].
    apply Hopen; auto. destruct (IsDir e); [discriminate|reflexivity]. }
  cbv zeta. rewrite E1, E2. reflexivity.
Qed.

End LoaderReads.

(** ** More on the runs of part_000 and of checkip3.go *)

Section Run000More.

Import Part000.

Variable filepath_Join : string -> string -> string.
Variable time_Format : Z -> string -> string.
Variable Duration_String : Z -> string.
Variable p : Process.

Local Abbreviation step := (Part000.step filepath_Join time_Format Duration_String p DefaultConfig).
Local Abbreviation reachable := (Part000.reachable filepath_Join time_Format Duration_String p).
Local Abbreviation infos := (serverInfos filepath_Join p).
Local Abbreviation start := (Part000.start filepath_Join time_Format p).
Local Abbreviation formatResult := (Part000.formatResult time_Format Duration_String).
Local Abbreviation summary := (Part000.summary filepath_Join time_Format Duration_String p).
Local Abbreviation drain := (Part000.drain time_Format Duration_String).

(** X10: a probe goroutine never waits at [results <- result]: the
    buffer of [results], made for [len(serverInfos)] results, has room
    whenever a goroutine is about to send. *)
Theorem send_never_blocks rest s l1 g l2 r :
  mpc start = MDispatch rest ->
  reachable s ->
  alive (mpc s) ->
  goroutines s = (l1 ++ g :: l2)%list ->
  gpc g = GSend r ->
  List.length (results s) < List.length infos
  /\ exists s', step s s'
       /\ goroutines s' = (l1 ++ setPC GRelease g :: l2)%list
       /\ results s' = (results s ++ [r])%list.
Proof.
  intros H Hr Ha Hg Hpc.
  pose proof (inv_reachable H Hr) as HI.
  assert (Hlen : List.length (results s) < List.length infos).
  { pose proof (Permutation_length (inv_sent HI)) as Hp.
    rewrite length_map, length_app, deliveredBy_length, Hg in Hp.
    rewrite count_app in Hp. simpl in Hp. rewrite Hpc in Hp. simpl in Hp.
    pose proof (count_le_length delivered l1).
    pose proof (count_le_length delivered l2).
    pose proof (inv_infos HI) as Hi.
    destruct (mpc s) eqn:Em; simpl in Ha; try contradiction;
      rewrite <- Hi, Hg, length_app, length_map, length_app; simpl; lia. }
  split; [exact Hlen|].
  destruct s as [m gs n sem res cl a]. simpl in *. subst gs.
  eexists. split; [eapply step_send; eauto|]. simpl. auto.
Qed.

(** X11: when no write to the log file fails, the log file of a finished
    run holds the result lines in the order they were received, then the
    summary, and the console holds the warnings of the loader, the start
    line, and then what the log file holds. *)
Theorem log_file_echoes_console rest s status :
  mpc start = MDispatch rest ->
  (forall n line, logFile_Write p n line = None) ->
  reachable s ->
  mpc s = MExit status ->
  logFile (agg s)
    = (map formatResult (seen (agg s)) ++ [summary (agg s)])%list
  /\ console (agg s)
    = (snd (parsed filepath_Join p)
       ++ startLine (List.length infos) :: logFile (agg s))%list.
Proof.
  intros H Hw Hr Em.
  pose proof (inv_reachable H Hr) as HI.
  pose proof (@part000_run_drains time_Format Duration_String filepath_Join
                p rest s H Hr) as Hd.
  rewrite Em in Hd.
  assert (Hlog : logFile (agg s)
                 = (map formatResult (seen (agg s)) ++ [summary (agg s)])%list).
  { remember (seen (agg s)) as sn eqn:Hsn.
    remember (drain p (agg start) sn) as a eqn:Ha.
    rewrite Hd. unfold summarize, logLine. cbn [logFile]. rewrite Hw.
    change (summary _) with (summary a). f_equal. subst a.
    rewrite part000_drain_log by (intros; apply Hw).
    rewrite (start_running _ _ _ H). reflexivity. }
  split; [exact Hlog|].
  rewrite (inv_console HI), Em, Hlog. reflexivity.
Qed.

End Run000More.

Section Run3More.

Import Checkip3.

Variable parseServerInfo : FileSystem -> string -> list ServerInfo * option error.
Variable probeLine : nat -> ServerInfo -> string.
Variable time_Format : Z -> string -> string.
Variable p : Process.

Local Abbreviation step := (Checkip3.step probeLine p).
Local Abbreviation reachable := (Checkip3.reachable parseServerInfo probeLine time_Format p).
Local Abbreviation steps := (Checkip3.steps probeLine p).
Local Abbreviation infos := (Checkip3.serverInfos parseServerInfo p).
Local Abbreviation start := (Checkip3.start parseServerInfo time_Format p).
Local Abbreviation lines := (linesFrom probeLine 0 infos).
Local Abbreviation Inv3 := (Checkip3.Inv3 parseServerInfo probeLine p).

Lemma count3_pick f (gs : list Goroutine) :
  0 < count f gs ->
  exists l1 g l2, gs = (l1 ++ g :: l2)%list /\ f (gpc g) = true.
Proof.
  induction gs as [|g gs IH]; simpl; [lia|].
  destruct (f (gpc g)) eqn:E.
  - intros _. exists [], g, gs. auto.
  - intros H. destruct IH as (l1 & g' & l2 & -> & Hf); [lia|].
    exists (g :: l1), g', l2. auto.
Qed.

Lemma count3_split (gs : list Goroutine) :
  count unfinished gs = count moving gs + count sending gs
  /\ count holdsSlot gs <= count moving gs + count sending gs
  /\ count sending gs <= count holdsSlot gs
  /\ count holdsSlot gs <= List.length gs.
Proof.
  induction gs as [|g gs IH]; simpl; [lia|]. destruct (gpc g); simpl; lia.
Qed.

Lemma moving_steps m l1 g l2 n sem cl a :
  alive m -> moving (gpc g) = true ->
  semaphore (mkState m (l1 ++ g :: l2) n sem cl a)
    = count holdsSlot (l1 ++ g :: l2) ->
  n = count unfinished (l1 ++ g :: l2)
      + match m with MAcquire _ _ => 1 | _ => 0 end ->
  exists s', step (mkState m (l1 ++ g :: l2) n sem cl a) s'.
Proof.
  intros Ha Hm Hsem Hwg. simpl in Hsem.
  rewrite count3_app in Hsem, Hwg. simpl in Hsem, Hwg.
  destruct (gpc g) eqn:Hpc; try discriminate; simpl in Hsem, Hwg.
  - eexists. eapply step_probe; eauto.
  - destruct sem as [|sem]; [lia|]. eexists. eapply step_release; eauto.
  - destruct n as [|n]; [lia|]. eexists. eapply step_done; eauto.
Qed.

(** A state of checkip3.go that cannot move is one in which [main] has
    returned, or one in which the dispatch loop waits for a slot while
    every slot is held by a goroutine waiting to send. *)
Lemma progress3 s :
  Inv3 s ->
  (exists s', step s s')
  \/ (exists status, mpc s = MExit status)
  \/ (exists info rest,
        mpc s = MAcquire info rest
        /\ semaphore s = concurrentLimit
        /\ count sending (goroutines s) = concurrentLimit
        /\ count moving (goroutines s) = 0).
Proof.
  intros [Hi Hid Hwg Hsem Hb Hsent Hsend Hcl Hcd Hex].
  destruct s as [m gs n sem cl a]; simpl in *.
  destruct (count3_split gs) as (Hu & Hh & Hs & Hl).
  destruct m as [[|info rest]|info rest| |status].
  - left. eexists. apply step_watch.
  - left. eexists. apply step_add.
  - destruct (count moving gs) as [|k] eqn:Hm.
    + destruct (Nat.lt_ge_cases sem concurrentLimit) as [Hlt|Hge].
      * left. eexists. apply step_go. exact Hlt.
      * right. right. exists info, rest. repeat split; lia.
    + left. destruct (@count3_pick moving gs) as (l1 & g & l2 & -> & Hg); [lia|].
      eapply moving_steps; simpl; eauto.
  - left. destruct cl; [congruence| |eexists; apply step_end].
    destruct n as [|n]; [eexists; apply step_close|].
    destruct (count moving gs) as [|k] eqn:Hm.
    + destruct (@count3_pick sending gs) as (l1 & g & l2 & -> & Hg); [lia|].
      destruct (gpc g) eqn:Hpc; try discriminate.
      eexists. eapply step_rendezvous. eassumption.
    + destruct (@count3_pick moving gs) as (l1 & g & l2 & -> & Hg); [lia|].
      eapply moving_steps; simpl; eauto.
  - right. left. eauto.
Qed.

(** While every write to the log file succeeds, [main] returns only on
    the closed channel, and the console and the log file hold the lines
    received. *)
Lemma writes_succeed rest s :
  mpc start = MAdd rest ->
  (forall n line, logFile_Write p n line = None) ->
  reachable s ->
  console (agg s) = seen (agg s)
  /\ logFile (agg s) = seen (agg s)
  /\ forall status, mpc s = MExit status -> closer s = CClosed.
Proof.
  intros H Hw Hr. induction Hr as [|s s' Hr IH Hstep].
  - rewrite (start3_running _ _ _ H). simpl. repeat split; discriminate.
  - destruct IH as (I1 & I2 & I3).
    inversion Hstep; subst; simpl in *;
      try match goal with
          | Ha : alive ?m |- _ => destruct m; simpl in Ha; try contradiction
          end;
      try (repeat split; auto; discriminate).
    unfold drainBody. rewrite Hw. simpl. rewrite I1, I2.
    repeat split; discriminate.
Qed.

(** X12: with at most ten records, a run of checkip3.go never hangs: it
    takes finitely many steps and can always take another one until
    [main] returns; and when no write to the log file fails, [main]
    returns having printed, logged and received exactly one line for
    each record. *)
Theorem small_batches_complete rest k s :
  mpc start = MAdd rest ->
  List.length infos <= concurrentLimit ->
  steps k start s ->
  k <= 6 * List.length infos + 4
  /\ ((exists s', step s s') \/ exists status, mpc s = MExit status)
  /\ ((forall n line, logFile_Write p n line = None) ->
      forall status, mpc s = MExit status ->
        Permutation (seen (agg s)) lines
        /\ console (agg s) = seen (agg s)
        /\ logFile (agg s) = seen (agg s)).
Proof.
  intros H Hn Hs.
  assert (Hr : reachable s)
    by (eapply steps3_reachable; [constructor|eassumption]).
  pose proof (inv3_reachable H Hr) as HI.
  split; [|split].
  - apply steps3_measure in Hs. rewrite (start3_running _ _ _ H) in Hs.
    unfold Checkip3.measure in Hs. simpl in Hs. lia.
  - destruct (progress3 HI) as [Hp|[He|(info & rest' & Em & Hsem & _)]]; auto.
    exfalso.
    pose proof (inv3_infos HI) as Hi. rewrite Em in Hi. simpl in Hi.
    pose proof (inv3_sem HI) as Hc.
    destruct (count3_split (goroutines s)) as (_ & _ & _ & Hl).
    assert (List.length infos
            = List.length (goroutines s) + S (List.length rest')).
    { rewrite <- Hi, length_app, length_map. reflexivity. }
    lia.
  - intros Hw status Em.
    destruct (writes_succeed H Hw Hr) as (H1 & H2 & H3).
    destruct (checkip3_slots_and_close H Hr) as (_ & Hc & _).
    destruct (Hc (H3 _ Em)) as (_ & _ & HP). auto.
Qed.

(** X13: with more than ten records, a run of checkip3.go never reaches
    its drain loop: it takes finitely many steps, receives nothing, never
    returns from [main], and the only states in which it cannot move are
    those where the dispatch loop waits for a slot while all ten slots
    are held by goroutines that wait for a receiver on [results]. *)
Theorem large_batches_block_in_dispatch rest k s :
  mpc start = MAdd rest ->
  concurrentLimit < List.length infos ->
  steps k start s ->
  k <= 6 * List.length infos + 4
  /\ seen (agg s) = []
  /\ (forall status, mpc s <> MExit status)
  /\ mpc s <> MDrain
  /\ ((exists s', step s s')
      \/ exists info rest',
           mpc s = MAcquire info rest'
           /\ semaphore s = concurrentLimit
           /\ count sending (goroutines s) = concurrentLimit
           /\ count moving (goroutines s) = 0).
Proof.
  intros H Hn Hs.
  assert (Hr : reachable s)
    by (eapply steps3_reachable; [constructor|eassumption]).
  pose proof (inv3_reachable H Hr) as HI.
  destruct (checkip3_dispatch_blocks H Hn Hr) as (Hm & _ & Hseen).
  split; [|split; [exact Hseen|split; [|split]]].
  - apply steps3_measure in Hs. rewrite (start3_running _ _ _ H) in Hs.
    unfold Checkip3.measure in Hs. simpl in Hs. lia.
  - intros status E. rewrite E in Hm. exact Hm.
  - intros E. rewrite E in Hm. exact Hm.
  - destruct (progress3 HI) as [Hp|[[status He]|Hb]]; auto.
    rewrite He in Hm. contradiction.
Qed.

End Run3More.

(** ** The ways out of [main] *)

Section Exits.

Variable filepath_Join : string -> string -> string.
Variable time_Format : Z -> string -> string.
Variable Duration_String : Z -> string.
Variable parseServerInfo3 : FileSystem -> string -> list ServerInfo * option error.
Variable probeLine : nat -> ServerInfo -> string.
Variable p : Part000.Process.
Variable p3 : Checkip3.Process.

Local Abbreviation start := (Part000.start filepath_Join time_Format p).
Local Abbreviation reachable :=
  (Part000.reachable filepath_Join time_Format Duration_String p).
Local Abbreviation summary :=
  (Part000.summary filepath_Join time_Format Duration_String p).
Local Abbreviation parsed := (Part000.parsed filepath_Join p).
Local Abbreviation start3 := (Checkip3.start parseServerInfo3 time_Format p3).
Local Abbreviation reachable3 :=
  (Checkip3.reachable parseServerInfo3 probeLine time_Format p3).
Local Abbreviation parsed3 :=
  (Checkip3.parseAllConfigFiles parseServerInfo3 (Checkip3.files p3)
     (nth 1 (Checkip3.os_Args p3) "")).







End Exits.

(** ** The rule editor *)

Section Patterns.

Import APIPatternMatchingConfig.

Lemma update_split np prev i :
  findIndex (fun p => String.eqb (key p) (key np)) prev = Some i ->
  exists l1 p l2,
    prev = (l1 ++ p :: l2)%list /\ key p = key np
    /\ Forall (fun q => key q <> key np) l1
    /\ replaceAt i np prev = (l1 ++ np :: l2)%list.
Proof.
  revert i. induction prev as [|q prev IH]; intros i; simpl; [discriminate|].
  destruct (String.eqb (key q) (key np)) eqn:E.
  - intros H; inversion H; subst. apply String.eqb_eq in E.
    exists [], q, prev. auto.
  - destruct (findIndex _ prev) as [j|]; [|discriminate].
    intros H; inversion H; subst.
    destruct (IH j eq_refl) as (l1 & p & l2 & -> & Hk & Hf & Hr).
    exists (q :: l1), p, l2. simpl. rewrite Hr.
    apply String.eqb_neq in E. auto.
Qed.

Lemma update_absent np prev :
  findIndex (fun p => String.eqb (key p) (key np)) prev = None ->
  Forall (fun q => key q <> key np) prev.
Proof.
  induction prev as [|q prev IH]; simpl; [constructor|].
  destruct (String.eqb (key q) (key np)) eqn:E; [discriminate|].
  destruct (findIndex _ prev); [discriminate|].
  intros _. apply String.eqb_neq in E. auto.
Qed.

Lemma lookup_app k l1 l2 :
  lookup k (l1 ++ l2) =
  match lookup k l1 with Some p => Some p | None => lookup k l2 end.
Proof.
  unfold lookup. induction l1 as [|q l1 IH]; simpl; [reflexivity|].
  destruct (String.eqb (key q) k); [reflexivity|apply IH].
Qed.

Lemma lookup_none k l :
  Forall (fun q => key q <> k) l -> lookup k l = None.
Proof.
  unfold lookup. induction 1 as [|q l Hq _ IH]; simpl; [reflexivity|].
  apply String.eqb_neq in Hq. rewrite Hq. exact IH.
Qed.

(** X14: saving the form stores the pattern under its key: afterwards
    the key stands for the new pattern, every other key stands for what
    it stood for, and the list has grown by one entry exactly when the
    key was new. *)
Theorem update_stores_pattern np prev :
  lookup (key np) (update np prev) = Some np
  /\ (forall k, k <> key np -> lookup k (update np prev) = lookup k prev)
  /\ List.length (update np prev) =
     match lookup (key np) prev with
     | Some _ => List.length prev
     | None => S (List.length prev)
     end.
Proof.
  unfold update.
  destruct (findIndex _ prev) as [i|] eqn:E.
  - destruct (update_split np prev E) as (l1 & p & l2 & -> & Hk & Hf & ->).
    rewrite !lookup_app, (lookup_none Hf). repeat split.
    + unfold lookup. simpl. rewrite String.eqb_refl. reflexivity.
    + intros k Hne. rewrite !lookup_app. unfold lookup. simpl.
      rewrite Hk. apply not_eq_sym in Hne. apply String.eqb_neq in Hne.
      rewrite Hne. reflexivity.
    + unfold lookup at 1. simpl. rewrite Hk, String.eqb_refl.
      rewrite !length_app. reflexivity.
  - pose proof (update_absent np prev E) as Hf.
    rewrite lookup_app, (lookup_none Hf). repeat split.
    + unfold lookup. simpl. rewrite String.eqb_refl. reflexivity.
    + intros k Hne. rewrite lookup_app. unfold lookup at 2. simpl.
      apply not_eq_sym in Hne. apply String.eqb_neq in Hne. rewrite Hne.
      destruct (lookup k prev); reflexivity.
    + rewrite length_app. simpl. lia.
Qed.

(** X15: deleting a key removes every entry that has it and no other:
    an entry remains exactly when it was there under another key, so the
    key stands for nothing afterwards and every other key stands for what
    it stood for; deleting the key again changes nothing. *)
Theorem handleDelete_removes_key patterns k :
  (forall p, In p (handleDelete patterns k) <-> In p patterns /\ key p <> k)
  /\ lookup k (handleDelete patterns k) = None
  /\ (forall k', k' <> k ->
        lookup k' (handleDelete patterns k) = lookup k' patterns)
  /\ handleDelete (handleDelete patterns k) k = handleDelete patterns k.
Proof.
  unfold handleDelete, lookup. split; [|split; [|split]].
  - intros p. rewrite filter_In, negb_true_iff, String.eqb_neq. tauto.
  - induction patterns as [|p ps IH]; simpl; [reflexivity|].
    destruct (String.eqb (key p) k) eqn:E; simpl; [exact IH|].
    rewrite E. exact IH.
  - intros k' Hne. induction patterns as [|p ps IH]; simpl; [reflexivity|].
    destruct (String.eqb (key p) k) eqn:E; simpl.
    + apply String.eqb_eq in E. subst k.
      apply not_eq_sym in Hne. apply String.eqb_neq in Hne. rewrite Hne.
      exact IH.
    + destruct (String.eqb (key p) k'); [reflexivity|exact IH].
  - induction patterns as [|p ps IH]; simpl; [reflexivity|].
    destruct (String.eqb (key p) k) eqn:E; simpl; [exact IH|].
    rewrite E. simpl. rewrite IH. reflexivity.
Qed.

(** X16: switching a pattern on or off changes nothing but the [enabled]
    field of the entries with that key: the entries keep their number,
    their order and all their other fields, and afterwards the key stands
    for its pattern with the new setting. *)
Theorem handleStatusChange_sets_enabled patterns k b :
  Forall2 (fun p q =>
             key q = key p /\ name q = name p /\ type q = type p
             /\ pattern q = pattern p /\ description q = description p
             /\ enabled q = (if String.eqb (key p) k then b else enabled p))
    patterns (handleStatusChange patterns k b)
  /\ lookup k (handleStatusChange patterns k b)
     = option_map (setEnabled b) (lookup k patterns)
  /\ (forall k', k' <> k ->
        lookup k' (handleStatusChange patterns k b) = lookup k' patterns).
Proof.
  unfold handleStatusChange, lookup. split; [|split].
  - induction patterns as [|p ps IH]; simpl; constructor; auto.
    destruct (String.eqb (key p) k); simpl; auto 10.
  - induction patterns as [|p ps IH]; simpl; [reflexivity|].
    destruct (String.eqb (key p) k) eqn:E; simpl; rewrite E;
      [reflexivity|exact IH].
  - intros k' Hne. induction patterns as [|p ps IH]; simpl; [reflexivity|].
    destruct (String.eqb (key p) k) eqn:E; simpl.
    + apply String.eqb_eq in E. subst k.
      apply not_eq_sym in Hne. apply String.eqb_neq in Hne. rewrite Hne.
      exact IH.
    + destruct (String.eqb (key p) k'); [reflexivity|exact IH].
Qed.

Lemma handleStatusChange_keys patterns k b :
  map key (handleStatusChange patterns k b) = map key patterns.
Proof.
  unfold handleStatusChange.
  induction patterns as [|p ps IH]; simpl; [reflexivity|].
  rewrite IH. destruct (String.eqb (key p) k); reflexivity.
Qed.

(** X17: the three handlers keep the keys of [patterns] pairwise
    distinct. *)
Theorem handlers_keep_keys_distinct patterns :
  NoDup (map key patterns) ->
  (forall k b, NoDup (map key (handleStatusChange patterns k b)))
  /\ (forall k, NoDup (map key (handleDelete patterns k)))
  /\ (forall values now,
        NoDup (map key (handleModalOk patterns values now))).
Proof.
  intros Hnd. repeat split.
  - intros k b.
    rewrite handleStatusChange_keys. exact Hnd.
  - intros k. unfold handleDelete.
    induction patterns as [|p ps IH]; simpl; [constructor|].
    inversion Hnd; subst.
    destruct (String.eqb (key p) k); simpl; [auto|].
    constructor; [|auto]. intros Hin. apply H1.
    apply in_map_iff in Hin. destruct Hin as (q & Hq & Hin).
    apply filter_In in Hin. apply in_map_iff. exists q. tauto.
  - intros values now. unfold handleModalOk, update.
    set (np := newPattern values now).
    destruct (findIndex _ patterns) as [i|] eqn:E.
    + destruct (update_split np patterns E) as (l1 & p & l2 & -> & Hk & _ & ->).
      rewrite map_app in *. simpl in *. rewrite <- Hk. exact Hnd.
    + pose proof (update_absent np patterns E) as Hf.
      rewrite map_app. simpl.
      apply NoDup_app; [exact Hnd|repeat constructor; auto|].
      intros k Hin [Hk|[]]. subst k.
      apply in_map_iff in Hin. destruct Hin as (q & Hq & Hin).
      rewrite Forall_forall in Hf. exact (Hf q Hin Hq).
Qed.

End Patterns.

(** ** The program of part_001 *)

Section Parse001.

Import Part001.

Lemma Split_length s sep :
  List.length (strings.Split s sep) = S (occurrences sep s).
Proof.
  induction s as [|c s IH]; simpl; [reflexivity|].
  destruct (Ascii.eqb c sep); simpl; [rewrite IH; reflexivity|].
  destruct (strings.Split s sep) as [|a l]; simpl in *; [discriminate|].
  exact IH.
Qed.

Lemma sameField_refl k a : sameField k a a.
Proof. unfold sameField. auto. Qed.

Lemma sameField_trans k a b c :
  sameField k a b -> sameField k b c -> sameField k a c.
Proof.
  unfold sameField. intros (A1 & A2 & A3 & A4) (B1 & B2 & B3 & B4).
  repeat split; intros E; [rewrite A1, B1|rewrite A2, B2|rewrite A3, B3|
                           rewrite A4, B4]; auto.
Qed.

Ltac other_key Hk :=
  apply String.eqb_neq in Hk; unfold sameField; simpl;
  repeat split; intros; subst; try reflexivity; try contradiction;
  try congruence.

Lemma scanLine_acc acc cur line :
  exists new,
    scanLine (acc, cur) line
      = ((acc ++ new)%list, snd (scanLine ([], cur) line))
    /\ List.length new = (if isKey "serverPort" line then 1 else 0)
    /\ (forall k, isKey k line = false ->
        sameField k (snd (scanLine ([], cur) line)) cur
        /\ Forall (fun r => sameField k r cur) new).
Proof.
  unfold scanLine, isKey, keyOf.
  destruct (strings.Split line ":") as [|f0 [|f1 [|f2 l]]];
    try solve [exists []; rewrite app_nil_r; simpl;
               repeat split; auto using sameField_refl].
  destruct (String.eqb (strings.TrimSpace f0) "appName") eqn:E1.
  { exists []; rewrite app_nil_r.
    apply String.eqb_eq in E1. rewrite E1.
    split; [reflexivity|]. split; [reflexivity|].
    intros k Hk. split; [|constructor]. other_key Hk. }
  destruct (String.eqb (strings.TrimSpace f0) "serverIP") eqn:E2.
  { exists []; rewrite app_nil_r.
    apply String.eqb_eq in E2. rewrite E2.
    split; [reflexivity|]. split; [reflexivity|].
    intros k Hk. split; [|constructor]. other_key Hk. }
  destruct (String.eqb (strings.TrimSpace f0) "serverID") eqn:E3.
  { exists []; rewrite app_nil_r.
    apply String.eqb_eq in E3. rewrite E3.
    split; [reflexivity|]. split; [reflexivity|].
    intros k Hk. split; [|constructor]. other_key Hk. }
  destruct (String.eqb (strings.TrimSpace f0) "serverPort") eqn:E4.
  { eexists. apply String.eqb_eq in E4. rewrite E4.
    split; [reflexivity|]. split; [reflexivity|].
    intros k Hk. split; [|constructor; [|constructor]]; other_key Hk. }
  exists []; rewrite app_nil_r; simpl.
  repeat split; auto using sameField_refl.
Qed.

Lemma scanLines_acc lines : forall acc cur,
  exists new,
    fst (scanLines (acc, cur) lines) = (acc ++ new)%list
    /\ List.length new = List.length (filter (isKey "serverPort") lines)
    /\ (forall k, forallb (fun l => negb (isKey k l)) lines = true ->
        sameField k (snd (scanLines (acc, cur) lines)) cur
        /\ Forall (fun r => sameField k r cur) new).
Proof.
  unfold scanLines.
  induction lines as [|line lines IH]; intros acc cur.
  { exists []. simpl. rewrite app_nil_r.
    repeat split; auto using sameField_refl. }
  cbn [fold_left filter forallb].
  destruct (scanLine_acc acc cur line) as (n1 & H1 & L1 & A1).
  rewrite H1.
  destruct (IH (acc ++ n1)%list (snd (scanLine ([], cur) line)))
    as (n2 & H2 & L2 & A2).
  exists (n1 ++ n2)%list. rewrite H2, app_assoc.
  split; [reflexivity|]. split.
  { rewrite length_app, L1, L2.
    destruct (isKey "serverPort" line); reflexivity. }
  intros k Hab. apply andb_prop in Hab. destruct Hab as [Ha Hb].
  apply negb_true_iff in Ha.
  destruct (A1 k Ha) as [e1 F1], (A2 k Hb) as [e2 F2]. split.
  - eapply sameField_trans; eassumption.
  - apply Forall_app. split; [exact F1|].
    eapply Forall_impl; [|exact F2]. simpl.
    intros r Hr. eapply sameField_trans; eassumption.
Qed.

(** X18: part_001 reads one record per line whose key is serverPort,
    whatever the value of that line or of any other is: no line makes the
    parse fail. *)
Theorem part001_one_record_per_port output :
  List.length (parseOutput output)
  = List.length (filter (isKey "serverPort")
                   (strings.Split output (ascii_of_nat 10))).
Proof.
  unfold parseOutput.
  destruct (scanLines_acc (strings.Split output (ascii_of_nat 10))
              [] zeroServerInfo) as (new & H & L & _).
  rewrite H. exact L.
Qed.

(** X19: a line of part_001's input counts only if it has exactly one
    colon: a line with none, or with a colon inside its value, changes
    neither the records nor the current record. *)
Theorem part001_skips_other_colon_counts st line :
  occurrences ":" line <> 1 -> scanLine st line = st.
Proof.
  intros H. unfold scanLine. destruct st as [acc cur].
  pose proof (Split_length line ":") as L.
  destruct (strings.Split line ":") as [|f0 [|f1 [|f2 l]]];
    try reflexivity.
  simpl in L. congruence.
Qed.

(** X20: part_001 never resets its current record: over lines none of
    which has the key [k], every record read has the field of [k] as the
    current record had it before, and so has the current record
    afterwards. *)
Theorem part001_fields_are_inherited k acc cur lines :
  forallb (fun l => negb (isKey k l)) lines = true ->
  exists new,
    fst (scanLines (acc, cur) lines) = (acc ++ new)%list
    /\ Forall (fun r => sameField k r cur) new
    /\ sameField k (snd (scanLines (acc, cur) lines)) cur.
Proof.
  intros Hk.
  destruct (scanLines_acc lines acc cur) as (new & H & _ & A).
  exists new. destruct (A k Hk). auto.
Qed.

End Parse001.

Section Run001.

Import Part001.

Variable p : Process.

Local Abbreviation step := (Part001.step p).
Local Abbreviation reachable := (Part001.reachable p).
Local Abbreviation steps := (Part001.steps p).
Local Abbreviation infos := (Part001.serverInfos p).
Local Abbreviation start := (Part001.start p).
Local Abbreviation lines := (linesFrom p 0 infos).
Local Abbreviation deliveredBy := (Part001.deliveredBy p).
Local Abbreviation lineOf := (Part001.lineOf p).
Local Abbreviation Inv1 := (Part001.Inv1 p).

Lemma count1_app f (a b : list Goroutine) :
  count f (a ++ b) = count f a + count f b.
Proof. induction a as [|g a IH]; simpl; [reflexivity | rewrite IH; lia]. Qed.

Lemma ranks1_app (a b : list Goroutine) : ranks (a ++ b) = ranks a + ranks b.
Proof. induction a as [|g a IH]; simpl; [reflexivity | rewrite IH; lia]. Qed.

Lemma deliveredBy1_app (a b : list Goroutine) :
  deliveredBy (a ++ b) = (deliveredBy a ++ deliveredBy b)%list.
Proof. apply flat_map_app. Qed.

Lemma start1_running rest :
  mpc start = MGo rest ->
  start = mkState (MGo infos) [] 0 CNotStarted (mkAggregator [] [] 0 []).
Proof.
  unfold Part001.start, serverInfos.
  destruct (cmd_Output p) as [output [e|]]; [discriminate|]. reflexivity.
Qed.

Lemma inv1_start rest : mpc start = MGo rest -> Inv1 start.
Proof.
  intros H. rewrite (start1_running H).
  constructor; simpl; auto; try lia; try discriminate.
Qed.

Ltac surgery1 :=
  repeat rewrite ?map_app, ?count1_app, ?ranks1_app, ?deliveredBy1_app,
                 ?length_app in *;
  simpl in *.

Lemma sent1_step (X : list string) line g pc D1 D2 :
  Permutation X (D1 ++ D2) ->
  line = lineOf g ->
  Permutation (X ++ [line]) (D1 ++ lineOf (setPC pc g) :: D2).
Proof.
  intros HP ->. change (lineOf (setPC pc g)) with (lineOf g).
  apply Permutation_trans with (lineOf g :: X)%list.
  - apply Permutation_sym, Permutation_cons_append.
  - apply Permutation_cons_app. exact HP.
Qed.

Ltac forall_surgery1 :=
  match goal with
  | H : Forall _ (_ ++ _ :: _) |- Forall _ (_ ++ _ :: _) =>
      apply Forall_app in H; destruct H as [? H];
      inversion H; subst; clear H;
      apply Forall_app; split; [assumption|];
      constructor; [|assumption]
  end.

Lemma inv1_step s s' : Inv1 s -> step s s' -> Inv1 s'.
Proof.
  intros [Hi Hid Hwg Hsent Hlog Hsend Hwait Hcl Hcd Hex] Hstep.
  inversion Hstep; subst; simpl in *.
  all: try match goal with
           | H : alive ?m |- _ => destruct m; simpl in H; try contradiction
           end.
  all: try (unfold drainBody in *;
            match goal with
            | |- context [logFile_Write ?q ?n ?l] =>
                destruct (logFile_Write q n l) eqn:Ew
            end).
  all: try match goal with
           | |- context [os_Create ?q ?n] => destruct (os_Create q n) eqn:Ec
           end.
  all: constructor; simpl.
  all: surgery1.
  all: try match goal with H : gpc _ = _ |- _ => rewrite H in * end.
  all: simpl in *.
  all: try lia.
  all: try assumption.
  all: try discriminate.
  all: try exact I.
  all: try (intro; discriminate).
  all: try (intros Hc; specialize (Hcd Hc); congruence).
  all: try (intros Hc; specialize (Hcd Hc); lia).
  all: try (rewrite <- app_assoc; assumption).
  all: try (rewrite app_nil_r; assumption).
  all: try (forall_surgery1; simpl; intros; try discriminate).
  all: try (intros ? Hs; inversion Hs; split; [reflexivity|]; left; reflexivity).
  all: try (rewrite app_nil_r in *; assumption).
  all: try match goal with
           | |- Permutation (_ ++ [_]) (_ ++ _ :: _) =>
               apply sent1_step; [assumption|];
               apply Forall_app in Hsend; destruct Hsend as [_ Hs];
               inversion Hs; subst; auto
           end.
  all: try (intros Hw; rewrite Hw in Ew; discriminate).
  all: try (intros Hw; rewrite (Hlog Hw); reflexivity).
  all: try (match goal with H : GSend _ = GSend _ |- _ =>
              inversion H; subst end; reflexivity).
  all: try (match goal with
            | H : probe _ ?g = Returned ?l, E : GSend _ = GSend _ |- _ =>
                inversion E; subst; unfold Part001.lineOf, probe in *;
                simpl;
                match goal with
                | H' : fst _ = Returned _ |- _ => rewrite H'
                end; reflexivity
            end).
  - rewrite Nat.add_1_r, seq_S, Hid. reflexivity.
  - apply Forall_app. split; [assumption|].
    constructor; [|constructor]. simpl. discriminate.
  - intros status Hs. inversion Hs. split; [reflexivity|]. right. right.
    exists e. split; [assumption|]. apply last_last.
  - intros status Hs. inversion Hs. split; [reflexivity|]. right. left.
    exists (writes a), line, e. split; [assumption|].
    change (console a ++ [line; writeFailed e])%list
      with (console a ++ [line] ++ [writeFailed e])%list.
    rewrite app_assoc. apply last_last.
Qed.

Lemma inv1_reachable rest s :
  mpc start = MGo rest -> reachable s -> Inv1 s.
Proof.
  intros H Hr. induction Hr; [exact (inv1_start H) | eauto using inv1_step].
Qed.

Lemma step1_measure s s' : step s s' -> Part001.measure s' < Part001.measure s.
Proof.
  intros Hstep. inversion Hstep; subst; unfold Part001.measure; simpl.
  all: try match goal with
           | H : alive ?m |- _ => destruct m; simpl in H; try contradiction
           end.
  all: try match goal with
           | |- context [os_Create ?q ?n] => destruct (os_Create q n)
           end.
  all: surgery1.
  all: try match goal with H : gpc _ = _ |- _ => rewrite H in * end.
  all: simpl; try lia.
  all: try (destruct cl; lia).
  all: try match goal with
           | |- context [drainBody ?q ?b ?l] =>
               destruct (snd (drainBody q b l)); destruct cl; simpl; lia
           end.
Qed.

Lemma steps1_measure k s s' :
  steps k s s' -> k + Part001.measure s' <= Part001.measure s.
Proof.
  induction 1 as [|k s s1 s2 Hs _ IH]; [lia|].
  apply step1_measure in Hs. lia.
Qed.

Lemma steps1_reachable k s s' : reachable s -> steps k s s' -> reachable s'.
Proof.
  intros Hr Hs. induction Hs; [assumption|].
  apply IHHs. econstructor; eassumption.
Qed.

Lemma count1_pick f (gs : list Goroutine) :
  0 < count f gs ->
  exists l1 g l2, gs = (l1 ++ g :: l2)%list /\ f (gpc g) = true.
Proof.
  induction gs as [|g gs IH]; simpl; [lia|].
  destruct (f (gpc g)) eqn:E.
  - intros _. exists [], g, gs. auto.
  - intros H. destruct IH as (l1 & g' & l2 & -> & Hf); [lia|].
    exists (g :: l1), g', l2. auto.
Qed.

Lemma lines1_of (gs : list Goroutine) : forall i,
  map gid gs = seq i (List.length gs) ->
  map lineOf gs = linesFrom p i (map ginfo gs).
Proof.
  induction gs as [|g gs IH]; intros i H; simpl in *; [reflexivity|].
  injection H as Hg Hrest. rewrite (IH (S i) Hrest).
  unfold Part001.lineOf, probe. simpl. rewrite Hg. reflexivity.
Qed.

Lemma all_delivered1 (gs : list Goroutine) :
  count unfinished gs = 0 ->
  deliveredBy gs = map lineOf gs
  /\ Forall (fun g => gpc g = GFinished) gs.
Proof.
  induction gs as [|g gs IH]; simpl; [auto|].
  destruct (gpc g) eqn:E; simpl; try lia.
  intros H. destruct (IH H) as [H1 H2]. rewrite H1. auto.
Qed.

(** A run of part_001 that is not over can take a step: no state is
    stuck. *)
Lemma progress1 s : Inv1 s -> final s \/ exists s', step s s'.
Proof.
  intros [Hi Hid Hwg Hsent Hlog Hsend Hwait Hcl Hcd Hex].
  destruct s as [m gs n cl a]. unfold final. simpl in *.
  destruct m as [[|info rest]| | | |]; auto; right.
  - eexists. apply step_watch.
  - eexists. apply step_go.
  - eexists. apply step_create.
  - destruct cl; [congruence| |eexists; apply step_end].
    destruct n as [|n]; [eexists; apply step_close; exact I|].
    destruct (@count1_pick unfinished gs) as (l1 & g & l2 & -> & Hf); [lia|].
    destruct (gpc g) eqn:Hpc; simpl in Hf; try discriminate.
    + eexists. eapply step_print; simpl; auto.
    + destruct (probe p g) as [line|msg] eqn:E.
      * eexists. eapply step_probe; simpl; eauto.
      * eexists. eapply step_panic; simpl; eauto.
    + eexists. eapply step_rendezvous; eauto.
    + eexists. eapply step_done; simpl; auto.
Qed.

(** X21: every run of part_001 is finite and never stuck short of the
    end of [main] or a panic; and when the log file can be created and
    written, [main] returns only after it has received, printed and
    logged the line of every record. *)
Theorem part001_run_completes rest k s :
  mpc start = MGo rest ->
  steps k start s ->
  k <= 5 * List.length infos + 5
  /\ (final s \/ exists s', step s s')
  /\ (os_Create p "connectinfo.log" = None ->
      (forall n line, logFile_Write p n line = None) ->
      forall status, mpc s = MExit status ->
        status = 0%Z
        /\ Forall (fun g => gpc g = GFinished) (goroutines s)
        /\ Permutation (seen (agg s)) lines
        /\ logFile (agg s) = seen (agg s)).
Proof.
  intros H Hs.
  assert (Hr : reachable s)
    by (eapply steps1_reachable; [constructor|eassumption]).
  pose proof (inv1_reachable H Hr) as HI.
  split; [|split].
  - apply steps1_measure in Hs. rewrite (start1_running H) in Hs.
    unfold Part001.measure in Hs. simpl in Hs. lia.
  - exact (progress1 HI).
  - intros Hc Hw status Hm.
    destruct HI as [Hi Hid Hwg Hsent Hlog Hsend Hwait Hcl Hcd Hex].
    destruct (Hex status Hm) as [Hst [Hclosed|[(n & line & e & E & _)|(e & E & _)]]];
      [|rewrite Hw in E; discriminate|rewrite Hc in E; discriminate].
    specialize (Hcd Hclosed). rewrite Hcd in Hwg.
    rewrite Hm in Hi. simpl in Hi. rewrite app_nil_r in Hi.
    destruct (@all_delivered1 (goroutines s)) as [Hd Hf]; [lia|].
    repeat split; auto.
    rewrite Hd, (@lines1_of _ _ Hid), Hi in Hsent. exact Hsent.
Qed.

Lemma launch_all rest : forall gs n a,
  reachable (mkState (MGo rest) gs n CNotStarted a) ->
  reachable
    (mkState MCreate (gs ++ launched (List.length gs) rest)%list
       (n + List.length rest) CWait a).
Proof.
  induction rest as [|info rest IH]; intros gs n a Hr; simpl.
  - rewrite app_nil_r, Nat.add_0_r.
    eapply reach_step; [exact Hr|apply step_watch].
  - assert (H1 : reachable
                   (mkState (MGo rest)
                      (gs ++ [mkGoroutine (List.length gs) info GPrint])%list
                      (S n) CNotStarted a))
      by (eapply reach_step; [exact Hr|apply step_go]).
    specialize (IH _ _ _ H1).
    rewrite length_app, <- app_assoc in IH. simpl in IH.
    rewrite Nat.add_1_r in IH.
    replace (n + S (List.length rest)) with (S n + List.length rest) by lia.
    exact IH.
Qed.

Lemma print_all l2 : forall l1 n a,
  Forall (fun g => gpc g = GPrint) l2 ->
  reachable (mkState MCreate (l1 ++ l2)%list n CWait a) ->
  exists a',
    reachable
      (mkState MCreate (l1 ++ map (setPC GProbe) l2)%list n CWait a').
Proof.
  induction l2 as [|g l2 IH]; intros l1 n a Hf Hr; simpl; [eauto|].
  inversion Hf as [|? ? Hg Hf']; subst.
  assert (Hp : reachable
                 (mkState MCreate (l1 ++ setPC GProbe g :: l2)%list n CWait
                    (say (printed (ginfo g)) a)))
    by (eapply reach_step; [exact Hr|apply step_print; simpl; auto]).
  change (l1 ++ setPC GProbe g :: l2)%list
    with (l1 ++ [setPC GProbe g] ++ l2)%list in Hp.
  rewrite app_assoc in Hp.
  destruct (IH _ _ _ Hf' Hp) as [a' Ha].
  exists a'. rewrite <- app_assoc in Ha. exact Ha.
Qed.

Lemma launched_print i l : Forall (fun g => gpc g = GPrint) (launched i l).
Proof. revert i. induction l; simpl; constructor; auto. Qed.

Lemma launched_infos i l :
  map ginfo (map (setPC GProbe) (launched i l)) = l
  /\ count probing (map (setPC GProbe) (launched i l)) = List.length l.
Proof.
  revert i. induction l as [|x l IH]; intros i; simpl; [auto|].
  destruct (IH (S i)) as [E1 E2]. rewrite E1, E2. auto.
Qed.

(** X22: nothing bounds the probes of part_001 that are under way at
    once: the state in which [main] has not yet created the log file and
    the goroutine of every record is about to resolve or dial is
    reachable. *)
Theorem part001_probes_all_at_once rest :
  mpc start = MGo rest ->
  exists s,
    reachable s
    /\ mpc s = MCreate
    /\ map ginfo (goroutines s) = infos
    /\ count probing (goroutines s) = List.length infos
    /\ seen (agg s) = [].
Proof.
  intros H.
  assert (Hr : reachable (mkState (MGo infos) [] 0 CNotStarted
                            (mkAggregator [] [] 0 [])))
    by (rewrite <- (start1_running H); constructor).
  apply launch_all in Hr. simpl in Hr.
  destruct (@print_all _ [] _ _ (launched_print 0 infos) Hr) as [a' Ha].
  simpl in Ha.
  assert (Hi : Inv1 (mkState MCreate (map (setPC GProbe) (launched 0 infos))
                       (List.length infos) CWait a'))
    by exact (inv1_reachable H Ha).
  destruct (launched_infos 0 infos) as [E1 E2].
  eexists. split; [exact Ha|]. simpl. repeat split; auto.
  pose proof (inv1_sent Hi) as Hp. pose proof (inv1_waiting Hi) as Hw.
  simpl in Hp, Hw.
  assert (Hd : forall gs, count delivered gs = 0 -> deliveredBy gs = []).
  { induction gs as [|g gs IHg]; simpl; [auto|].
    destruct (delivered (gpc g)); simpl; [lia|auto]. }
  rewrite (Hd _ Hw) in Hp. apply Permutation_nil. apply Permutation_sym.
  exact Hp.
Qed.

(** X23: part_001 creates its log file only after it has launched every
    probe; when that fails, [main] prints the error and returns without
    having received, printed or logged the line of any probe. *)
Theorem part001_create_failure_drops_results rest err s :
  mpc start = MGo rest ->
  os_Create p "connectinfo.log" = Some err ->
  reachable s ->
  mpc s <> MDrain
  /\ seen (agg s) = []
  /\ logFile (agg s) = []
  /\ (forall status, mpc s = MExit status ->
      status = 0%Z /\ last (console (agg s)) "" = createFailed err
      /\ map ginfo (goroutines s) = infos).
Proof.
  intros H Hc Hr.
  pose proof (inv1_reachable H Hr) as HI.
  assert (Hm : mpc s <> MDrain /\ seen (agg s) = [] /\ logFile (agg s) = []
               /\ (forall status, mpc s = MExit status ->
                   last (console (agg s)) "" = createFailed err)).
  { clear HI. induction Hr as [|s s' Hr IH Hstep].
    - rewrite (start1_running H). simpl.
      repeat split; try discriminate; auto.
    - destruct IH as (Hd & Hs & Hl & Hx).
      inversion Hstep; subst; simpl in *; try contradiction;
        try (rewrite Hc);
        try (destruct m; simpl in *; try contradiction);
        simpl; repeat split; auto; try discriminate; try congruence.
      intros; apply last_last. }
  destruct Hm as (Hd & Hs & Hl & Hx).
  split; [exact Hd|]. split; [exact Hs|]. split; [exact Hl|].
  intros status Hm. split; [exact (proj1 (inv1_exit HI Hm))|].
  split; [exact (Hx _ Hm)|].
  pose proof (inv1_infos HI) as Hi. rewrite Hm in Hi. simpl in Hi.
  rewrite app_nil_r in Hi. exact Hi.
Qed.

End Run001.

Section Probe001.

Variable w : World.
Variable info : ServerInfo.
Variable timeout : Z.

(** X24: the probe of part_001 first prints the host, then dials at most
    once and never waits: it dials exactly when the host holds a dot or
    resolves to an address, it closes the connection exactly when the dial
    succeeds, and it panics exactly when the resolver reports no error and
    no address. *)
Theorem part001_probe_dials_at_most_once :
  let o := fst (Part001.checkConnectivity w info timeout) in
  let tr := snd (Part001.checkConnectivity w info timeout) in
  hd_error tr = Some (EvPrintln ("ip的结果为: " ++ ServerIP info))
  /\ dials tr = match resolvedIP w info with Some _ => 1 | None => 0 end
  /\ selects tr = 0
  /\ connections tr = closes tr
  /\ (o = Panicked index_out_of_range <->
      strings.Contains (ServerIP info) "." = false
      /\ net_LookupIP w (ServerIP info) = ([], None))
  /\ (forall msg, o = Panicked msg -> msg = index_out_of_range).
Proof.
  unfold Part001.checkConnectivity, Part001.connect, resolvedIP.
  destruct (strings.Contains (ServerIP info) ".").
  - destruct (net_DialTimeout w 0 _ timeout) as [elapsed [e|]]; simpl;
      repeat split; try reflexivity; try discriminate;
      intros; try tauto; try discriminate.
    + destruct H; discriminate.
    + destruct H; discriminate.
  - destruct (net_LookupIP w (ServerIP info)) as [[|ip ips] [e|]]; simpl;
      try (destruct (net_DialTimeout w 0 _ timeout) as [elapsed [e'|]]; simpl);
      repeat split; try reflexivity; try discriminate;
      intros; try tauto; try discriminate;
      try (destruct H; discriminate);
      try (inversion H; reflexivity).
Qed.

End Probe001.

(** At [RetryCount = 3] the unreachable loopback target is dialled three
    times, with a wait before the second and the third dial. *)
Example exhausts_three_retries :
  Part000.checkConnectivity Sample.refusing Sample.loopback Part000.DefaultConfig =
  (Returned (Part000.mkCheckResult Sample.loopback false
               "connect: connection refused" 1700000000 1000000),
   [EvDialTimeout "127.0.0.1:9" 5000000000 1000000
      (Some "connect: connection refused");
    EvSelect 1000000000 false;
    EvDialTimeout "127.0.0.1:9" 5000000000 1000000
      (Some "connect: connection refused");
    EvSelect 1000000000 false;
    EvDialTimeout "127.0.0.1:9" 5000000000 1000000
      (Some "connect: connection refused")]).
Proof. reflexivity. Qed.

(** C2: at [RetryCount = 0] the probe of an unreachable target makes no
    connect attempt at all and panics at [lastErr.Error()]; it does not
    make the one attempt, nor return the failure, that the claim states. *)
Theorem zero_retry_count_makes_no_attempt :
  Part000.checkConnectivity Sample.refusing Sample.loopback Sample.noRetries =
  (Panicked nil_dereference, []).
Proof. reflexivity. Qed.

Lemma checkConnectivity_panics_without_retries_witness :
  (Part000.RetryCount Sample.noRetries <= 0)%Z
  /\ resolvedIP Sample.flaky Sample.bare <> None
  /\ fst (Part000.checkConnectivity Sample.flaky Sample.bare Sample.noRetries)
     = Panicked nil_dereference
  /\ dials (snd (Part000.checkConnectivity Sample.flaky Sample.bare
                   Sample.noRetries)) = 0.
Proof.
  assert (H1 : (Part000.RetryCount Sample.noRetries <= 0)%Z) by (simpl; lia).
  assert (H2 : resolvedIP Sample.flaky Sample.bare <> None)
    by (vm_compute; discriminate).
  split; [exact H1|]. split; [exact H2|].
  exact (checkConnectivity_panics_without_retries
           Sample.flaky Sample.bare Sample.noRetries H1 H2).
Defined.

Lemma duration_is_last_attempt_witness :
  Part000.checkConnectivity Sample.flaky Sample.bare Part000.DefaultConfig =
  (Returned (Part000.mkCheckResult Sample.bare true "" 1700000000 250000),
   [EvLookupIP "db-primary";
    EvDialTimeout "10.0.0.7:5432" 5000000000 1000000 (Some "i/o timeout");
    EvSelect 1000000000 false;
    EvDialTimeout "10.0.0.7:5432" 5000000000 2000000 (Some "i/o timeout");
    EvSelect 1000000000 false;
    EvDialTimeout "10.0.0.7:5432" 5000000000 250000 None;
    EvClose])
  /\ Part000.Duration
       (Part000.mkCheckResult Sample.bare true "" 1700000000 250000) = 250000%Z.
Proof.
  assert (H : Part000.checkConnectivity Sample.flaky Sample.bare
                Part000.DefaultConfig =
              (Returned (Part000.mkCheckResult Sample.bare true ""
                           1700000000 250000),
               [EvLookupIP "db-primary";
                EvDialTimeout "10.0.0.7:5432" 5000000000 1000000
                  (Some "i/o timeout");
                EvSelect 1000000000 false;
                EvDialTimeout "10.0.0.7:5432" 5000000000 2000000
                  (Some "i/o timeout");
                EvSelect 1000000000 false;
                EvDialTimeout "10.0.0.7:5432" 5000000000 250000 None;
                EvClose])) by reflexivity.
  split; [exact H|].
  exact (proj1 (duration_is_last_attempt _ _ _ H)).
Defined.

(** C4, refuted as stated: under the default three attempts, the probe
    of a host whose lookup fails looks it up once and stops, and the probe
    of a host that resolves and refuses every connection looks it up once
    for its three dials. *)
Lemma resolution_not_retried :
  ~ Spec.resolves_on_every_attempt Sample.refusing Sample.bare
      Part000.DefaultConfig
  /\ ~ Spec.resolves_on_every_attempt Sample.unreachable Sample.bare
        Part000.DefaultConfig
  /\ dials (snd (Part000.checkConnectivity Sample.refusing Sample.bare
                   Part000.DefaultConfig)) = 0
  /\ dials (snd (Part000.checkConnectivity Sample.unreachable Sample.bare
                   Part000.DefaultConfig)) = 3.
Proof.
  unfold Spec.resolves_on_every_attempt.
  repeat split; try reflexivity; vm_compute; discriminate.
Qed.

Lemma resolution_is_done_once_witness :
  strings.Contains (ServerIP Sample.bare) "." = false
  /\ snd (net_LookupIP Sample.refusing (ServerIP Sample.bare))
     = Some "lookup: no such host"
  /\ Part000.checkConnectivity Sample.refusing Sample.bare Part000.DefaultConfig =
     (Returned (Part000.mkCheckResult Sample.bare false
                  (Part000.dnsFailed "lookup: no such host")
                  (time_Now Sample.refusing) 0),
      [EvLookupIP (ServerIP Sample.bare)]).
Proof.
  assert (H1 : strings.Contains (ServerIP Sample.bare) "." = false)
    by reflexivity.
  assert (H2 : snd (net_LookupIP Sample.refusing (ServerIP Sample.bare))
               = Some "lookup: no such host") by reflexivity.
  split; [exact H1|]. split; [exact H2|].
  exact (proj2 (resolution_is_done_once Sample.refusing Sample.bare
                  Part000.DefaultConfig) _ H1 H2).
Defined.

(** C3, refuted as stated: example.com is no numeric IP, and its probe
    makes no lookup. *)
Lemma dotted_name_not_looked_up :
  Spec.isNumericIP (ServerIP Sample.dotted) = false
  /\ ~ Spec.lookup_iff_not_numeric Sample.flaky Sample.dotted
         Part000.DefaultConfig.
Proof.
  split; [reflexivity|].
  unfold Spec.lookup_iff_not_numeric. vm_compute. discriminate.
Qed.

Lemma lookup_iff_no_dot_witness :
  resolvedIP Sample.flaky Sample.bare = Some "10.0.0.7"
  /\ Forall (eq (hostPort "10.0.0.7" (ServerPort Sample.bare)))
       (dialAddresses
          (snd (Part000.checkConnectivity Sample.flaky Sample.bare
                  Part000.DefaultConfig)))
  /\ dialAddresses
       (snd (Part001.checkConnectivity Sample.flaky Sample.bare 5000000000))
     = [hostPort "10.0.0.7" (ServerPort Sample.bare)].
Proof.
  assert (H : resolvedIP Sample.flaky Sample.bare = Some "10.0.0.7")
    by reflexivity.
  split; [exact H|].
  exact (proj2 (proj2 (lookup_iff_no_dot Sample.flaky Sample.bare
                         Part000.DefaultConfig 5000000000)) _ H).
Defined.

Import Sample.

(** ** Runs of the sample processes *)

Lemma sample_run :
  Part000.steps join stamp nanos process 10
    (Part000.start join stamp process) finished.
Proof.
  replace (Part000.start join stamp process) with
    (Part000.mkState (Part000.MDispatch [Sample.loopback]) [] 0 0 []
       Part000.CNotStarted
       (Part000.agg (Part000.start join stamp process))) by reflexivity.
  eapply Part000.steps_S; [apply Part000.step_go|].
  eapply Part000.steps_S; [apply Part000.step_watch|].
  eapply Part000.steps_S;
    [eapply Part000.step_acquire with (l1 := []) (l2 := []);
     simpl; auto; lia|].
  eapply Part000.steps_S;
    [eapply Part000.step_probe with (l1 := []) (l2 := []);
     simpl; auto; reflexivity|].
  eapply Part000.steps_S;
    [eapply Part000.step_send with (l1 := []) (l2 := []); simpl; auto|].
  eapply Part000.steps_S;
    [eapply Part000.step_release with (l1 := []) (l2 := []); simpl; auto|].
  eapply Part000.steps_S;
    [eapply Part000.step_done with (l1 := []) (l2 := []); simpl; auto|].
  eapply Part000.steps_S; [apply Part000.step_close|].
  eapply Part000.steps_S; [apply Part000.step_receive|].
  eapply Part000.steps_S; [apply Part000.step_summary|].
  apply Part000.steps_O.
Qed.

Lemma sample_run3 :
  Checkip3.reachable Part000.parseServerInfo line001 stamp process3 stopped3.
Proof.
  eapply Checkip3.reach_step.
  eapply Checkip3.reach_step.
  eapply Checkip3.reach_step.
  eapply Checkip3.reach_step.
  eapply Checkip3.reach_step.
  eapply Checkip3.reach_step.
  eapply Checkip3.reach_step.
  apply Checkip3.reach_start.
  - replace (Checkip3.start Part000.parseServerInfo stamp process3) with
      (Checkip3.mkState (Checkip3.MAdd [Sample.loopback; Sample.bare]) [] 0 0
         Checkip3.CNotStarted (Checkip3.mkAggregator [] [] 0 []))
      by reflexivity.
    apply Checkip3.step_add.
  - apply Checkip3.step_go. unfold Checkip3.concurrentLimit. lia.
  - apply Checkip3.step_add.
  - apply Checkip3.step_go. unfold Checkip3.concurrentLimit. lia.
  - apply Checkip3.step_watch.
  - eapply Checkip3.step_probe with (l1 := []); simpl; auto.
  - unfold stopped3.
    change (Checkip3.MExit 0) with
      (if snd (Checkip3.drainBody process3 (Checkip3.mkAggregator [] [] 0 [])
                 (line001 0 Sample.loopback))
       then Checkip3.MExit 0 else Checkip3.MDrain).
    eapply Checkip3.step_rendezvous with (l1 := []). reflexivity.
Qed.

(** ** Both programs together *)

(** C5 (as the code has it): in part_000 and in checkip3.go alike, at
    most [ConcurrentLimit] goroutines hold a slot of the semaphore at any
    instant, and [results] is closed only once every record has its
    goroutine and every goroutine has finished.  In part_000 every run is
    finite, never stuck, and its drain loop ends on the closed channel
    having received the result of every probe.  In checkip3.go the drain
    loop has received every line when it ends on the closed channel, and
    it ends otherwise only by the [return] that follows a failed write to
    the log file. *)
Theorem slots_bounded_and_closed_after_all
    (filepath_Join : string -> string -> string)
    (time_Format : Z -> string -> string) (Duration_String : Z -> string)
    (parseServerInfo3 : FileSystem -> string -> list ServerInfo * option error)
    (probeLine : nat -> ServerInfo -> string)
    (p : Part000.Process) (p3 : Checkip3.Process) :
  (forall rest k s,
     Part000.mpc (Part000.start filepath_Join time_Format p)
       = Part000.MDispatch rest ->
     Part000.steps filepath_Join time_Format Duration_String p k
       (Part000.start filepath_Join time_Format p) s ->
     (Part000.count Part000.probing (Part000.goroutines s)
        <= Part000.count Part000.holdsSlot (Part000.goroutines s)
      /\ (Z.of_nat (Part000.count Part000.holdsSlot (Part000.goroutines s))
          <= Part000.ConcurrentLimit Part000.DefaultConfig)%Z)
     /\ (Part000.closer s = Part000.CClosed ->
         map Part000.ginfo (Part000.goroutines s)
           = Part000.serverInfos filepath_Join p
         /\ Forall (fun g => Part000.gpc g = Part000.GFinished)
              (Part000.goroutines s))
     /\ k <= 8 * List.length (Part000.serverInfos filepath_Join p) + 4
     /\ (Part000.final s
         \/ exists s',
              Part000.step filepath_Join time_Format Duration_String p
                Part000.DefaultConfig s s')
     /\ (forall status,
           Part000.mpc s = Part000.MExit status ->
           Part000.closer s = Part000.CClosed
           /\ Part000.results s = []
           /\ Permutation (map Returned (Part000.seen (Part000.agg s)))
                (Part000.probes filepath_Join p)))
  /\ (forall rest s,
        Checkip3.mpc (Checkip3.start parseServerInfo3 time_Format p3)
          = Checkip3.MAdd rest ->
        Checkip3.reachable parseServerInfo3 probeLine time_Format p3 s ->
        Checkip3.count Checkip3.holdsSlot (Checkip3.goroutines s)
          <= Checkip3.concurrentLimit
        /\ (Checkip3.closer s = Checkip3.CClosed ->
            map Checkip3.ginfo (Checkip3.goroutines s)
              = Checkip3.serverInfos parseServerInfo3 p3
            /\ Forall (fun g => Checkip3.gpc g = Checkip3.GFinished)
                 (Checkip3.goroutines s)
            /\ Permutation (Checkip3.seen (Checkip3.agg s))
                 (Checkip3.linesFrom probeLine 0
                    (Checkip3.serverInfos parseServerInfo3 p3)))
        /\ (forall status,
              Checkip3.mpc s = Checkip3.MExit status ->
              status = 0%Z
              /\ (Checkip3.closer s = Checkip3.CClosed
                  \/ exists err,
                       last (Checkip3.console (Checkip3.agg s)) ""
                       = Checkip3.writeFailed err))).
Proof.
  split.
  - intros rest k s H Hs. exact (part000_slots_and_close H Hs).
  - intros rest s H Hr. exact (checkip3_slots_and_close H Hr).
Qed.

(** C5, refuted as stated: on two records and a full disk, [main] of
    checkip3.go leaves its drain loop after one line, with the second
    probe still in flight and [results] not closed. *)
Lemma checkip3_drain_ends_early :
  ~ Spec.drain_sees_all Part000.parseServerInfo line001 stamp process3.
Proof.
  intros H. specialize (H stopped3 sample_run3 0%Z eq_refl).
  vm_compute in H. discriminate.
Qed.

Lemma slots_bounded_and_closed_after_all_witness :
  Part000.mpc (Part000.start join stamp process)
    = Part000.MDispatch [Sample.loopback]
  /\ Part000.steps join stamp nanos process 10
       (Part000.start join stamp process) finished
  /\ Checkip3.mpc (Checkip3.start Part000.parseServerInfo stamp process3)
     = Checkip3.MAdd [Sample.loopback; Sample.bare]
  /\ Checkip3.reachable Part000.parseServerInfo line001 stamp process3 stopped3
  /\ Permutation (map Returned (Part000.seen (Part000.agg finished)))
       (Part000.probes join process)
  /\ Checkip3.count Checkip3.holdsSlot (Checkip3.goroutines stopped3)
     <= Checkip3.concurrentLimit.
Proof.
  assert (H1 : Part000.mpc (Part000.start join stamp process)
               = Part000.MDispatch [Sample.loopback]) by reflexivity.
  assert (H3 : Checkip3.mpc (Checkip3.start Part000.parseServerInfo stamp process3)
               = Checkip3.MAdd [Sample.loopback; Sample.bare]) by reflexivity.
  pose proof sample_run as H2. pose proof sample_run3 as H4.
  destruct (slots_bounded_and_closed_after_all join stamp nanos
              Part000.parseServerInfo line001 process process3) as [P0 P3].
  repeat split; try assumption.
  - destruct (P0 _ _ _ H1 H2) as (_ & _ & _ & _ & Hex).
    exact (proj2 (proj2 (Hex 0%Z eq_refl))).
  - exact (proj1 (P3 _ _ H3 H4)).
Defined.

Lemma one_result_per_record_witness :
  Part000.mpc (Part000.start join stamp process)
    = Part000.MDispatch [Sample.loopback]
  /\ (forall (i : nat) (host : string),
        net_LookupIP (Part000.probeWorld process i) host <> ([], None))
  /\ Part000.steps join stamp nanos process 10
       (Part000.start join stamp process) finished
  /\ Permutation (map Returned (Part000.seen (Part000.agg finished)))
       (Part000.probes join process)
  /\ (Part000.successCount (Part000.agg finished)
      + Part000.failCount (Part000.agg finished))%Z = 1%Z
  /\ last (Part000.console (Part000.agg finished)) "" =
     newline ++ "检查完成！" ++ newline
     ++ "总计: 1" ++ newline ++ "成功: 0" ++ newline ++ "失败: 1" ++ newline
     ++ "总耗时: 3000000000ns" ++ newline
     ++ "结果已保存至: connectinfo_1700000000.log".
Proof.
  assert (H1 : Part000.mpc (Part000.start join stamp process)
               = Part000.MDispatch [Sample.loopback]) by reflexivity.
  assert (H2 : forall (i : nat) (host : string),
             net_LookupIP (Part000.probeWorld process i) host <> ([], None))
    by (intros i host; simpl; discriminate).
  pose proof sample_run as H3.
  destruct (one_result_per_record H1 H2 H3) as (_ & _ & Hfin).
  destruct (Hfin eq_refl) as (HP & _ & _ & _ & Hsum & _ & Htext).
  repeat split; assumption.
Defined.

(** C7, refuted as stated: on a full disk the drain loop of part_000
    prints no line that carries the write error, and the drain loop of
    checkip3.go stops at the first of two lines. *)
Lemma write_error_neither_surfaced_nor_survived :
  Spec.surfaced
    (Part000.console
       (Part000.drain stamp nanos diskFull
          (Part000.agg (Part000.start join stamp diskFull)) [refusal]))
    "no space left on device" = false
  /\ Checkip3.seen
       (Checkip3.drain process3 (Checkip3.mkAggregator [] [] 0 [])
          ["first"; "second"]) = ["first"].
Proof. split; reflexivity. Qed.

Lemma write_failure_handling_witness :
  Checkip3.logFile_Write process3 0 "first" = Some "no space left on device"
  /\ Checkip3.console
       (Checkip3.drain process3 (Checkip3.mkAggregator [] [] 0 [])
          ([] ++ "first" :: ["second"]))
     = ([] ++ [] ++ ["first"; Checkip3.writeFailed "no space left on device"])%list.
Proof.
  assert (H0 : forall i, i < List.length (@nil string) ->
               Checkip3.logFile_Write process3
                 (Checkip3.writes (Checkip3.mkAggregator [] [] 0 []) + i)
                 (nth i [] "") = None)
    by (intros i Hi; simpl in Hi; lia).
  assert (H1 : Checkip3.logFile_Write process3
                 (Checkip3.writes (Checkip3.mkAggregator [] [] 0 [])
                  + List.length (@nil string)) "first"
               = Some "no space left on device") by reflexivity.
  split; [reflexivity|].
  exact (proj1 (proj2 (write_failure_handling stamp nanos diskFull process3)
                  [] "first" ["second"] (Checkip3.mkAggregator [] [] 0 [])
                  "no space left on device" H0 H1)).
Defined.

(** C8, refuted as stated: in the directory conf, where one of the two
    config files is malformed, the loader of checkip3.go does not return
    the record of the file that parses. *)
Lemma checkip3_loader_aborts :
  ~ Spec.skips_failing_files (Part000.parseServerInfo disk)
      ["conf/web.conf"; "conf/bad.conf"]
      (Checkip3.parseAllConfigFiles Part000.parseServerInfo disk "conf").
Proof.
  unfold Spec.skips_failing_files. intros H.
  assert (Hv : Spec.validRecords (Part000.parseServerInfo disk)
                 ["conf/web.conf"; "conf/bad.conf"] <> [])
    by (vm_compute; discriminate).
  specialize (H Hv). vm_compute in H. discriminate.
Qed.

Lemma loaders_on_failing_files_witness :
  os_ReadDir disk "conf" =
    ([mkDirEntry "web.conf" false; mkDirEntry "notes.txt" false;
      mkDirEntry "bad.conf" false; mkDirEntry "old.conf" true], None)
  /\ fst (fst (Part000.parseAllConfigFiles join disk "conf")) = [Sample.loopback]
  /\ Checkip3.parseAllConfigFiles Part000.parseServerInfo disk "conf" =
     ([], Some ("error parsing file conf/bad.conf: "
                ++ "解析 serverID 失败 one: " ++ strconv.syntaxError "one")).
Proof.
  assert (H : os_ReadDir disk "conf" =
              ([mkDirEntry "web.conf" false; mkDirEntry "notes.txt" false;
                mkDirEntry "bad.conf" false; mkDirEntry "old.conf" true], None))
    by reflexivity.
  destruct (loaders_on_failing_files join Part000.parseServerInfo disk "conf")
    as (L0 & _ & L3).
  split; [exact H|]. split.
  - rewrite (proj1 (L0 _ H)). reflexivity.
  - rewrite (L3 _ H). reflexivity.
Defined.


(** ** The further properties on the samples *)

Lemma success_iff_connection_closed_witness :
  Part000.checkConnectivity Sample.flaky Sample.bare Part000.DefaultConfig
    = (Returned Sample.answer, Sample.answerTrace)
  /\ connections Sample.answerTrace = closes Sample.answerTrace
  /\ closes Sample.answerTrace = 1.
Proof.
  assert (H : Part000.checkConnectivity Sample.flaky Sample.bare
                Part000.DefaultConfig
              = (Returned Sample.answer, Sample.answerTrace)) by reflexivity.
  destruct (@success_iff_connection_closed _ _ _ _ _ H) as (H1 & H2 & _).
  split; [exact H|]. split; [exact H1|exact H2].
Defined.

Lemma result_names_its_record_witness :
  Part000.checkConnectivity Sample.flaky Sample.bare Part000.DefaultConfig
    = (Returned Sample.answer, Sample.answerTrace)
  /\ Part000.Info Sample.answer = Sample.bare
  /\ Part000.CheckTime Sample.answer = time_Now Sample.flaky.
Proof.
  assert (H : Part000.checkConnectivity Sample.flaky Sample.bare
                Part000.DefaultConfig
              = (Returned Sample.answer, Sample.answerTrace)) by reflexivity.
  split; [exact H|].
  exact (@result_names_its_record _ _ _ _ _ H).
Defined.

Lemma first_success_ends_probe_witness :
  resolvedIP Sample.flaky Sample.bare = Some "10.0.0.7"
  /\ Part000.checkConnectivity Sample.flaky Sample.bare Part000.DefaultConfig
     = (Returned
          (Part000.mkCheckResult Sample.bare true "" (time_Now Sample.flaky)
             (fst (net_DialTimeout Sample.flaky 2
                     (hostPort "10.0.0.7" (ServerPort Sample.bare))
                     (Part000.Timeout Part000.DefaultConfig)))),
        (lookupOf Sample.bare
         ++ attempts Sample.flaky Part000.DefaultConfig
              (hostPort "10.0.0.7" (ServerPort Sample.bare)) 0 3
         ++ [EvClose])%list).
Proof.
  assert (H1 : resolvedIP Sample.flaky Sample.bare = Some "10.0.0.7")
    by reflexivity.
  assert (H2 : 2 < Z.to_nat (Part000.RetryCount Part000.DefaultConfig))
    by (simpl; lia).
  assert (H3 : forall j, j <= 2 ->
               (0 <? j)%nat && ctx_Done Sample.flaky j = false)
    by (intros j _; simpl; apply andb_false_r).
  assert (H4 : forall j, j < 2 ->
               snd (net_DialTimeout Sample.flaky j
                      (hostPort "10.0.0.7" (ServerPort Sample.bare))
                      (Part000.Timeout Part000.DefaultConfig)) <> None)
    by (intros [|[|j]] Hj; simpl; try discriminate; lia).
  assert (H5 : snd (net_DialTimeout Sample.flaky 2
                      (hostPort "10.0.0.7" (ServerPort Sample.bare))
                      (Part000.Timeout Part000.DefaultConfig)) = None)
    by reflexivity.
  split; [exact H1|].
  exact (@first_success_ends_probe Sample.flaky Sample.bare
           Part000.DefaultConfig "10.0.0.7" 2 H1 H2 H3 H4 H5).
Defined.

Lemma cancellation_ends_probe_witness :
  ctx_Done Sample.impatient 1 = true
  /\ Part000.checkConnectivity Sample.impatient Sample.loopback
       Part000.DefaultConfig
     = (Returned
          (Part000.mkCheckResult Sample.loopback false Part000.cancelledMsg
             (time_Now Sample.impatient)
             (fst (net_DialTimeout Sample.impatient (1 - 1)
                     (hostPort "127.0.0.1" (ServerPort Sample.loopback))
                     (Part000.Timeout Part000.DefaultConfig)))),
        (lookupOf Sample.loopback
         ++ attempts Sample.impatient Part000.DefaultConfig
              (hostPort "127.0.0.1" (ServerPort Sample.loopback)) 0 1
         ++ [EvSelect (Part000.RetryDelay Part000.DefaultConfig) true])%list).
Proof.
  assert (H1 : resolvedIP Sample.impatient Sample.loopback = Some "127.0.0.1")
    by reflexivity.
  assert (H2 : 0 < 1 < Z.to_nat (Part000.RetryCount Part000.DefaultConfig))
    by (simpl; lia).
  assert (H3 : forall j, j < 1 ->
               (0 <? j)%nat && ctx_Done Sample.impatient j = false)
    by (intros [|j] Hj; [reflexivity|lia]).
  assert (H4 : forall j, j < 1 ->
               snd (net_DialTimeout Sample.impatient j
                      (hostPort "127.0.0.1" (ServerPort Sample.loopback))
                      (Part000.Timeout Part000.DefaultConfig)) <> None)
    by (intros j _; simpl; discriminate).
  assert (H5 : ctx_Done Sample.impatient 1 = true) by reflexivity.
  split; [exact H5|].
  exact (@cancellation_ends_probe Sample.impatient Sample.loopback
           Part000.DefaultConfig "127.0.0.1" 1 H1 H2 H3 H4 H5).
Defined.

Lemma complete_blocks_parse_independently_witness :
  Part000.scanLoop ([], zeroServerInfo)
    ["appName: web"; "serverIP: 127.0.0.1"; "serverID: 1"; "serverPort: 9"]
  = inl ([Sample.loopback], zeroServerInfo)
  /\ Part000.scanLoop ([], zeroServerInfo)
       (["appName: web"; "serverIP: 127.0.0.1"; "serverID: 1";
         "serverPort: 9"] ++ ["serverID: one"])
     = match Part000.scanLoop ([], zeroServerInfo) ["serverID: one"] with
       | inl (r2, c) => inl (([Sample.loopback] ++ r2)%list, c)
       | inr e => inr e
       end.
Proof.
  assert (H : Part000.scanLoop ([], zeroServerInfo)
                ["appName: web"; "serverIP: 127.0.0.1"; "serverID: 1";
                 "serverPort: 9"]
              = inl ([Sample.loopback], zeroServerInfo)) by reflexivity.
  split; [exact H|].
  exact (@complete_blocks_parse_independently _ ["serverID: one"] _ H).
Defined.

Lemma appName_is_not_inherited_witness :
  keyLines "appName" ["serverPort: 9"; "serverPort: 80"] = 0
  /\ exists new,
       [Sample.loopback;
        mkServerInfo "db" "db-primary" 3 9; mkServerInfo "" "" 0 80]
       = ([Sample.loopback] ++ new)%list
       /\ match new with
          | [] => AppName zeroServerInfo = AppName Sample.bare
          | r :: rest =>
              AppName r = AppName Sample.bare
              /\ Forall (fun r' => AppName r' = "") rest
              /\ AppName zeroServerInfo = ""
          end.
Proof.
  assert (H1 : keyLines "appName" ["serverPort: 9"; "serverPort: 80"] = 0)
    by reflexivity.
  assert (H2 : Part000.scanLoop ([Sample.loopback], Sample.bare)
                 ["serverPort: 9"; "serverPort: 80"]
               = inl ([Sample.loopback;
                       mkServerInfo "db" "db-primary" 3 9;
                       mkServerInfo "" "" 0 80], zeroServerInfo))
    by reflexivity.
  split; [exact H1|].
  exact (@appName_is_not_inherited _ _ _ _ _ H1 H2).
Defined.

Lemma only_conf_files_are_read_witness :
  os_Open Sample.disk "conf/notes.txt"
    <> os_Open Sample.annotated "conf/notes.txt"
  /\ Part000.parseAllConfigFiles Sample.join Sample.disk "conf"
     = Part000.parseAllConfigFiles Sample.join Sample.annotated "conf".
Proof.
  assert (H1 : os_ReadDir Sample.disk "conf" =
               ([mkDirEntry "web.conf" false; mkDirEntry "notes.txt" false;
                 mkDirEntry "bad.conf" false; mkDirEntry "old.conf" true],
                None)) by reflexivity.
  assert (H2 : os_ReadDir Sample.annotated "conf" =
               ([mkDirEntry "web.conf" false; mkDirEntry "notes.txt" false;
                 mkDirEntry "bad.conf" false; mkDirEntry "old.conf" true],
                None)) by reflexivity.
  assert (H3 : forall e,
             In e [mkDirEntry "web.conf" false; mkDirEntry "notes.txt" false;
                   mkDirEntry "bad.conf" false; mkDirEntry "old.conf" true] ->
             IsDir e = false ->
             strings.HasSuffix (Name e) ".conf" = true ->
             os_Open Sample.disk (Sample.join "conf" (Name e))
             = os_Open Sample.annotated (Sample.join "conf" (Name e))).
  { intros e [<-|[<-|[<-|[<-|[]]]]] Hd Hs;
      try reflexivity; vm_compute in Hs; discriminate. }
  split; [vm_compute; discriminate|].
  exact (@only_conf_files_are_read Sample.join Sample.disk Sample.annotated
           "conf" _ H1 H2 H3).
Defined.

Lemma sample_sending :
  Part000.reachable Sample.join Sample.stamp Sample.nanos Sample.process
    Sample.aboutToSend.
Proof.
  eapply Part000.reach_step.
  eapply Part000.reach_step.
  eapply Part000.reach_step.
  eapply Part000.reach_step.
  apply Part000.reach_start.
  - replace (Part000.start Sample.join Sample.stamp Sample.process) with
      (Part000.mkState (Part000.MDispatch [Sample.loopback]) [] 0 0 []
         Part000.CNotStarted
         (Part000.agg (Part000.start Sample.join Sample.stamp Sample.process)))
      by reflexivity.
    apply Part000.step_go.
  - apply Part000.step_watch.
  - eapply Part000.step_acquire with (l1 := []) (l2 := []);
      simpl; auto; lia.
  - eapply Part000.step_probe with (l1 := []) (l2 := []);
      simpl; auto; reflexivity.
Qed.

Lemma send_never_blocks_witness :
  Part000.reachable Sample.join Sample.stamp Sample.nanos Sample.process
    Sample.aboutToSend
  /\ List.length (Part000.results Sample.aboutToSend)
     < List.length (Part000.serverInfos Sample.join Sample.process).
Proof.
  assert (H1 : Part000.mpc (Part000.start Sample.join Sample.stamp
                              Sample.process)
               = Part000.MDispatch [Sample.loopback]) by reflexivity.
  pose proof sample_sending as H2.
  assert (H3 : Part000.alive (Part000.mpc Sample.aboutToSend)) by exact I.
  assert (H4 : Part000.goroutines Sample.aboutToSend
               = ([] ++ Part000.mkGoroutine 0 Sample.loopback
                          (Part000.GSend Sample.refusal) :: [])%list)
    by reflexivity.
  assert (H5 : Part000.gpc (Part000.mkGoroutine 0 Sample.loopback
                              (Part000.GSend Sample.refusal))
               = Part000.GSend Sample.refusal) by reflexivity.
  split; [exact H2|].
  exact (proj1 (@send_never_blocks Sample.join Sample.stamp Sample.nanos
                  Sample.process _ _ _ _ _ _ H1 H2 H3 H4 H5)).
Defined.

Lemma sample_finished :
  Part000.reachable Sample.join Sample.stamp Sample.nanos Sample.process
    Sample.finished.
Proof.
  eapply steps_reachable; [apply Part000.reach_start|].
  replace (Part000.start Sample.join Sample.stamp Sample.process) with
    (Part000.mkState (Part000.MDispatch [Sample.loopback]) [] 0 0 []
       Part000.CNotStarted
       (Part000.agg (Part000.start Sample.join Sample.stamp Sample.process)))
    by reflexivity.
  eapply Part000.steps_S; [apply Part000.step_go|].
  eapply Part000.steps_S; [apply Part000.step_watch|].
  eapply Part000.steps_S;
    [eapply Part000.step_acquire with (l1 := []) (l2 := []);
     simpl; auto; lia|].
  eapply Part000.steps_S;
    [eapply Part000.step_probe with (l1 := []) (l2 := []);
     simpl; auto; reflexivity|].
  eapply Part000.steps_S;
    [eapply Part000.step_send with (l1 := []) (l2 := []); simpl; auto|].
  eapply Part000.steps_S;
    [eapply Part000.step_release with (l1 := []) (l2 := []); simpl; auto|].
  eapply Part000.steps_S;
    [eapply Part000.step_done with (l1 := []) (l2 := []); simpl; auto|].
  eapply Part000.steps_S; [apply Part000.step_close|].
  eapply Part000.steps_S; [apply Part000.step_receive|].
  eapply Part000.steps_S; [apply Part000.step_summary|].
  apply Part000.steps_O.
Qed.

Lemma log_file_echoes_console_witness :
  Part000.mpc Sample.finished = Part000.MExit 0
  /\ Part000.console (Part000.agg Sample.finished)
     = (snd (Part000.parsed Sample.join Sample.process)
        ++ Part000.startLine
             (List.length (Part000.serverInfos Sample.join Sample.process))
           :: Part000.logFile (Part000.agg Sample.finished))%list.
Proof.
  assert (H1 : Part000.mpc (Part000.start Sample.join Sample.stamp
                              Sample.process)
               = Part000.MDispatch [Sample.loopback]) by reflexivity.
  assert (H2 : forall n line,
             Part000.logFile_Write Sample.process n line = None)
    by (intros n line; reflexivity).
  pose proof sample_finished as H3.
  assert (H4 : Part000.mpc Sample.finished = Part000.MExit 0) by reflexivity.
  split; [exact H4|].
  exact (proj2 (@log_file_echoes_console Sample.join Sample.stamp Sample.nanos
                  Sample.process _ _ _ H1 H2 H3 H4)).
Defined.

Lemma sample_steps3 :
  Checkip3.steps Sample.line001 Sample.process3 7
    (Checkip3.start Part000.parseServerInfo Sample.stamp Sample.process3)
    Sample.stopped3.
Proof.
  replace (Checkip3.start Part000.parseServerInfo Sample.stamp Sample.process3)
    with (Checkip3.mkState (Checkip3.MAdd [Sample.loopback; Sample.bare])
            [] 0 0 Checkip3.CNotStarted (Checkip3.mkAggregator [] [] 0 []))
    by reflexivity.
  eapply Checkip3.steps_S; [apply Checkip3.step_add|].
  eapply Checkip3.steps_S;
    [apply Checkip3.step_go; unfold Checkip3.concurrentLimit; lia|].
  eapply Checkip3.steps_S; [apply Checkip3.step_add|].
  eapply Checkip3.steps_S;
    [apply Checkip3.step_go; unfold Checkip3.concurrentLimit; lia|].
  eapply Checkip3.steps_S; [apply Checkip3.step_watch|].
  eapply Checkip3.steps_S;
    [eapply Checkip3.step_probe with (l1 := []); simpl; auto|].
  eapply Checkip3.steps_S;
    [eapply Checkip3.step_rendezvous with (l1 := []); reflexivity|].
  apply Checkip3.steps_O.
Qed.

Lemma small_batches_complete_witness :
  Checkip3.steps Sample.line001 Sample.process3 7
    (Checkip3.start Part000.parseServerInfo Sample.stamp Sample.process3)
    Sample.stopped3
  /\ 7 <= 6 * List.length
            (Checkip3.serverInfos Part000.parseServerInfo Sample.process3) + 4
  /\ ((exists s', Checkip3.step Sample.line001 Sample.process3
                    Sample.stopped3 s')
      \/ exists status, Checkip3.mpc Sample.stopped3 = Checkip3.MExit status).
Proof.
  assert (H1 : Checkip3.mpc
                 (Checkip3.start Part000.parseServerInfo Sample.stamp
                    Sample.process3)
               = Checkip3.MAdd [Sample.loopback; Sample.bare]) by reflexivity.
  assert (H2 : List.length
                 (Checkip3.serverInfos Part000.parseServerInfo Sample.process3)
               <= Checkip3.concurrentLimit)
    by (vm_compute; lia).
  pose proof sample_steps3 as H3.
  destruct (@small_batches_complete Part000.parseServerInfo Sample.line001
              Sample.stamp Sample.process3 _ _ _ H1 H2 H3) as (B & P & _).
  split; [exact H3|]. split; [exact B|exact P].
Defined.

Lemma sample_waiting11 :
  Checkip3.steps Sample.line001 Sample.process11 21
    (Checkip3.start Part000.parseServerInfo Sample.stamp Sample.process11)
    Sample.waiting11.
Proof.
  replace (Checkip3.start Part000.parseServerInfo Sample.stamp
             Sample.process11)
    with (Checkip3.mkState (Checkip3.MAdd (repeat Sample.http 11))
            [] 0 0 Checkip3.CNotStarted (Checkip3.mkAggregator [] [] 0 []))
    by reflexivity.
  simpl repeat.
  do 10 (eapply Checkip3.steps_S; [apply Checkip3.step_add|];
         eapply Checkip3.steps_S;
           [apply Checkip3.step_go; unfold Checkip3.concurrentLimit; lia|]).
  eapply Checkip3.steps_S; [apply Checkip3.step_add|].
  apply Checkip3.steps_O.
Qed.

Lemma large_batches_block_in_dispatch_witness :
  Checkip3.steps Sample.line001 Sample.process11 21
    (Checkip3.start Part000.parseServerInfo Sample.stamp Sample.process11)
    Sample.waiting11
  /\ Checkip3.concurrentLimit
     < List.length
         (Checkip3.serverInfos Part000.parseServerInfo Sample.process11)
  /\ Checkip3.seen (Checkip3.agg Sample.waiting11) = []
  /\ Checkip3.mpc Sample.waiting11 <> Checkip3.MDrain.
Proof.
  assert (H1 : Checkip3.mpc
                 (Checkip3.start Part000.parseServerInfo Sample.stamp
                    Sample.process11)
               = Checkip3.MAdd (repeat Sample.http 11)) by reflexivity.
  assert (H2 : Checkip3.concurrentLimit
               < List.length
                   (Checkip3.serverInfos Part000.parseServerInfo
                      Sample.process11))
    by (vm_compute; lia).
  pose proof sample_waiting11 as H3.
  destruct (@large_batches_block_in_dispatch Part000.parseServerInfo
              Sample.line001 Sample.stamp Sample.process11 _ _ _ H1 H2 H3)
    as (_ & S & _ & D & _).
  split; [exact H3|]. split; [exact H2|]. split; [exact S|exact D].
Defined.

Lemma handlers_keep_keys_distinct_witness :
  NoDup (map APIPatternMatchingConfig.key Sample.rules)
  /\ NoDup (map APIPatternMatchingConfig.key
              (APIPatternMatchingConfig.handleModalOk Sample.rules
                 (APIPatternMatchingConfig.mkValues (Some "2") "json"
                    "regex" "[.]json$" None) "1700000000000")).
Proof.
  assert (H : NoDup (map APIPatternMatchingConfig.key Sample.rules)).
  { simpl. repeat constructor; simpl; intuition discriminate. }
  split; [exact H|].
  exact (proj2 (proj2 (@handlers_keep_keys_distinct Sample.rules H)) _ _).
Defined.

Lemma part001_skips_other_colon_counts_witness :
  occurrences ":" "serverIP: fe80::1" = 3
  /\ Part001.scanLine ([], Sample.loopback) "serverIP: fe80::1"
     = ([], Sample.loopback).
Proof.
  assert (H : occurrences ":" "serverIP: fe80::1" <> 1)
    by (vm_compute; discriminate).
  split; [reflexivity|].
  exact (@part001_skips_other_colon_counts ([], Sample.loopback) _ H).
Defined.

Lemma part001_fields_are_inherited_witness :
  exists new,
    fst (Part001.scanLines ([], Sample.loopback)
           ["serverIP:10.0.0.7"; "serverPort:80"]) = ([] ++ new)%list
    /\ Forall (fun r => sameField "appName" r Sample.loopback) new
    /\ sameField "appName"
         (snd (Part001.scanLines ([], Sample.loopback)
                 ["serverIP:10.0.0.7"; "serverPort:80"])) Sample.loopback.
Proof.
  assert (H : forallb (fun l => negb (isKey "appName" l))
                ["serverIP:10.0.0.7"; "serverPort:80"] = true) by reflexivity.
  exact (@part001_fields_are_inherited "appName" [] Sample.loopback _ H).
Defined.

Lemma sample_run1 :
  Part001.steps Sample.process1 9 (Part001.start Sample.process1)
    Sample.finished1.
Proof.
  replace (Part001.start Sample.process1) with
    (Part001.mkState (Part001.MGo [Sample.loopback]) [] 0 Part001.CNotStarted
       (Part001.mkAggregator [] [] 0 [])) by reflexivity.
  eapply Part001.steps_S; [apply Part001.step_go|].
  eapply Part001.steps_S; [apply Part001.step_watch|].
  eapply Part001.steps_S; [apply Part001.step_create|].
  simpl.
  eapply Part001.steps_S;
    [eapply Part001.step_print with (l1 := []) (l2 := []); simpl; auto|].
  eapply Part001.steps_S;
    [eapply Part001.step_probe with (l1 := []) (l2 := []);
     simpl; auto; reflexivity|].
  eapply Part001.steps_S;
    [eapply Part001.step_rendezvous with (l1 := []) (l2 := []); reflexivity|].
  simpl.
  eapply Part001.steps_S;
    [eapply Part001.step_done with (l1 := []) (l2 := []); simpl; auto|].
  eapply Part001.steps_S; [apply Part001.step_close; exact I|].
  eapply Part001.steps_S; [apply Part001.step_end|].
  apply Part001.steps_O.
Qed.

Lemma part001_run_completes_witness :
  Part001.steps Sample.process1 9 (Part001.start Sample.process1)
    Sample.finished1
  /\ Permutation (Part001.seen (Part001.agg Sample.finished1))
       (Part001.linesFrom Sample.process1 0
          (Part001.serverInfos Sample.process1))
  /\ Part001.logFile (Part001.agg Sample.finished1)
     = Part001.seen (Part001.agg Sample.finished1).
Proof.
  assert (H1 : Part001.mpc (Part001.start Sample.process1)
               = Part001.MGo [Sample.loopback]) by reflexivity.
  pose proof sample_run1 as H2.
  destruct (@part001_run_completes Sample.process1 _ _ _ H1 H2)
    as (_ & _ & F).
  destruct (F eq_refl (fun _ _ => eq_refl) 0%Z eq_refl) as (_ & _ & P & L).
  split; [exact H2|]. split; [exact P|exact L].
Defined.

Lemma part001_probes_all_at_once_witness :
  exists s,
    Part001.reachable Sample.process1 s
    /\ Part001.mpc s = Part001.MCreate
    /\ map Part001.ginfo (Part001.goroutines s)
       = Part001.serverInfos Sample.process1
    /\ Part001.count Part001.probing (Part001.goroutines s)
       = List.length (Part001.serverInfos Sample.process1)
    /\ Part001.seen (Part001.agg s) = [].
Proof.
  assert (H1 : Part001.mpc (Part001.start Sample.process1)
               = Part001.MGo [Sample.loopback]) by reflexivity.
  exact (@part001_probes_all_at_once Sample.process1 _ H1).
Defined.

Lemma sample_refused1 :
  Part001.reachable Sample.readOnly1 Sample.refused1.
Proof.
  eapply Part001.reach_step.
  eapply Part001.reach_step.
  eapply Part001.reach_step.
  apply Part001.reach_start.
  - replace (Part001.start Sample.readOnly1) with
      (Part001.mkState (Part001.MGo [Sample.loopback]) [] 0
         Part001.CNotStarted (Part001.mkAggregator [] [] 0 []))
      by reflexivity.
    apply Part001.step_go.
  - apply Part001.step_watch.
  - apply Part001.step_create.
Qed.

Lemma part001_create_failure_drops_results_witness :
  Part001.os_Create Sample.readOnly1 "connectinfo.log"
    = Some "permission denied"
  /\ Part001.reachable Sample.readOnly1 Sample.refused1
  /\ Part001.seen (Part001.agg Sample.refused1) = []
  /\ last (Part001.console (Part001.agg Sample.refused1)) ""
     = Part001.createFailed "permission denied".
Proof.
  assert (H1 : Part001.mpc (Part001.start Sample.readOnly1)
               = Part001.MGo [Sample.loopback]) by reflexivity.
  assert (H2 : Part001.os_Create Sample.readOnly1 "connectinfo.log"
               = Some "permission denied") by reflexivity.
  pose proof sample_refused1 as H3.
  destruct (@part001_create_failure_drops_results Sample.readOnly1 _ _ _
              H1 H2 H3) as (_ & S & _ & E).
  split; [exact H2|]. split; [exact H3|]. split; [exact S|].
  exact (proj1 (proj2 (E 0%Z eq_refl))).
Defined.

